(** * trifle: conversion of Quattor JSON profiles to resource paths

    A shallow embedding of [aquilon/src/trifle/trifle.c] and the
    properties of its streaming converter: the path stack
    ([path_append], [path_remove], [find_last_slash]), the component
    unescaper ([str_unescape]), the accumulator ([str_append]), the
    value and slice emitter ([putvalue], [start_slice], [stop_slice]),
    the byte-level state machine of [process_json] and the document
    loop of [main].

    Bytes are integers in [0, 255] (the values [gzgetc] returns), C
    strings are lists of such bytes, and the file system is a finite map
    from file names to contents. *)

From Stdlib Require Import ZArith Lia Bool List Ascii String.
From stdpp Require Import base option list gmap strings.
Import ListNotations.
Local Open Scope Z_scope.

(** ** Bytes and C strings *)

Definition byte := Z.

Definition chr (c : ascii) : byte := Z.of_N (N_of_ascii c).

Fixpoint bytes_of_string (s : string) : list byte :=
  match s with
  | EmptyString => []
  | String c s' => chr c :: bytes_of_string s'
  end.

Notation "'B' s" := (bytes_of_string s%string) (at level 9, only parsing).

Definition NUL : byte := 0.
Definition NL : byte := 10.

(** What [strlen], [strcat], [%s] and [fputs] see of a buffer: the bytes
    before the first NUL. *)
Fixpoint cstring (buf : list byte) : list byte :=
  match buf with
  | [] => []
  | c :: buf' => if c =? NUL then [] else c :: cstring buf'
  end.

Definition strlen (s : list byte) : Z := Z.of_nat (length s).

Definition isdigit (c : byte) : bool := (48 <=? c) && (c <=? 57).

Definition isxdigit (c : byte) : bool :=
  isdigit c || ((97 <=? c) && (c <=? 102)) || ((65 <=? c) && (c <=? 70)).

Definition hexval (c : byte) : Z :=
  if isdigit c then c - 48
  else if (97 <=? c) && (c <=? 102) then c - 97 + 10
  else c - 65 + 10.

(** ** Platform and configuration *)

(** The width of [long] decides [ULONG_MAX] and the type in which
    [unicode-0xd800u] is computed. *)
Inductive data_model := ILP32 | LP64.

Definition long_bits (dm : data_model) : Z :=
  match dm with ILP32 => 32 | LP64 => 64 end.

Definition ULONG_MAX (dm : data_model) : Z := 2 ^ long_bits dm - 1.

Definition MAXBUF : Z := 4096.
Definition MAX_SLICES : Z := 1000.

(** The global option variables, with the command-line flag that sets
    each of them. *)
Record config := {
  gzlevel : Z;                  (* -C, -1..-9 *)
  unescape : bool;              (* -e *)
  terminals : bool;             (* -h clears it *)
  gen_index : bool;             (* -I clears it *)
  multiline : bool;             (* -n *)
  multiprefix : bool;           (* -p *)
  suffix : string;              (* -O *)
  strip : string;               (* -R *)
  slice : string;               (* -S *)
  slices : list (list byte);    (* -s, one entry per option *)
  to_stdout : bool              (* -t *)
}.

Definition default_config : config :=
  {| gzlevel := 0; unescape := false; terminals := true; gen_index := true;
     multiline := false; multiprefix := false;
     suffix := ".txt"; strip := ".json"; slice := ".slice";
     slices := []; to_stdout := false |}.

Definition num_slices (cfg : config) : Z := Z.of_nat (length (slices cfg)).

(** ** Diagnostics written to stderr *)

Inductive diag :=
  | StringExceeded (line : Z)        (* str_append *)
  | PathExceeded (line : Z)          (* path_append *)
  | ComponentExceeded (line : Z)     (* str_unescape *)
  | UnicodeError (line : Z)          (* unicode_error: *)
  | CannotOpen (file : string)
  | FilenameTooLong (file : string).

(** How [process_json] can end before the input does. *)
Inductive fatal :=
  | Return1                (* the function returns 1 *)
  | NullDeref.             (* strlen(NULL) after a failed str_unescape *)

(** ** str_unescape *)

Section Unescape.

(** One iteration of the [for] loop on the byte [c] at [*p] ([c = NUL]
    is the extra iteration on the terminator); [prev] is [*(p-1)],
    [out] the bytes stored from [buf+1] on, so that [len] is its
    length. [None] is [goto unescape_overflow]. *)
Definition unescape_range (n : Z) : bool :=
  ((32 <=? n) && (n <=? 64)) || ((91 <=? n) && (n <=? 96)) ||
  ((123 <=? n) && (n <=? 126)).

Record unesc := {
  u_out : list byte; u_score : Z; u_any : bool
}.

Definition unescape_iter (buflen : Z) (prev c : byte) (u : unesc)
  : option unesc :=
  let len := strlen (u_out u) in
  if c =? chr "_" then
    Some {| u_out := u_out u; u_score := 1; u_any := u_any u |}
  else if negb (u_score u =? 0) then
    let literal :=
      if buflen <=? len + u_score u + 1 then None
      else Some {| u_out := u_out u ++ [chr "_"]
                             ++ (if u_score u =? 2 then [prev] else [])
                             ++ (if c =? NUL then [] else [c]);
                   u_score := 0; u_any := u_any u |} in
    if isxdigit c then
      if u_score u =? 1 then
        Some {| u_out := u_out u; u_score := 2; u_any := u_any u |}
      else
        let n := 16 * hexval prev + hexval c in
        if unescape_range n then
          Some {| u_out := u_out u ++ [n]; u_score := 0; u_any := true |}
        else literal
    else literal
  else
    Some {| u_out := if c =? NUL then u_out u else u_out u ++ [c];
            u_score := u_score u; u_any := u_any u |}.

Fixpoint unescape_loop (buflen : Z) (s : list byte) (prev : byte)
    (u : unesc) : option unesc :=
  if buflen <=? strlen (u_out u) then
    (* the loop condition fails; overflow unless *p is the terminator *)
    match s with [] => Some u | _ => None end
  else
    match s with
    | [] => unescape_iter buflen prev NUL u
    | c :: s' =>
        match unescape_iter buflen prev c u with
        | Some u' => unescape_loop buflen s' c u'
        | None => None
        end
    end.

(** [str_unescape s buf buflen]: the returned string, or [None] for
    [NULL]. *)
Definition str_unescape (s : list byte) (buflen : Z) : option (list byte) :=
  match unescape_loop (buflen - 3) s NUL
          {| u_out := []; u_score := 0; u_any := false |} with
  | Some u =>
      if u_any u then Some ([chr "{"] ++ u_out u ++ [chr "}"])
      else Some (u_out u)
  | None => None
  end.

End Unescape.

(** ** The path stack *)

Section Path.

Variable dm : data_model.
Variable cfg : config.

(** [find_last_slash]: the offset of the returned pointer, [None] for
    [NULL]. [i] is the offset of the head of [s]. *)
Fixpoint find_last_slash_from (s : list byte) (i : nat) (escaped : bool)
    (q : option nat) : option nat :=
  match s with
  | [] => q
  | c :: s' =>
      if unescape cfg && (c =? chr "{") then
        find_last_slash_from s' (S i) true q
      else if escaped && (c =? chr "}") then
        find_last_slash_from s' (S i) false q
      else if (c =? chr "/") && negb escaped then
        find_last_slash_from s' (S i) escaped (Some i)
      else find_last_slash_from s' (S i) escaped q
  end.

Definition find_last_slash (s : list byte) : option nat :=
  find_last_slash_from s 0 false None.

(** [path_append s path &pathlen]. [pathlen] is always [strlen path],
    so the path alone is the state. [TooLong] is the return of 1;
    [NullComponent] is [str_unescape] returning [NULL], which
    [strlen] then dereferences. *)
Inductive append_result :=
  | Appended (path : list byte)
  | TooLong
  | NullComponent.

Definition path_append (s : list byte) (path : list byte) : append_result :=
  match (if unescape cfg then str_unescape s MAXBUF else Some s) with
  | None => NullComponent
  | Some s =>
      if strlen s =? 0 then Appended path
      else if MAXBUF <? strlen path + strlen s + 2 then TooLong
      else Appended (path ++ [chr "/"] ++ s)
  end.

(** [strtoul(s, &q, 10)] on a string that starts with a digit: the
    value, [ULONG_MAX] when it does not fit, and the rest at [q]. *)
Fixpoint strtoul_digits (s : list byte) (acc : Z) : Z * list byte :=
  match s with
  | c :: s' => if isdigit c then strtoul_digits s' (10 * acc + (c - 48))
               else (acc, s)
  | [] => (acc, [])
  end.

Definition strtoul (s : list byte) : Z * list byte :=
  let '(n, q) := strtoul_digits s 0 in (Z.min n (ULONG_MAX dm), q).

(** [path_remove path &pathlen idx]: [track] says whether [idx] is a
    non-null pointer, [idx] is the counter it points to. *)
Definition path_remove (path : list byte) (track : bool) (idx : Z)
  : list byte * Z :=
  match find_last_slash path with
  | None => ([], idx)
  | Some p =>
      let comp := drop (S p) path in
      let idx' :=
        if track then
          if gen_index cfg then
            match comp with
            | c :: _ =>
                if isdigit c then
                  let '(n, q) := strtoul comp in
                  if negb (n =? ULONG_MAX dm) && bool_decide (q = [])
                  then n else ULONG_MAX dm
                else ULONG_MAX dm
            | [] => ULONG_MAX dm
            end
          else if bool_decide (comp = [chr "#"]) then 1 else idx
        else idx in
      (take p path, idx')
  end.

(** [is_slice s]. *)
Definition is_slice (s : list byte) : bool :=
  existsb (fun p => bool_decide (s = p)) (slices cfg).

End Path.

(** [str_append ch s &len] on a buffer of [MAXBUF] bytes holding [s]:
    [None] when it reports the overflow and returns 1. *)
Definition str_append (ch : byte) (s : list byte) : option (list byte) :=
  if strlen s =? MAXBUF - 1 then None else Some (s ++ [ch mod 256]).

(** ** The state of [process_json] *)

(** A call that writes to the primary sink ([outfp], [gzout] or
    stdout), and the bytes it writes. *)
Inductive write :=
  | Terminal (path : list byte)            (* "%s\n", path *)
  | ValueStart (path : list byte) (ch : byte)   (* "%s = %c", path, ch *)
  | Char (ch : byte)                       (* putc, putchar, gzputc *)
  | Chars (value : list byte)              (* fputs, gzputs *)
  | Continuation (path : list byte).       (* quote, newline, "%s .= ", quote *)

Definition write_bytes (w : write) : list byte :=
  match w with
  | Terminal p => p ++ [NL]
  | ValueStart p ch => p ++ bytes_of_string " = " ++ [ch]
  | Char ch => [ch]
  | Chars v => v
  | Continuation p => [34; NL] ++ p ++ bytes_of_string " .= " ++ [34]
  end.

Definition sink_bytes (ws : list write) : list byte :=
  concat (map write_bytes ws).

Definition is_value_start (w : write) : bool :=
  match w with ValueStart _ _ => true | _ => false end.

(** The number of value records begun on a sink. *)
Definition value_records (ws : list write) : nat :=
  length (List.filter is_value_start ws).

(** The local variables of [process_json] that the loop reads and
    writes, the line counter, and what has been written so far: [outp]
    to the primary sink, [slicef] to the slice file ([None] while it
    has not been created), [errs] to stderr. [name] holds the [namelen]
    bytes stored in the buffer since it was last cleared; [pathlen] is
    [strlen path]. *)
Record state := {
  name : list byte;
  path : list byte;
  in_quotes : bool;
  in_value : Z;
  last_comma : bool;
  protect : bool;
  in_unicode : Z;
  unicode : Z;
  idx : Z;
  valueout : bool;
  linenum : Z;
  outp : list write;
  slicefp : bool;
  slicef : option (list byte);
  errs : list diag
}.

Definition set_name (s : state) v : state :=
  {| name := v; path := path s; in_quotes := in_quotes s;
     in_value := in_value s; last_comma := last_comma s;
     protect := protect s; in_unicode := in_unicode s; unicode := unicode s;
     idx := idx s; valueout := valueout s; linenum := linenum s;
     outp := outp s; slicefp := slicefp s; slicef := slicef s;
     errs := errs s |}.
Definition set_path (s : state) v : state :=
  {| name := name s; path := v; in_quotes := in_quotes s;
     in_value := in_value s; last_comma := last_comma s;
     protect := protect s; in_unicode := in_unicode s; unicode := unicode s;
     idx := idx s; valueout := valueout s; linenum := linenum s;
     outp := outp s; slicefp := slicefp s; slicef := slicef s;
     errs := errs s |}.
Definition set_in_quotes (s : state) v : state :=
  {| name := name s; path := path s; in_quotes := v; in_value := in_value s;
     last_comma := last_comma s; protect := protect s;
     in_unicode := in_unicode s; unicode := unicode s; idx := idx s;
     valueout := valueout s; linenum := linenum s; outp := outp s;
     slicefp := slicefp s; slicef := slicef s; errs := errs s |}.
Definition set_in_value (s : state) v : state :=
  {| name := name s; path := path s; in_quotes := in_quotes s;
     in_value := v; last_comma := last_comma s; protect := protect s;
     in_unicode := in_unicode s; unicode := unicode s; idx := idx s;
     valueout := valueout s; linenum := linenum s; outp := outp s;
     slicefp := slicefp s; slicef := slicef s; errs := errs s |}.
Definition set_last_comma (s : state) v : state :=
  {| name := name s; path := path s; in_quotes := in_quotes s;
     in_value := in_value s; last_comma := v; protect := protect s;
     in_unicode := in_unicode s; unicode := unicode s; idx := idx s;
     valueout := valueout s; linenum := linenum s; outp := outp s;
     slicefp := slicefp s; slicef := slicef s; errs := errs s |}.
Definition set_protect (s : state) v : state :=
  {| name := name s; path := path s; in_quotes := in_quotes s;
     in_value := in_value s; last_comma := last_comma s; protect := v;
     in_unicode := in_unicode s; unicode := unicode s; idx := idx s;
     valueout := valueout s; linenum := linenum s; outp := outp s;
     slicefp := slicefp s; slicef := slicef s; errs := errs s |}.
Definition set_in_unicode (s : state) v : state :=
  {| name := name s; path := path s; in_quotes := in_quotes s;
     in_value := in_value s; last_comma := last_comma s;
     protect := protect s; in_unicode := v; unicode := unicode s;
     idx := idx s; valueout := valueout s; linenum := linenum s;
     outp := outp s; slicefp := slicefp s; slicef := slicef s;
     errs := errs s |}.
Definition set_unicode (s : state) v : state :=
  {| name := name s; path := path s; in_quotes := in_quotes s;
     in_value := in_value s; last_comma := last_comma s;
     protect := protect s; in_unicode := in_unicode s; unicode := v;
     idx := idx s; valueout := valueout s; linenum := linenum s;
     outp := outp s; slicefp := slicefp s; slicef := slicef s;
     errs := errs s |}.
Definition set_idx (s : state) v : state :=
  {| name := name s; path := path s; in_quotes := in_quotes s;
     in_value := in_value s; last_comma := last_comma s;
     protect := protect s; in_unicode := in_unicode s; unicode := unicode s;
     idx := v; valueout := valueout s; linenum := linenum s; outp := outp s;
     slicefp := slicefp s; slicef := slicef s; errs := errs s |}.
Definition set_valueout (s : state) v : state :=
  {| name := name s; path := path s; in_quotes := in_quotes s;
     in_value := in_value s; last_comma := last_comma s;
     protect := protect s; in_unicode := in_unicode s; unicode := unicode s;
     idx := idx s; valueout := v; linenum := linenum s; outp := outp s;
     slicefp := slicefp s; slicef := slicef s; errs := errs s |}.
Definition set_linenum (s : state) v : state :=
  {| name := name s; path := path s; in_quotes := in_quotes s;
     in_value := in_value s; last_comma := last_comma s;
     protect := protect s; in_unicode := in_unicode s; unicode := unicode s;
     idx := idx s; valueout := valueout s; linenum := v; outp := outp s;
     slicefp := slicefp s; slicef := slicef s; errs := errs s |}.
Definition set_outp (s : state) v : state :=
  {| name := name s; path := path s; in_quotes := in_quotes s;
     in_value := in_value s; last_comma := last_comma s;
     protect := protect s; in_unicode := in_unicode s; unicode := unicode s;
     idx := idx s; valueout := valueout s; linenum := linenum s; outp := v;
     slicefp := slicefp s; slicef := slicef s; errs := errs s |}.
Definition set_slicefp (s : state) v : state :=
  {| name := name s; path := path s; in_quotes := in_quotes s;
     in_value := in_value s; last_comma := last_comma s;
     protect := protect s; in_unicode := in_unicode s; unicode := unicode s;
     idx := idx s; valueout := valueout s; linenum := linenum s;
     outp := outp s; slicefp := v; slicef := slicef s; errs := errs s |}.
Definition set_slicef (s : state) v : state :=
  {| name := name s; path := path s; in_quotes := in_quotes s;
     in_value := in_value s; last_comma := last_comma s;
     protect := protect s; in_unicode := in_unicode s; unicode := unicode s;
     idx := idx s; valueout := valueout s; linenum := linenum s;
     outp := outp s; slicefp := slicefp s; slicef := v; errs := errs s |}.
Definition set_errs (s : state) v : state :=
  {| name := name s; path := path s; in_quotes := in_quotes s;
     in_value := in_value s; last_comma := last_comma s;
     protect := protect s; in_unicode := in_unicode s; unicode := unicode s;
     idx := idx s; valueout := valueout s; linenum := linenum s;
     outp := outp s; slicefp := slicefp s; slicef := slicef s; errs := v |}.

(** How one iteration of the loop ends: at its closing brace, or by
    leaving [process_json]. *)
Inductive outcome :=
  | Done (s : state)
  | Abort (e : fatal) (s : state).

Definition bind (o : outcome) (k : state -> outcome) : outcome :=
  match o with
  | Done s => k s
  | Abort e s => Abort e s
  end.

Notation "x <- o ;; k" := (bind o (fun x => k))
  (at level 100, o at next level, right associativity).

Section Converter.

Variable dm : data_model.
Variable cfg : config.

(** The initial values of the locals, and [linenum=1]. *)
Definition init : state :=
  {| name := []; path := []; in_quotes := false; in_value := 0;
     last_comma := false; protect := false; in_unicode := 0; unicode := 0;
     idx := ULONG_MAX dm; valueout := false; linenum := 1;
     outp := []; slicefp := false; slicef := None; errs := [] |}.

Definition report (d : diag) (s : state) : state :=
  set_errs s (errs s ++ [d]).

(** A write to the primary sink. *)
Definition emit (w : write) (s : state) : state :=
  set_outp s (outp s ++ [w]).

(** [write_slice(ch)] *)
Definition write_slice (ch : byte) (s : state) : state :=
  if slicefp s then set_slicef s (Some (default [] (slicef s) ++ [ch]))
  else s.

(** [start_slice(ch)]: [fopen(slicefile, "w")] truncates the file. *)
Definition start_slice (ch : byte) (s : state) : state :=
  if (0 <? num_slices cfg) && is_slice cfg (path s) then
    set_slicefp (set_slicef s (Some (path s ++ B" = " ++ [ch]))) true
  else s.

(** [stop_slice()] *)
Definition stop_slice (s : state) : state :=
  if slicefp s then
    set_slicefp (set_slicef s (Some (default [] (slicef s) ++ [NL]))) false
  else s.

(** [putvalue(ch)] *)
Definition putvalue (ch : byte) (s : state) : state :=
  if valueout s then emit (Char ch) (write_slice ch s)
  else emit (ValueStart (path s) ch)
            (start_slice ch (set_valueout s true)).

(** The block under [if (valueout)] at a comma or closing bracket. *)
Definition end_value (s : state) : state :=
  if valueout s then set_valueout (stop_slice (emit (Char NL) s)) false
  else s.

(** [str_append(ch, name, &namelen)] with its result ignored, as at
    every call in [process_json]. *)
Definition name_append (ch : byte) (s : state) : state :=
  match str_append ch (name s) with
  | Some n => set_name s n
  | None => report (StringExceeded (linenum s)) s
  end.

(** A checked call of [path_append]: [if (path_append(...)) return 1]. *)
Definition do_path_append (comp : list byte) (s : state) : outcome :=
  match path_append cfg comp (path s) with
  | Appended p => Done (set_path s p)
  | TooLong => Abort Return1 (report (PathExceeded (linenum s)) s)
  | NullComponent =>
      Abort NullDeref (report (ComponentExceeded (linenum s)) s)
  end.

Definition do_path_remove (track : bool) (s : state) : state :=
  let '(p, i) := path_remove dm cfg (path s) track (idx s) in
  set_idx (set_path s p) i.

Definition clear_name (s : state) : state := set_name s [].

(** [snprintf(buf, 30, "%lu", idx)] *)
Fixpoint utoa (fuel : nat) (n : Z) (acc : list byte) : list byte :=
  match fuel with
  | O => acc
  | S f =>
      let acc' := (48 + n mod 10) :: acc in
      if n / 10 =? 0 then acc' else utoa f (n / 10) acc'
  end.

Definition fmt_lu (n : Z) : list byte := utoa 29 n [].

(** The structural line written at [{] and [[]. *)
Definition terminal_line (s : state) : state :=
  if terminals cfg && negb (strlen (path s) =? 0)
  then emit (Terminal (path s)) s else s.

(** [case '{'] *)
Definition on_begin_object (s : state) : outcome :=
  Done (set_in_value (terminal_line s) 0).

(** [case '['] *)
Definition on_begin_array (s : state) : outcome :=
  let s := set_in_value (terminal_line s) 2 in
  if last_comma s then Done s
  else do_path_append (if gen_index cfg then B"0" else B"#") s.

(** [case ':'] *)
Definition on_colon (s : state) : outcome :=
  s <- do_path_append (cstring (name s)) (set_in_value s 1) ;;
  Done (clear_name s).

(** The second and third [if] of [case ',']: the key of a finished
    member is removed, or the next index is appended. *)
Definition next_item (s : state) : outcome :=
  if in_value s =? 1 then Done (do_path_remove false s)
  else if idx s <? ULONG_MAX dm then
    if gen_index cfg then
      let s := set_idx s (idx s + 1) in
      do_path_append (fmt_lu (idx s)) s
    else do_path_append B"#" s
  else Done s.

(** [case ','] *)
Definition on_comma (s : state) : outcome :=
  let s := end_value s in
  let s := if in_value s =? 2 then do_path_remove true s else s in
  s <- next_item s ;;
  let s := if in_value s <? 2 then set_in_value s 0 else s in
  Done (clear_name (set_idx s (ULONG_MAX dm))).

(** [case '}'] and [case ']'] *)
Definition on_end (ch : byte) (s : state) : outcome :=
  let s := end_value s in
  let s := if negb (in_value s =? 0) then do_path_remove false s else s in
  let s := do_path_remove (negb (ch =? chr "]")) s in
  let s := if ch =? chr "]" then set_idx s (ULONG_MAX dm) else s in
  Done (clear_name (set_in_value s 0)).

(** The opening quote *)
Definition on_quote (ch : byte) (s : state) : outcome :=
  let s := set_in_quotes s true in
  Done (if negb (in_value s =? 0) then putvalue ch s else s).

(** [default:] *)
Definition on_other (ch : byte) (s : state) : outcome :=
  Done (if negb (in_value s =? 0) then putvalue ch s
        else name_append ch s).

(** The [switch] taken outside quotes. *)
Definition outside (s : state) (ch : byte) : outcome :=
  if (ch =? chr " ") || (ch =? 9) || (ch =? 13) then Done s
  else if ch =? NL then
    Done (set_linenum s ((linenum s + 1) mod 2 ^ long_bits dm))
  else if ch =? chr "{" then on_begin_object s
  else if ch =? chr "[" then on_begin_array s
  else if ch =? chr ":" then on_colon s
  else if ch =? chr "," then on_comma s
  else if (ch =? chr "}") || (ch =? chr "]") then on_end ch s
  else if ch =? 34 then on_quote ch s
  else on_other ch s.

(** [unicode-0xd800u<0x800]: the difference of a [long] and an
    [unsigned int]. Where [long] is wider than [int] the constant is
    converted to [long] and the comparison is signed; where both have
    32 bits the difference is taken in [unsigned long] and wraps. *)
Definition surrogate_test (u : Z) : bool :=
  match dm with
  | LP64 => u - 55296 <? 2048
  | ILP32 => (u - 55296) mod 2 ^ 32 <? 2048
  end.

(** The bytes handed to [str_append] for the code unit [u], in the
    order of the calls; [None] is [goto unicode_error]. *)
Definition utf8_appends (u : Z) : option (list byte) :=
  if u <? 128 then Some [u]
  else if u <? 2048 then Some [192 + u / 64; 128 + u mod 64]
  else if surrogate_test u then None
  else if u <? 65536 then
    Some [224 + u / 4096; 128 + u / 4096 mod 64;
          128 + u / 64 mod 64; 128 + u mod 64]
  else if u <? 1114112 then
    Some [240 + u / 262144; 128 + u / 4096 mod 64;
          128 + u / 64 mod 64; 128 + u mod 64]
  else None.

(** The local [char value[4]] and the offsets at which the calls of
    [str_append] on it store: the call that finds [len] bytes stores
    its byte at [len] and a terminator at [len + 1]. *)
Definition VALUE_SIZE : Z := 4.

Definition stored_offsets (appended : list byte) : list Z :=
  flat_map (fun len => [Z.of_nat len; Z.of_nat len + 1])
           (seq 0 (length appended)).

Definition unicode_error (s : state) : outcome :=
  Abort Return1 (report (UnicodeError (linenum s)) s).

(** The branch [else if (in_unicode)]. *)
Definition unicode_digit (s : state) (ch : byte) : outcome :=
  let u := Z.shiftl (unicode s) 4 in
  let ch := if (65 <=? ch) && (ch <=? 70) then ch + 32 else ch in
  if (97 <=? ch) && (ch <=? 102) || (48 <=? ch) && (ch <=? 57) then
    let u := Z.lor u (if 97 <=? ch then ch - 97 + 10 else ch - 48) in
    let s := set_unicode s u in
    let n := in_unicode s in
    let s := set_in_unicode s (n + 1) in
    if n =? 4 then
      match utf8_appends u with
      | None => unicode_error s
      | Some bs =>
          let s :=
            if negb (in_value s =? 0) then
              (* value[] is filled, then written with fputs *)
              emit (Chars (cstring (map (fun b => b mod 256) bs))) s
            else fold_left (fun s b => name_append b s) bs s in
          Done (set_in_unicode s 0)
      end
    else Done s
  else unicode_error (set_unicode s u).

(** The last [else] inside quotes: any other character, after a
    backslash or not. *)
Definition on_char (s : state) (ch : byte) : outcome :=
  let '(s, ch) :=
    if protect s then
      if multiline cfg && (ch =? chr "n") then (s, NL)
      else (if negb (in_value s =? 0) then putvalue (chr "\") s
            else name_append (chr "\") s, ch)
    else (s, ch) in
  let s := set_protect s false in
  Done (if negb (in_value s =? 0) then
          if multiprefix cfg && (ch =? NL)
          then emit (Continuation (path s)) s
          else putvalue ch s
        else name_append ch s).

(** The branch taken inside quotes. *)
Definition inside (s : state) (ch : byte) : outcome :=
  if negb (protect s) && (ch =? 34) then
    let s := set_in_quotes s false in
    Done (if negb (in_value s =? 0) then putvalue ch s else s)
  else if protect s && (ch =? chr "u") then
    Done (set_protect (set_unicode (set_in_unicode s 1) 0) false)
  else if negb (in_unicode s =? 0) then unicode_digit s ch
  else if negb (protect s) && (ch =? chr "\") then
    Done (set_protect s true)
  else on_char s ch.

(** One iteration of the [while] loop on the byte [ch]. *)
Definition step (s : state) (ch : byte) : outcome :=
  if in_quotes s then inside s ch
  else s' <- outside s ch ;; Done (set_last_comma s' (ch =? chr ",")).

(** The loop without interruption, until the input ends or the
    function is left. *)
Fixpoint run (s : state) (input : list byte) : outcome :=
  match input with
  | [] => Done s
  | ch :: rest => s' <- step s ch ;; run s' rest
  end.

End Converter.

(** ** Documents, files and the interrupt *)

(** An input file as [process_json] finds it: its name and, when it can
    be opened, the bytes that [gzgetc] returns from it. *)
Record document := {
  infile : string;
  content : option (list byte)
}.

(** What the program can change outside itself. *)
Record world := {
  fs : gmap string (list byte);
  stdout : list byte;
  stderr : list diag
}.

(** The flag [terminate] is set by a signal handler at a moment the
    program does not choose. [Some n] is a signal that the next [n]
    reads of the flag do not see yet and every later read sees; [None]
    is a run without signal. *)
Definition signal := option nat.

Definition observed (sig : signal) : bool :=
  match sig with Some O => true | _ => false end.

Definition tick (sig : signal) : signal :=
  match sig with Some (S n) => Some n | _ => sig end.

Inductive status := Succeeded | Failed | Crashed.

Section Driver.

Variable dm : data_model.
Variable cfg : config.

Definition strlenS (s : string) : Z := Z.of_nat (String.length s).

Definition has_suffix (min : nat) (s suf : string) : bool :=
  let n := String.length s in
  let m := String.length suf in
  (min <? n)%nat && String.eqb (substring (n - m) m s) suf.

Definition drop_suffix (s suf : string) : string :=
  substring 0 (String.length s - String.length suf) s.

Definition outcompress : bool := negb (gzlevel cfg =? 0).

(** The output file name, without [-d]: [None] when the name is
    reported as too long. *)
Definition outfile_name (f : string) : option string :=
  if MAXBUF <? strlenS f + strlenS (suffix cfg) + (if outcompress then 3 else 0)
  then None
  else
    let o := if has_suffix 3 f ".gz" then drop_suffix f ".gz" else f in
    let o := if has_suffix (String.length (strip cfg)) o (strip cfg)
             then drop_suffix o (strip cfg) else o in
    let o := String.append o (suffix cfg) in
    Some (if outcompress then String.append o ".gz" else o).

Definition slicefile_name (o : string) : option string :=
  if MAXBUF <? strlenS o + strlenS (slice cfg) then None
  else
    let o := if has_suffix 3 o ".gz" then drop_suffix o ".gz" else o in
    Some (String.append o (slice cfg)).

(** The [while] loop of [process_json]: the flag is read before each
    byte is. *)
Fixpoint read_loop (sig : signal) (s : state) (input : list byte)
  : outcome * signal :=
  if observed sig then (Done s, sig)
  else
    match input with
    | [] => (Done s, tick sig)
    | ch :: rest =>
        match step dm cfg s ch with
        | Done s' => read_loop (tick sig) s' rest
        | Abort e s' => (Abort e s', tick sig)
        end
    end.

(** What the streams hold once they are closed or the process ends:
    [outf] is the output file ([None] for stdout), [slf] the slice
    file. *)
Definition flush (outf slf : option string) (s : state) (w : world) : world :=
  let fs1 := match outf with
             | Some o => <[o := sink_bytes (outp s)]> (fs w)
             | None => fs w
             end in
  let fs2 := match slf, slicef s with
             | Some f, Some c => <[f := c]> fs1
             | _, _ => fs1
             end in
  {| fs := fs2;
     stdout := match outf with
               | None => stdout w ++ sink_bytes (outp s)
               | Some _ => stdout w
               end;
     stderr := stderr w ++ errs s |}.

Definition complain (d : diag) (w : world) : world :=
  {| fs := fs w; stdout := stdout w; stderr := stderr w ++ [d] |}.

Definition create (f : string) (w : world) : world :=
  {| fs := <[f := []]> (fs w); stdout := stdout w; stderr := stderr w |}.

Definition unlink (f : string) (w : world) : world :=
  {| fs := delete f (fs w); stdout := stdout w; stderr := stderr w |}.

(** The loop and what follows it, once the streams are open. The
    streams close without error; the flag is read once more before
    the output file is kept or removed. *)
Definition convert (outf slf : option string) (input : list byte)
    (sig : signal) (w : world) : status * world * signal :=
  match read_loop sig (init dm) input with
  | (Done s, sig1) =>
      let w1 := flush outf slf s w in
      (Succeeded,
       match outf with
       | Some o => if observed sig1 then unlink o w1 else w1
       | None => w1
       end,
       tick sig1)
  | (Abort Return1 s, sig1) => (Failed, flush outf slf s w, sig1)
  | (Abort NullDeref s, sig1) => (Crashed, flush outf slf s w, sig1)
  end.

(** The part of [process_json] before the loop, with [-F] and without
    [-d] (an existing output file is never taken as up to date): the
    input bytes, the output file ([None] for stdout), the slice file,
    and the world with the output file created; or the world with
    the complaint when the function returns 1 here. *)
Definition open_streams (from_stdin : bool) (d : document) (w : world)
  : (list byte * option string * option string * world) + world :=
  match (if from_stdin then Some (default [] (content d)) else content d) with
  | None => inr (complain (CannotOpen (infile d)) w)
  | Some input =>
      if to_stdout cfg then inl (input, None, None, w)
      else
        match outfile_name (infile d) with
        | None => inr (complain (FilenameTooLong (infile d)) w)
        | Some o =>
            let w := create o w in
            if 0 <? num_slices cfg then
              match slicefile_name o with
              | None => inr (complain (FilenameTooLong o) w)
              | Some f => inl (input, Some o, Some f, w)
              end
            else inl (input, Some o, None, w)
        end
  end.

(** [process_json(infile)] *)
Definition process_json (from_stdin : bool) (d : document) (sig : signal)
    (w : world) : status * world * signal :=
  match open_streams from_stdin d w with
  | inr w' => (Failed, w', sig)
  | inl (input, outf, slf, w') => convert outf slf input sig w'
  end.

Inductive exit := Exit (code : Z) | Killed.

(** [for (; !terminate && optind<argc; optind++)
       if (process_json(argv[optind])) return 1;] *)
Fixpoint process_all (from_stdin : bool) (docs : list document)
    (sig : signal) (w : world) : exit * world :=
  match docs with
  | [] => (Exit 0, w)
  | d :: rest =>
      if observed sig then (Exit 0, w)
      else
        match process_json from_stdin d (tick sig) w with
        | (Succeeded, w', sig') => process_all from_stdin rest sig' w'
        | (Failed, w', _) => (Exit 1, w')
        | (Crashed, w', _) => (Killed, w')
        end
  end.

(** A line of a file list names a document unless it starts with [#]. *)
Definition is_comment (f : string) : bool :=
  match f with String "#" _ => true | _ => false end.

(** [while (!terminate && fgets(buf, MAXBUF, fp))] over the lines of
    one file list. The result is [None] when the loop ends without
    leaving [main]. *)
Fixpoint process_list (lines : list document) (sig : signal) (w : world)
  : option exit * world * signal :=
  match lines with
  | [] => (None, w, tick sig)
  | d :: rest =>
      if observed sig then (None, w, sig)
      else if is_comment (infile d) then process_list rest (tick sig) w
      else
        match process_json false d (tick sig) w with
        | (Succeeded, w', sig') => process_list rest sig' w'
        | (Failed, w', sig') => (Some (Exit 1), w', sig')
        | (Crashed, w', sig') => (Some Killed, w', sig')
        end
  end.

Fixpoint process_lists (lists : list (list document)) (sig : signal)
    (w : world) : exit * world :=
  match lists with
  | [] => (Exit 0, w)
  | l :: rest =>
      match process_list l sig w with
      | (None, w', sig') => process_lists rest sig' w'
      | (Some e, w', _) => (e, w')
      end
  end.

End Driver.

(** [main] after the options are parsed: [cfg] holds the option
    variables, [docs] the remaining arguments. Without [-f] a single
    argument [-] and no slice means stdin to stdout; with more than one
    argument, or with slices, the output never goes to stdout. *)
Definition main (dm : data_model) (cfg : config) (docs : list document)
    (sig : signal) (w : world) : exit * world :=
  match docs with
  | [] => (Exit 1, w)
  | _ =>
      let single := (length docs =? 1)%nat && (num_slices cfg =? 0) in
      let dash := match docs with
                  | [d] => String.eqb (infile d) "-"
                  | _ => false
                  end in
      let from_stdin := single && dash in
      let cfg' :=
        {| gzlevel := gzlevel cfg; unescape := unescape cfg;
           terminals := terminals cfg; gen_index := gen_index cfg;
           multiline := multiline cfg; multiprefix := multiprefix cfg;
           suffix := suffix cfg; strip := strip cfg; slice := slice cfg;
           slices := slices cfg;
           to_stdout := single && (dash || to_stdout cfg) |} in
      process_all dm cfg' from_stdin docs sig w
  end.

(** [main] with [-f]: every argument is a list of file names. *)
Definition main_filelist (dm : data_model) (cfg : config)
    (lists : list (list document)) (sig : signal) (w : world) : exit * world :=
  match lists with
  | [] => (Exit 1, w)
  | _ =>
      let cfg' :=
        {| gzlevel := gzlevel cfg; unescape := unescape cfg;
           terminals := terminals cfg; gen_index := gen_index cfg;
           multiline := multiline cfg; multiprefix := multiprefix cfg;
           suffix := suffix cfg; strip := strip cfg; slice := slice cfg;
           slices := slices cfg; to_stdout := false |} in
      process_lists dm cfg' lists sig w
  end.

Definition empty_world : world := {| fs := ∅; stdout := []; stderr := [] |}.

(** JSON text written with apostrophes for the double quotes. *)
Definition json (s : string) : list byte :=
  map (fun c => if c =? 39 then 34 else c) (bytes_of_string s).

(** ** Notions the properties are stated with *)

(** The component that [path_append] concatenates: the key itself, or
    what [str_unescape] makes of it under [-e]. *)
Definition rendered_component (cfg : config) (c : list byte)
  : option (list byte) :=
  if unescape cfg then str_unescape c MAXBUF else Some c.

(** The UTF-8 encoding of a code point below 0x110000, by the standard
    packing: one byte below 0x80, two below 0x800, three below 0x10000,
    four above. *)
Definition utf8_encode (u : Z) : list byte :=
  if u <? 0x80 then [u]
  else if u <? 0x800 then
    [Z.lor 0xC0 (Z.shiftr u 6); Z.lor 0x80 (Z.land u 0x3F)]
  else if u <? 0x10000 then
    [Z.lor 0xE0 (Z.shiftr u 12); Z.lor 0x80 (Z.land (Z.shiftr u 6) 0x3F);
     Z.lor 0x80 (Z.land u 0x3F)]
  else
    [Z.lor 0xF0 (Z.shiftr u 18); Z.lor 0x80 (Z.land (Z.shiftr u 12) 0x3F);
     Z.lor 0x80 (Z.land (Z.shiftr u 6) 0x3F); Z.lor 0x80 (Z.land u 0x3F)].

(** The flag [escaped] of [find_last_slash] after the bytes of [s]. *)
Fixpoint scan_escaped (cfg : config) (s : list byte) (escaped : bool) : bool :=
  match s with
  | [] => escaped
  | c :: s' =>
      if unescape cfg && (c =? chr "{") then scan_escaped cfg s' true
      else if escaped && (c =? chr "}") then scan_escaped cfg s' false
      else scan_escaped cfg s' escaped
  end.

(** No slash of [s] is one that [find_last_slash] would record. *)
Fixpoint slashes_hidden (cfg : config) (s : list byte) (escaped : bool) : bool :=
  match s with
  | [] => true
  | c :: s' =>
      if unescape cfg && (c =? chr "{") then slashes_hidden cfg s' true
      else if escaped && (c =? chr "}") then slashes_hidden cfg s' false
      else if (c =? chr "/") && negb escaped then false
      else slashes_hidden cfg s' escaped
  end.

(** A non-empty string of decimal digits, and the number it denotes. *)
Definition digit_string (s : list byte) : bool :=
  negb (bool_decide (s = [])) && forallb isdigit s.

Definition decimal (s : list byte) : Z :=
  fold_left (fun acc c => 10 * acc + (c - 48)) s 0.

Definition unescape_config : config :=
  {| gzlevel := 0; unescape := true; terminals := true; gen_index := true;
     multiline := false; multiprefix := false;
     suffix := ".txt"; strip := ".json"; slice := ".slice";
     slices := []; to_stdout := false |}.

(** A path of one component of [n] bytes. *)
Definition long_path (n : nat) : list byte := chr "/" :: repeat (chr "x") n.

(** The documents of [docs] are all converted: none of them fails and
    the signal is not seen where any of them starts. The result is the
    world and the signal after the last of them. *)
Fixpoint converted_all (dm : data_model) (cfg : config) (from_stdin : bool)
    (docs : list document) (sig : signal) (w : world)
  : option (world * signal) :=
  match docs with
  | [] => Some (w, sig)
  | d :: rest =>
      if observed sig then None
      else
        match process_json dm cfg from_stdin d (tick sig) w with
        | (Succeeded, w', sig') => converted_all dm cfg from_stdin rest sig' w'
        | _ => None
        end
  end.

Definition slice_config : config :=
  {| gzlevel := 0; unescape := false; terminals := true; gen_index := true;
     multiline := false; multiprefix := false;
     suffix := ".txt"; strip := ".json"; slice := ".slice";
     slices := [bytes_of_string "/a/b"]; to_stdout := false |}.

Definition doc (f : string) (text : string) : document :=
  {| infile := f; content := Some (json text) |}.

(** The diagnostic of [str_append], the only one that does not end the
    document. *)
Definition string_diag (d : diag) : bool :=
  match d with StringExceeded _ => true | _ => false end.

(** No diagnostic so far but those of [str_append]. *)
Definition quiet (s : state) : bool := forallb string_diag (errs s).

(** The state in which a run ends, and whether it ends with the input. *)
Definition final (o : outcome) : state :=
  match o with Done s => s | Abort _ s => s end.

Definition completed (o : outcome) : bool :=
  match o with Done _ => true | Abort _ _ => false end.

(** The path from which a closing bracket removes the component of the
    container itself: when a value is pending, its own component has
    been removed first. *)
Definition closing_path (dm : data_model) (cfg : config) (s : state)
  : list byte :=
  if in_value s =? 0 then path s
  else fst (path_remove dm cfg (path s) false (idx s)).

(** The component that a comma appends for the counter [i]. *)
Definition index_component (cfg : config) (i : Z) : list byte :=
  if gen_index cfg then fmt_lu (i + 1) else bytes_of_string "#".

(** ** What decides the number of value records *)

(** The variables of [process_json] on which the beginning of a value
    record depends, with the number of records begun so far. *)
Record control := {
  c_quotes : bool;
  c_protect : bool;
  c_unicode : Z;
  c_value : Z;
  c_out : bool;
  c_records : nat
}.

Definition control_of (s : state) : control :=
  {| c_quotes := in_quotes s; c_protect := protect s;
     c_unicode := in_unicode s; c_value := in_value s;
     c_out := valueout s; c_records := value_records (outp s) |}.

Definition cset_quotes (c : control) v : control :=
  {| c_quotes := v; c_protect := c_protect c; c_unicode := c_unicode c;
     c_value := c_value c; c_out := c_out c; c_records := c_records c |}.
Definition cset_protect (c : control) v : control :=
  {| c_quotes := c_quotes c; c_protect := v; c_unicode := c_unicode c;
     c_value := c_value c; c_out := c_out c; c_records := c_records c |}.
Definition cset_unicode (c : control) v : control :=
  {| c_quotes := c_quotes c; c_protect := c_protect c; c_unicode := v;
     c_value := c_value c; c_out := c_out c; c_records := c_records c |}.
Definition cset_value (c : control) v : control :=
  {| c_quotes := c_quotes c; c_protect := c_protect c;
     c_unicode := c_unicode c; c_value := v; c_out := c_out c;
     c_records := c_records c |}.
Definition cset_out (c : control) v : control :=
  {| c_quotes := c_quotes c; c_protect := c_protect c;
     c_unicode := c_unicode c; c_value := c_value c; c_out := v;
     c_records := c_records c |}.

(** [putvalue] begins a record when none is open. *)
Definition cput (c : control) : control :=
  {| c_quotes := c_quotes c; c_protect := c_protect c;
     c_unicode := c_unicode c; c_value := c_value c; c_out := true;
     c_records := if c_out c then c_records c else S (c_records c) |}.

(** [if (in_value) putvalue(ch)] *)
Definition cput_if (c : control) : control :=
  if negb (c_value c =? 0) then cput c else c.

(** What an iteration of the loop that does not leave the function does
    to these variables. *)
Definition cstep (cfg : config) (c : control) (ch : byte) : control :=
  if c_quotes c then
    if negb (c_protect c) && (ch =? 34) then cput_if (cset_quotes c false)
    else if c_protect c && (ch =? chr "u") then
      cset_protect (cset_unicode c 1) false
    else if negb (c_unicode c =? 0) then
      cset_unicode c (if c_unicode c =? 4 then 0 else c_unicode c + 1)
    else if negb (c_protect c) && (ch =? chr "\") then cset_protect c true
    else
      let newline := c_protect c && (multiline cfg && (ch =? chr "n")) in
      let c1 := if c_protect c && negb newline then cput_if c else c in
      let ch1 := if newline then NL else ch in
      let c2 := cset_protect c1 false in
      if negb (c_value c2 =? 0) && negb (multiprefix cfg && (ch1 =? NL))
      then cput c2 else c2
  else
    if (ch =? chr " ") || (ch =? 9) || (ch =? 13) then c
    else if ch =? NL then c
    else if ch =? chr "{" then cset_value c 0
    else if ch =? chr "[" then cset_value c 2
    else if ch =? chr ":" then cset_value c 1
    else if ch =? chr "," then
      let c := cset_out c false in
      if c_value c <? 2 then cset_value c 0 else c
    else if (ch =? chr "}") || (ch =? chr "]") then
      cset_value (cset_out c false) 0
    else if ch =? 34 then cput_if (cset_quotes c true)
    else cput_if c.

Definition crun (cfg : config) (c : control) (bs : list byte) : control :=
  fold_left (cstep cfg) bs c.

(** ** Well-formed documents *)

Definition is_ws (c : byte) : bool :=
  (c =? chr " ") || (c =? 9) || (c =? 13) || (c =? NL).

(** A byte of a number or of [true], [false], [null]: neither white
    space nor one of the structural characters nor a quote. *)
Definition literal_char (c : byte) : bool :=
  negb (is_ws c || (c =? chr "{") || (c =? chr "[") || (c =? chr ":") ||
        (c =? chr ",") || (c =? chr "}") || (c =? chr "]") || (c =? 34)).

(** The bytes between the quotes of a string: plain bytes, a backslash
    with the byte it protects, or a backslash, [u] and four hexadecimal
    digits. *)
Inductive string_body : list byte -> Prop :=
  | body_end : string_body []
  | body_plain c r :
      (c =? 34) = false -> (c =? chr "\") = false ->
      string_body r -> string_body (c :: r)
  | body_escape c r :
      (c =? chr "u") = false ->
      string_body r -> string_body (chr "\" :: c :: r)
  | body_unicode h1 h2 h3 h4 r :
      isxdigit h1 = true -> isxdigit h2 = true ->
      isxdigit h3 = true -> isxdigit h4 = true ->
      string_body r ->
      string_body (chr "\" :: chr "u" :: h1 :: h2 :: h3 :: h4 :: r).

Inductive kind := Scalar | Container.

(** [value mixed k n bs]: the bytes [bs] are a value of kind [k] with
    [n] leaf scalars. With [mixed = false] no scalar follows a
    container directly in an array. *)
Inductive value (mixed : bool) : kind -> nat -> list byte -> Prop :=
  | value_literal t :
      t <> [] -> forallb literal_char t = true -> value mixed Scalar 1 t
  | value_string b :
      string_body b -> value mixed Scalar 1 (34 :: b ++ [34])
  | value_empty_array w :
      forallb is_ws w = true ->
      value mixed Container 0 (chr "[" :: w ++ [chr "]"])
  | value_array k n es :
      elements mixed k n es ->
      value mixed Container n (chr "[" :: es ++ [chr "]"])
  | value_empty_object w :
      forallb is_ws w = true ->
      value mixed Container 0 (chr "{" :: w ++ [chr "}"])
  | value_object n ms :
      members mixed n ms ->
      value mixed Container n (chr "{" :: ms ++ [chr "}"])
with elements (mixed : bool) : kind -> nat -> list byte -> Prop :=
  | elements_one k n w1 v w2 :
      forallb is_ws w1 = true -> value mixed k n v ->
      forallb is_ws w2 = true ->
      elements mixed k n (w1 ++ v ++ w2)
  | elements_more k1 n1 es k2 n2 w1 v w2 :
      elements mixed k1 n1 es ->
      (mixed = false -> k1 = Container -> k2 = Container) ->
      forallb is_ws w1 = true -> value mixed k2 n2 v ->
      forallb is_ws w2 = true ->
      elements mixed k2 (n1 + n2) (es ++ chr "," :: w1 ++ v ++ w2)
with members (mixed : bool) : nat -> list byte -> Prop :=
  | members_one k n w1 key w2 w3 v w4 :
      forallb is_ws w1 = true -> string_body key ->
      forallb is_ws w2 = true -> forallb is_ws w3 = true ->
      value mixed k n v -> forallb is_ws w4 = true ->
      members mixed n
        (w1 ++ 34 :: key ++ 34 :: w2 ++ chr ":" :: w3 ++ v ++ w4)
  | members_more n1 ms k n2 w1 key w2 w3 v w4 :
      members mixed n1 ms ->
      forallb is_ws w1 = true -> string_body key ->
      forallb is_ws w2 = true -> forallb is_ws w3 = true ->
      value mixed k n2 v -> forallb is_ws w4 = true ->
      members mixed (n1 + n2)
        (ms ++ chr "," :: w1 ++ 34 :: key ++ 34 :: w2 ++ chr ":" :: w3
            ++ v ++ w4).

Scheme value_mut := Minimality for value Sort Prop
  with elements_mut := Minimality for elements Sort Prop
  with members_mut := Minimality for members Sort Prop.

Combined Scheme grammar_mut from value_mut, elements_mut, members_mut.

(** A document: an object or an array, with white space around it. *)
Definition document_with (mixed : bool) (n : nat) (bs : list byte) : Prop :=
  exists w1 v w2,
    forallb is_ws w1 = true /\ value mixed Container n v /\
    forallb is_ws w2 = true /\ bs = w1 ++ v ++ w2.

(** The control outside strings, and inside one. *)
Definition at_rest (v : Z) (o : bool) (r : nat) : control :=
  {| c_quotes := false; c_protect := false; c_unicode := 0;
     c_value := v; c_out := o; c_records := r |}.

Definition in_string (v : Z) (o : bool) (r : nat) : control :=
  {| c_quotes := true; c_protect := false; c_unicode := 0;
     c_value := v; c_out := o; c_records := r |}.

(** The value context and the open record that a value of kind [k]
    leaves behind. *)
Definition kind_value (k : kind) (v : Z) : Z :=
  match k with Scalar => v | Container => 0 end.

Definition kind_out (k : kind) : bool :=
  match k with Scalar => true | Container => false end.

(** The two variables of the unicode escape, and the bound that ties
    them: after [k] digits the code unit is below [16 ^ k]. *)
Definition escape_of (s : state) : Z * Z := (in_unicode s, unicode s).

Definition unicode_bounded (s : state) : Prop :=
  0 <= in_unicode s <= 4 /\
  0 <= unicode s < 16 ^ (if in_unicode s =? 0 then 4 else in_unicode s - 1).


(** ** Notions for the further properties *)

(** What of the state is data: the two buffers, the open record, and
    everything written. The other fields steer the loop. *)
Definition data_of (s : state)
  : list byte * list byte * bool * list write * bool * option (list byte)
    * list diag :=
  (name s, path s, valueout s, outp s, slicefp s, slicef s, errs s).

(** The two accumulating buffers hold a string of at most
    [MAXBUF - 1] bytes, so that the terminator is inside the buffer. *)
Definition buffers_fit (s : state) : Prop :=
  strlen (name s) <= MAXBUF - 1 /\ strlen (path s) <= MAXBUF - 1.

(** The slice file, once created, starts with the record of a path of
    the slice set; and it is open only while a value record is. *)
Definition slice_sound (cfg : config) (s : state) : Prop :=
  (slicefp s = true -> valueout s = true) /\
  match slicef s with
  | None => slicefp s = false
  | Some c =>
      exists p rest,
        is_slice cfg p = true /\ c = p ++ bytes_of_string " = " ++ rest
  end.

(** The writes that the configuration allows: a structural line only
    without [-h] and for a path that is not empty, a continuation only
    under [-p]. *)
Definition write_allowed (cfg : config) (w : write) : bool :=
  match w with
  | Terminal p => terminals cfg && negb (bool_decide (p = []))
  | Continuation _ => multiprefix cfg
  | _ => true
  end.

(** A string without the byte [c] and without NUL. *)
Definition free_of (c : byte) (s : list byte) : bool :=
  forallb (fun b => negb (b =? c) && negb (b =? NUL)) s.

(** A byte inside a string that is neither the quote nor the
    backslash. *)
Definition plain_byte (b : byte) : bool :=
  negb (b =? 34) && negb (b =? chr "\").

(** Space, tab and carriage return. *)
Definition is_blank (c : byte) : bool :=
  (c =? chr " ") || (c =? 9) || (c =? 13).

(** The lines of file lists that name documents. *)
Definition listed (lists : list (list document)) : list document :=
  List.filter (fun d => negb (is_comment (infile d))) (concat lists).


(** The state with the slice stream put aside, and the configuration
    without [-s]. *)
Definition strip_slice (s : state) : state :=
  set_slicefp (set_slicef s None) false.

Definition strip_outcome (o : outcome) : outcome :=
  match o with
  | Done s => Done (strip_slice s)
  | Abort e s => Abort e (strip_slice s)
  end.

Definition without_slices (cfg : config) : config :=
  {| gzlevel := gzlevel cfg; unescape := unescape cfg;
     terminals := terminals cfg; gen_index := gen_index cfg;
     multiline := multiline cfg; multiprefix := multiprefix cfg;
     suffix := suffix cfg; strip := strip cfg; slice := slice cfg;
     slices := []; to_stdout := to_stdout cfg |}.

(** ** Flat documents *)

(** A scalar as it is written in a document: a literal token, or a
    string between quotes. *)
Inductive scalar :=
  | Literal (t : list byte)
  | Quoted (v : list byte).

Definition scalar_text (x : scalar) : list byte :=
  match x with
  | Literal t => t
  | Quoted v => [34] ++ v ++ [34]
  end.

(** A byte of a key that is stored as it is read. *)
Definition key_byte (b : byte) : bool :=
  plain_byte b && (0 <? b) && (b <? 256).

(** A byte of a string value that is written as it is read. *)
Definition value_byte (cfg : config) (b : byte) : bool :=
  plain_byte b && negb (multiprefix cfg && (b =? NL)).

Definition scalar_ok (cfg : config) (x : scalar) : bool :=
  match x with
  | Literal t => negb (bool_decide (t = [])) && forallb literal_char t
  | Quoted v => forallb (value_byte cfg) v
  end.

(** A key that fits [name], whose component is not empty, fits the
    path after the root, and has no slash that [find_last_slash]
    would take. *)
Definition key_ok (cfg : config) (k : list byte) : bool :=
  forallb key_byte k && (strlen k <=? MAXBUF - 1) &&
  match rendered_component cfg k with
  | Some r => negb (bool_decide (r = [])) && (strlen r + 2 <=? MAXBUF) &&
              slashes_hidden cfg r false
  | None => false
  end.

Definition member_text (m : list byte * scalar) : list byte :=
  [34] ++ fst m ++ [34; chr ":"] ++ scalar_text (snd m).

Fixpoint separated (texts : list (list byte)) : list byte :=
  match texts with
  | [] => []
  | t :: rest =>
      match rest with
      | [] => t
      | _ :: _ => t ++ [chr ","] ++ separated rest
      end
  end.

Definition flat_object (ms : list (list byte * scalar)) : list byte :=
  [chr "{"] ++ separated (map member_text ms) ++ [chr "}"].

Definition flat_array (xs : list scalar) : list byte :=
  [chr "["] ++ separated (map scalar_text xs) ++ [chr "]"].

(** The record of a scalar at the path [p]. *)
Definition record_line (p : list byte) (x : scalar) : list byte :=
  p ++ bytes_of_string " = " ++ scalar_text x ++ [NL].

Definition member_line (cfg : config) (m : list byte * scalar) : list byte :=
  record_line ([chr "/"] ++ default [] (rendered_component cfg (fst m)))
    (snd m).

(** The component of the element number [n] of an array. *)
Definition element_component (cfg : config) (n : nat) : list byte :=
  if gen_index cfg then fmt_lu (Z.of_nat n) else bytes_of_string "#".

Definition element_line (cfg : config) (n : nat) (x : scalar) : list byte :=
  record_line ([chr "/"] ++ element_component cfg n) x.

Fixpoint element_lines (cfg : config) (n : nat) (xs : list scalar)
  : list byte :=
  match xs with
  | [] => []
  | x :: rest => element_line cfg n x ++ element_lines cfg (S n) rest
  end.

(** The writes that make the record of the text [t] at the path [p],
    up to its newline. *)
Definition record_writes (p : list byte) (t : list byte) : list write :=
  match t with
  | [] => []
  | c :: t' => ValueStart p c :: map Char t'
  end.

(** A state of the loop on the first line, without escape in
    progress, slice or diagnostic. *)
Definition reading (p nm : list byte) (q : bool) (v : Z) (lc : bool) (i : Z)
    (vo : bool) (ws : list write) : state :=
  {| name := nm; path := p; in_quotes := q; in_value := v; last_comma := lc;
     protect := false; in_unicode := 0; unicode := 0; idx := i;
     valueout := vo; linenum := 1; outp := ws; slicefp := false;
     slicef := None; errs := [] |}.

(** ** Nested objects *)

(** A document made of objects, with scalars and arrays of scalars as
    leaves. *)
Inductive tree :=
  | Leaf (x : scalar)
  | Arr (xs : list scalar)
  | Node (ms : entries)
with entries :=
  | no_entry
  | entry (k : list byte) (t : tree) (rest : entries).

Fixpoint tree_text (t : tree) : list byte :=
  match t with
  | Leaf x => scalar_text x
  | Arr xs => flat_array xs
  | Node ms => [chr "{"] ++ entries_text ms ++ [chr "}"]
  end
with entries_text (ms : entries) : list byte :=
  match ms with
  | no_entry => []
  | entry k t rest =>
      [34] ++ k ++ [34; chr ":"] ++ tree_text t ++
      match rest with
      | no_entry => []
      | entry _ _ _ => [chr ","] ++ entries_text rest
      end
  end.

(** The path of the entry [k] of the container at [p]. *)
Definition child (cfg : config) (p k : list byte) : list byte :=
  p ++ [chr "/"] ++ default [] (rendered_component cfg k).

(** The structural line of a container at the path [p]. *)
Definition container_line (cfg : config) (p : list byte) : list byte :=
  if terminals cfg && negb (strlen p =? 0) then p ++ [NL] else [].

(** The records of the elements of an array at [p], from the element
    numbered [n]. *)
Fixpoint array_lines (cfg : config) (p : list byte) (n : nat)
    (xs : list scalar) : list byte :=
  match xs with
  | [] => []
  | x :: rest =>
      record_line (p ++ [chr "/"] ++ element_component cfg n) x
      ++ array_lines cfg p (S n) rest
  end.

Fixpoint tree_lines (cfg : config) (p : list byte) (t : tree) : list byte :=
  match t with
  | Leaf x => record_line p x
  | Arr xs => container_line cfg p ++ array_lines cfg p 0 xs
  | Node ms => container_line cfg p ++ entries_lines cfg p ms
  end
with entries_lines (cfg : config) (p : list byte) (ms : entries)
  : list byte :=
  match ms with
  | no_entry => []
  | entry k t rest =>
      tree_lines cfg (child cfg p k) t ++ entries_lines cfg p rest
  end.

(** A component that [path_remove] reads as an index: a number below
    [ULONG_MAX], or [#] under [-I]. *)
Definition index_like (dm : data_model) (cfg : config) (r : list byte)
  : bool :=
  if gen_index cfg then digit_string r && (decimal r <? ULONG_MAX dm)
  else bool_decide (r = [chr "#"]).

(** A key that fits [name] and, rendered, fits the path after [p],
    has no slash that [find_last_slash] would take, and closes every
    brace it opens. *)
Definition key_fits (cfg : config) (p k : list byte) : bool :=
  forallb key_byte k && (strlen k <=? MAXBUF - 1) &&
  match rendered_component cfg k with
  | Some r => negb (bool_decide (r = [])) &&
              (strlen p + strlen r + 2 <=? MAXBUF) &&
              slashes_hidden cfg r false && negb (scan_escaped cfg r false)
  | None => false
  end.

Definition is_object (t : tree) : bool :=
  match t with Node _ => true | _ => false end.

Definition is_leaf (t : tree) : bool :=
  match t with Leaf _ => true | _ => false end.

(** The documents of this form that are converted record by record:
    every key fits, the key of a member that is an object is not read
    as an index, and an array leaves room for its index component and
    has at most [ULONG_MAX] elements. *)
Fixpoint tree_ok (dm : data_model) (cfg : config) (p : list byte) (t : tree)
  : bool :=
  match t with
  | Leaf x => scalar_ok cfg x
  | Arr xs =>
      forallb (scalar_ok cfg) xs && (strlen p + 31 <=? MAXBUF) &&
      (Z.of_nat (length xs) <=? ULONG_MAX dm)
  | Node ms => entries_ok dm cfg p ms
  end
with entries_ok (dm : data_model) (cfg : config) (p : list byte)
    (ms : entries) : bool :=
  match ms with
  | no_entry => true
  | entry k t rest =>
      key_fits cfg p k &&
      negb (is_object t &&
            index_like dm cfg (default [] (rendered_component cfg k))) &&
      tree_ok dm cfg (child cfg p k) t &&
      entries_ok dm cfg p rest
  end.

(** The state after the value [t] of a member whose key is rendered
    [r] in the container at [p], and what the separator behind it
    still writes. *)
Definition after_value (dm : data_model) (t : tree) (p r : list byte)
    (ws : list write) : state :=
  if is_leaf t
  then reading (p ++ [chr "/"] ++ r) [] false 1 false (ULONG_MAX dm) true ws
  else reading p [] false 0 false (ULONG_MAX dm) false ws.

Definition closing (t : tree) : list write :=
  if is_leaf t then [Char NL] else [].

Scheme tree_entries_ind := Induction for tree Sort Prop
  with entries_tree_ind := Induction for entries Sort Prop.

Combined Scheme tree_mutual_ind from tree_entries_ind, entries_tree_ind.
(** ** The path stack: length bound and round trip *)

Section PathFacts.

Variable dm : data_model.
Variable cfg : config.

Lemma strlen_app (a b : list byte) : strlen (a ++ b) = strlen a + strlen b.
Proof. unfold strlen. rewrite length_app. lia. Qed.

Lemma strlen_nonneg (a : list byte) : 0 <= strlen a.
Proof. unfold strlen. lia. Qed.

Lemma strlen_zero (a : list byte) : strlen a = 0 -> a = [].
Proof. destruct a; [reflexivity | unfold strlen; simpl; lia]. Qed.

Lemma path_append_rendered (c p s : list byte) :
  rendered_component cfg c = Some s ->
  path_append cfg c p =
    if strlen s =? 0 then Appended p
    else if MAXBUF <? strlen p + strlen s + 2 then TooLong
    else Appended (p ++ [chr "/"] ++ s).
Proof.
  unfold rendered_component, path_append. intros ->. reflexivity.
Qed.

Lemma find_last_slash_from_app (s1 s2 : list byte) :
  forall i e q,
    find_last_slash_from cfg (s1 ++ s2) i e q =
    find_last_slash_from cfg s2 (i + length s1)%nat (scan_escaped cfg s1 e)
      (find_last_slash_from cfg s1 i e q).
Proof.
  induction s1 as [|c s1 IH]; intros i e q; simpl.
  - f_equal. lia.
  - repeat case_match; rewrite IH; f_equal; lia.
Qed.

Lemma find_last_slash_from_hidden (s : list byte) :
  forall i e q,
    slashes_hidden cfg s e = true ->
    find_last_slash_from cfg s i e q = q.
Proof.
  induction s as [|c s IH]; intros i e q H; simpl in *; [reflexivity|].
  repeat case_match; try discriminate; apply IH; assumption.
Qed.

(** The slash that [path_append] has just written is the one
    [find_last_slash] returns, when the path before it closes every
    brace it opens and the component has no slash of its own outside
    braces. *)
Lemma find_last_slash_appended (p s : list byte) :
  scan_escaped cfg p false = false ->
  slashes_hidden cfg s false = true ->
  find_last_slash cfg (p ++ [chr "/"] ++ s) = Some (length p).
Proof.
  intros Hp Hs. unfold find_last_slash.
  rewrite find_last_slash_from_app, Hp. simpl.
  destruct (unescape cfg); simpl;
    rewrite find_last_slash_from_hidden by assumption; f_equal; lia.
Qed.

Lemma hidden_no_slash (s : list byte) :
  unescape cfg = false ->
  forallb (fun c => negb (c =? chr "/")) s = true ->
  forall e, e = false -> slashes_hidden cfg s e = true.
Proof.
  intros Hu. induction s as [|c s IH]; intros H e ->; simpl in *;
    [reflexivity|].
  rewrite Hu. simpl. apply andb_true_iff in H as [Hc Hs].
  rewrite andb_true_r. destruct (c =? chr "/"); [discriminate|].
  apply IH; auto.
Qed.

Lemma scan_escaped_off (s : list byte) :
  unescape cfg = false -> scan_escaped cfg s false = false.
Proof.
  intros Hu. induction s as [|c s IH]; simpl; [reflexivity|].
  rewrite Hu. simpl. exact IH.
Qed.

End PathFacts.

Lemma hidden_braced (cfg : config) (body : list byte) :
  unescape cfg = true ->
  forallb (fun c => negb (c =? chr "}")) body = true ->
  slashes_hidden cfg ([chr "{"] ++ body ++ [chr "}"]) false = true.
Proof.
  intros Hu Hb. simpl. rewrite Hu. simpl.
  induction body as [|c body IH]; simpl in *.
  - rewrite Hu. reflexivity.
  - apply andb_true_iff in Hb as [Hc Hb]. rewrite Hu. simpl.
    destruct (c =? chr "{"); [apply IH; assumption|].
    destruct (c =? chr "}"); [discriminate|].
    rewrite andb_false_r. apply IH; assumption.
Qed.

(** C5, as the code has it: the path buffer has [MAXBUF] bytes and holds
    the terminator too, so an append succeeds exactly when the rendered
    path has at most [MAXBUF - 1 = 4095] bytes; from 4096 bytes on it is
    refused, and the refusal makes [process_json] return 1 at once with
    the diagnostic of the path length. *)
Theorem path_append_boundary (cfg : config) (c p s : list byte) :
  rendered_component cfg c = Some s ->
  s <> [] ->
  (strlen (p ++ [chr "/"] ++ s) <= MAXBUF - 1 ->
     path_append cfg c p = Appended (p ++ [chr "/"] ++ s)) /\
  (MAXBUF <= strlen (p ++ [chr "/"] ++ s) ->
     path_append cfg c p = TooLong /\
     forall st, path st = p ->
       do_path_append cfg c st
       = Abort Return1 (report (PathExceeded (linenum st)) st)).
Proof.
  intros Hr Hs. rewrite (path_append_rendered cfg c p s Hr).
  rewrite !strlen_app. change (strlen [chr "/"]) with 1.
  assert (0 < strlen s).
  { destruct s; [contradiction|]. unfold strlen. simpl. lia. }
  destruct (Z.eqb_spec (strlen s) 0); [lia|].
  split; intros Hlen.
  - destruct (Z.ltb_spec MAXBUF (strlen p + strlen s + 2)); [lia|reflexivity].
  - destruct (Z.ltb_spec MAXBUF (strlen p + strlen s + 2)); [|lia].
    split; [reflexivity|]. intros st <-. unfold do_path_append.
    rewrite (path_append_rendered cfg c (path st) s Hr).
    destruct (Z.eqb_spec (strlen s) 0); [lia|].
    destruct (Z.ltb_spec MAXBUF (strlen (path st) + strlen s + 2)); [|lia].
    reflexivity.
Qed.

(** A path of 4095 bytes is accepted, one of 4096 bytes is not. *)
Lemma path_append_boundary_witness :
  path_append default_config (bytes_of_string "abcd") (long_path 4089)
    = Appended (long_path 4089 ++ bytes_of_string "/abcd") /\
  path_append default_config (bytes_of_string "abcde") (long_path 4089)
    = TooLong.
Proof.
  split.
  - apply (path_append_boundary default_config (bytes_of_string "abcd")
             (long_path 4089) (bytes_of_string "abcd")).
    + reflexivity.
    + discriminate.
    + vm_compute. discriminate.
  - apply (path_append_boundary default_config (bytes_of_string "abcde")
             (long_path 4089) (bytes_of_string "abcde")).
    + reflexivity.
    + discriminate.
    + vm_compute. discriminate.
Defined.

(** C5 as stated fails: the rendered path would have exactly 4096 bytes
    and the append is refused. *)
Lemma path_append_4096_refused :
  strlen (long_path 4089 ++ bytes_of_string "/abcde") = 4096 /\
  path_append default_config (bytes_of_string "abcde") (long_path 4089)
    = TooLong.
Proof. split; vm_compute; reflexivity. Qed.

(** C9, as the code has it: removing right after an accepted append
    gives the path back when the component is not empty, the path
    closes every brace it opens, and the component has no slash outside
    braces. *)
Theorem path_remove_after_append (dm : data_model) (cfg : config)
    (c p s : list byte) (track : bool) (i : Z) :
  rendered_component cfg c = Some s ->
  s <> [] ->
  strlen p + strlen s + 2 <= MAXBUF ->
  scan_escaped cfg p false = false ->
  slashes_hidden cfg s false = true ->
  exists p', path_append cfg c p = Appended p' /\
             fst (path_remove dm cfg p' track i) = p.
Proof.
  intros Hr Hs Hlen Hp Hh. exists (p ++ [chr "/"] ++ s). split.
  - rewrite (path_append_rendered cfg c p s Hr).
    destruct (Z.eqb_spec (strlen s) 0) as [Hz|_];
      [apply strlen_zero in Hz; contradiction|].
    destruct (Z.ltb_spec MAXBUF (strlen p + strlen s + 2)); [lia|reflexivity].
  - unfold path_remove.
    rewrite (find_last_slash_appended cfg p s Hp Hh). simpl.
    apply take_app_length.
Qed.

(** Under [-e] the key [a_2fb] is rendered [{a/b}], and is removed whole. *)
Lemma path_remove_after_append_witness :
  exists p', path_append unescape_config (bytes_of_string "a_2fb")
               (bytes_of_string "/x") = Appended p' /\
             fst (path_remove LP64 unescape_config p' false 0)
               = bytes_of_string "/x".
Proof.
  apply (path_remove_after_append LP64 unescape_config
           (bytes_of_string "a_2fb") (bytes_of_string "/x")
           (bytes_of_string "{a/b}") false 0).
  - reflexivity.
  - discriminate.
  - vm_compute. discriminate.
  - reflexivity.
  - reflexivity.
Defined.

(** C9 as stated fails: a key with a slash is cut at that slash; an
    accepted empty key makes the removal take the component before it;
    and under [-e] a decoded closing brace ends the protection of the
    slash that follows it. *)
Lemma path_remove_splits_component :
  (path_append default_config (bytes_of_string "b/c") (bytes_of_string "/a")
     = Appended (bytes_of_string "/a/b/c") /\
   fst (path_remove LP64 default_config (bytes_of_string "/a/b/c") false 0)
     = bytes_of_string "/a/b") /\
  (path_append default_config [] (bytes_of_string "/a")
     = Appended (bytes_of_string "/a") /\
   fst (path_remove LP64 default_config (bytes_of_string "/a") false 0) = []) /\
  (path_append unescape_config (bytes_of_string "a_7db_2fc")
     (bytes_of_string "/x") = Appended (bytes_of_string "/x/{a}b/c}") /\
   fst (path_remove LP64 unescape_config (bytes_of_string "/x/{a}b/c}") false 0)
     = bytes_of_string "/x/{a}b").
Proof. repeat split; vm_compute; reflexivity. Qed.

(** ** Unicode escapes *)

(** A property of the integers below a small bound, checked on each. *)
Lemma below_cases (P : Z -> bool) (n : nat) :
  forallb P (map Z.of_nat (seq 0 n)) = true ->
  forall y, 0 <= y < Z.of_nat n -> P y = true.
Proof.
  intros H y Hy. rewrite forallb_forall in H. apply H.
  rewrite <- (Z2Nat.id y) by lia. apply in_map, in_seq. lia.
Qed.

Lemma lor_continuation (y : Z) : 0 <= y < 64 -> Z.lor 0x80 y = 128 + y.
Proof.
  intros Hy. apply Z.eqb_eq.
  apply (below_cases (fun y => Z.lor 0x80 y =? 128 + y) 64); [reflexivity|lia].
Qed.

Lemma lor_lead2 (y : Z) : 0 <= y < 32 -> Z.lor 0xC0 y = 192 + y.
Proof.
  intros Hy. apply Z.eqb_eq.
  apply (below_cases (fun y => Z.lor 0xC0 y =? 192 + y) 32); [reflexivity|lia].
Qed.

Lemma lor_lead3 (y : Z) : 0 <= y < 16 -> Z.lor 0xE0 y = 224 + y.
Proof.
  intros Hy. apply Z.eqb_eq.
  apply (below_cases (fun y => Z.lor 0xE0 y =? 224 + y) 16); [reflexivity|lia].
Qed.

Lemma land_0x3F (a : Z) : Z.land a 0x3F = a mod 64.
Proof. change 0x3F with (Z.ones 6). rewrite Z.land_ones by lia. reflexivity. Qed.

Lemma shiftr_6 (a : Z) : Z.shiftr a 6 = a / 64.
Proof. rewrite Z.shiftr_div_pow2 by lia. reflexivity. Qed.

Lemma shiftr_12 (a : Z) : Z.shiftr a 12 = a / 4096.
Proof. rewrite Z.shiftr_div_pow2 by lia. reflexivity. Qed.

(** The standard packing, in the arithmetic of the source. *)
Lemma utf8_encode_arith (u : Z) :
  0 <= u < 0x10000 ->
  utf8_encode u =
    if u <? 128 then [u]
    else if u <? 2048 then [192 + u / 64; 128 + u mod 64]
    else [224 + u / 4096; 128 + u / 64 mod 64; 128 + u mod 64].
Proof.
  intros Hu. unfold utf8_encode.
  change 0x80 with 128. change 0x800 with 2048. change 0x10000 with 65536.
  destruct (Z.ltb_spec u 128); [reflexivity|].
  rewrite !land_0x3F, !shiftr_6, ?shiftr_12.
  assert (0 <= u mod 64 < 64) by (apply Z.mod_pos_bound; lia).
  assert (0 <= u / 64 mod 64 < 64) by (apply Z.mod_pos_bound; lia).
  change (Z.lor 128) with (Z.lor 0x80).
  destruct (Z.ltb_spec u 2048).
  - rewrite lor_lead2, lor_continuation; [reflexivity|lia|].
    split; [apply Z.div_pos; lia|apply Z.div_lt_upper_bound; lia].
  - destruct (Z.ltb_spec u 65536); [|change 0x10000 with 65536 in Hu; lia].
    rewrite lor_lead3, !lor_continuation; [reflexivity|lia|lia|].
    split; [apply Z.div_pos; lia|apply Z.div_lt_upper_bound; lia].
Qed.

(** Below 0x800 the bytes appended are the UTF-8 encoding. *)
Lemma utf8_appends_below_0x800 (dm : data_model) (u : Z) :
  0 <= u < 0x800 -> utf8_appends dm u = Some (utf8_encode u).
Proof.
  intros Hu. change 0x800 with 2048 in Hu.
  rewrite utf8_encode_arith by (change 0x10000 with 65536; lia).
  unfold utf8_appends.
  destruct (Z.ltb_spec u 128); [reflexivity|].
  destruct (Z.ltb_spec u 2048); [reflexivity|lia].
Qed.

(** From 0xE000 to 0xFFFF four bytes are appended: the three of the
    UTF-8 encoding and, after the first, the second byte of the
    four-byte form. *)
Lemma utf8_appends_from_0xE000 (dm : data_model) (u : Z) :
  0xE000 <= u < 0x10000 ->
  exists b0 b1 b2,
    utf8_encode u = [b0; b1; b2] /\
    utf8_appends dm u = Some [b0; 128 + u / 4096 mod 64; b1; b2].
Proof.
  intros Hu. change 0xE000 with 57344 in Hu. change 0x10000 with 65536 in Hu.
  rewrite utf8_encode_arith by (change 0x10000 with 65536; lia).
  unfold utf8_appends.
  destruct (Z.ltb_spec u 128); [lia|].
  destruct (Z.ltb_spec u 2048); [lia|].
  assert (Hs : surrogate_test dm u = false).
  { unfold surrogate_test. destruct dm.
    - rewrite Z.mod_small by lia. apply Z.ltb_ge. lia.
    - apply Z.ltb_ge. lia. }
  rewrite Hs.
  destruct (Z.ltb_spec u 65536); [|lia].
  do 3 eexists. split; reflexivity.
Qed.

(** Where [long] has 64 bits the surrogate test is signed, and refuses
    every code unit from 0x800 up to the surrogates too. *)
Lemma utf8_appends_lp64_refuses (u : Z) :
  0x800 <= u < 0xE000 -> utf8_appends LP64 u = None.
Proof.
  intros Hu. change 0x800 with 2048 in Hu. change 0xE000 with 57344 in Hu.
  unfold utf8_appends, surrogate_test.
  destruct (Z.ltb_spec u 128); [lia|].
  destruct (Z.ltb_spec u 2048); [lia|].
  destruct (Z.ltb_spec (u - 55296) 2048); [reflexivity|lia].
Qed.

(** C4 at the escape [\uFFFD], on both data models: the UTF-8 encoding
    of U+FFFD is EF BF BD; [process_json] writes EF 8F BF BD. The
    escape [\u20AC], whose encoding is E2 82 AC, is written E2 82 82 AC
    where [long] has 32 bits and is a unicode error where it has 64.
    A quote among the four digits is not a unicode error: it closes the
    string. *)
Theorem three_byte_escape_not_utf8 :
  utf8_encode 0xFFFD = [239; 191; 189] /\
  (forall dm, utf8_appends dm 0xFFFD = Some [239; 143; 191; 189]) /\
  (forall dm, exists s,
     run dm default_config (init dm) (json "{'a':'\uFFFD'}") = Done s /\
     sink_bytes (outp s)
     = bytes_of_string "/a = " ++ [34; 239; 143; 191; 189; 34; NL]) /\
  utf8_encode 0x20AC = [226; 130; 172] /\
  utf8_appends ILP32 0x20AC = Some [226; 130; 130; 172] /\
  utf8_appends LP64 0x20AC = None /\
  (forall dm, exists s,
     run dm default_config (init dm) (json "{'a':'\u12'}") = Done s /\
     errs s = [] /\
     sink_bytes (outp s) = bytes_of_string "/a = " ++ [34; 34; NL]).
Proof.
  split; [reflexivity|]. split; [intros []; reflexivity|].
  split; [|split; [reflexivity|split; [reflexivity|split; [reflexivity|]]]].
  - intros []; eexists; (split; [vm_compute; reflexivity|reflexivity]).
  - intros []; eexists;
      (split; [vm_compute; reflexivity|split; reflexivity]).
Qed.

(** One or two bytes fit the local buffer of the escape. *)
Lemma value_buffer_fits_below_0x800 (dm : data_model) (u : Z) (bs : list byte) :
  u < 0x800 -> utf8_appends dm u = Some bs ->
  Forall (fun o => o < VALUE_SIZE) (stored_offsets bs).
Proof.
  intros Hu. change 0x800 with 2048 in Hu. unfold utf8_appends.
  destruct (Z.ltb_spec u 128) as [_|_].
  - intros E. injection E as <-. cbn. unfold VALUE_SIZE.
    repeat constructor; lia.
  - destruct (Z.ltb_spec u 2048) as [_|Hge]; [|lia].
    intros E. injection E as <-. cbn. unfold VALUE_SIZE.
    repeat constructor; lia.
Qed.

(** C10 at the escape [\uFFFD] in a value: when its last digit is read
    the value context is open, four bytes are appended to
    [char value[4]], and the terminator behind the fourth is stored at
    offset 4, one past the end of the buffer. *)
Theorem value_buffer_overflow :
  forall dm, exists s bs,
    run dm default_config (init dm) (json "{'a':'\uFFF") = Done s /\
    in_quotes s = true /\ in_value s = 1 /\ in_unicode s = 4 /\
    utf8_appends dm (Z.lor (Z.shiftl (unicode s) 4) 13) = Some bs /\
    length bs = 4%nat /\
    stored_offsets bs = [0; 1; 1; 2; 2; 3; 3; 4] /\
    In VALUE_SIZE (stored_offsets bs).
Proof.
  intros []; eexists; eexists;
    (split; [vm_compute; reflexivity|]); repeat split;
    cbn; tauto.
Qed.

(** ** Slices *)

(** C7 on the document [{"a":{"b":"\u0041"}}] with the slice [/a/b]:
    the record in the output file holds the decoded byte, the slice
    file does not. *)
Theorem slice_misses_unicode_bytes :
  forall dm,
    let r := main dm slice_config [doc "x.json" "{'a':{'b':'\u0041'}}"]
               None empty_world in
    fst r = Exit 0 /\
    fs (snd r) !! "x.txt"
      = Some (bytes_of_string "/a" ++ [NL] ++
              bytes_of_string "/a/b = " ++ [34; 65; 34; NL]) /\
    fs (snd r) !! "x.txt.slice"
      = Some (bytes_of_string "/a/b = " ++ [34; 34; NL]).
Proof. intros []; vm_compute; repeat split. Qed.

(** ** The document loop *)

Section DriverFacts.

Variable dm : data_model.
Variable cfg : config.

Lemma run_app (a b : list byte) :
  forall s, run dm cfg s (a ++ b) = (s' <- run dm cfg s a ;; run dm cfg s' b).
Proof.
  induction a as [|ch a IH]; intros s; simpl; [reflexivity|].
  destruct (step dm cfg s ch); simpl; [apply IH|reflexivity].
Qed.

(** A step that leaves the function ends the run, whatever follows. *)
Lemma run_abort (pre rest : list byte) (ch : byte) (s s' : state) (e : fatal) :
  forall s0,
    run dm cfg s0 pre = Done s ->
    step dm cfg s ch = Abort e s' ->
    run dm cfg s0 (pre ++ ch :: rest) = Abort e s'.
Proof.
  intros s0 Hpre Hstep. rewrite run_app, Hpre. simpl. rewrite Hstep.
  reflexivity.
Qed.

(** Without signal the loop is [run]. *)
Lemma read_loop_no_signal (input : list byte) :
  forall s, read_loop dm cfg None s input = (run dm cfg s input, None).
Proof.
  induction input as [|ch input IH]; intros s; simpl; [reflexivity|].
  destruct (step dm cfg s ch); simpl; [apply IH|reflexivity].
Qed.

(** A signal that [k] reads of the flag do not see lets the loop take
    [k] bytes and no more. *)
Lemma read_loop_signal (input : list byte) :
  forall (k : nat) s s',
    (k <= length input)%nat ->
    run dm cfg s (take k input) = Done s' ->
    read_loop dm cfg (Some k) s input = (Done s', Some O).
Proof.
  induction input as [|ch input IH]; intros k s s' Hk Hrun.
  - destruct k; [|simpl in Hk; lia]. cbn in *.
    injection Hrun as <-. reflexivity.
  - destruct k as [|k]; cbn in *.
    + injection Hrun as <-. reflexivity.
    + destruct (step dm cfg s ch) as [s1|]; simpl in *; [|discriminate].
      apply IH; [lia|assumption].
Qed.

Lemma process_all_app (from_stdin : bool) (pre rest : list document) :
  forall sig w w1 sig1,
    converted_all dm cfg from_stdin pre sig w = Some (w1, sig1) ->
    process_all dm cfg from_stdin (pre ++ rest) sig w
    = process_all dm cfg from_stdin rest sig1 w1.
Proof.
  induction pre as [|d pre IH]; intros sig w w1 sig1 H; simpl in *.
  - congruence.
  - destruct (observed sig); [discriminate|].
    destruct (process_json dm cfg from_stdin d (tick sig) w) as [[[]]];
      try discriminate.
    apply IH. assumption.
Qed.

(** A fatal condition inside the loop makes [process_json] return 1. *)
Lemma process_json_fatal (from_stdin : bool) (d : document) (sig sig1 : signal)
    (w w' : world) input outf slf s :
  open_streams cfg from_stdin d w = inl (input, outf, slf, w') ->
  read_loop dm cfg sig (init dm) input = (Abort Return1 s, sig1) ->
  process_json dm cfg from_stdin d sig w = (Failed, flush outf slf s w', sig1).
Proof.
  intros Ho Hl. unfold process_json, convert. rewrite Ho, Hl. reflexivity.
Qed.

(** The same in the loop over a file list. *)
Lemma process_list_failure (d : document) (post : list document)
    (sig sig' : signal) (w w' : world) :
  observed sig = false ->
  is_comment (infile d) = false ->
  process_json dm cfg false d (tick sig) w = (Failed, w', sig') ->
  process_list dm cfg (d :: post) sig w = (Some (Exit 1), w', sig').
Proof. intros Ho Hc Hp. simpl. rewrite Ho, Hc, Hp. reflexivity. Qed.

End DriverFacts.

(** C1, as the code has it: the first document for which [process_json]
    returns 1 ends the run. The documents before it have been
    converted, the exit status is 1, and the world is the one that
    document left: no document after it is started. *)
Theorem first_failure_ends_run (dm : data_model) (cfg : config)
    (from_stdin : bool) (pre post : list document) (d : document)
    (sig sig1 sig2 : signal) (w w1 w2 : world) :
  converted_all dm cfg from_stdin pre sig w = Some (w1, sig1) ->
  observed sig1 = false ->
  process_json dm cfg from_stdin d (tick sig1) w1 = (Failed, w2, sig2) ->
  process_all dm cfg from_stdin (pre ++ d :: post) sig w = (Exit 1, w2).
Proof.
  intros Hpre Hobs Hd.
  rewrite (process_all_app dm cfg from_stdin pre (d :: post) sig w w1 sig1 Hpre).
  simpl. rewrite Hobs, Hd. reflexivity.
Qed.

Lemma first_failure_ends_run_witness :
  fst (process_all LP64 default_config false
         ([doc "a.json" "{'a':1}"] ++ doc "bad.json" "{'b':'\uZZZZ'}"
            :: [doc "c.json" "{'c':3}"])
         None empty_world) = Exit 1.
Proof.
  pose (r := default (empty_world, None)
               (converted_all LP64 default_config false
                  [doc "a.json" "{'a':1}"] None empty_world)).
  pose (r2 := process_json LP64 default_config false
                (doc "bad.json" "{'b':'\uZZZZ'}") (tick (snd r)) (fst r)).
  rewrite (first_failure_ends_run LP64 default_config false
             [doc "a.json" "{'a':1}"] [doc "c.json" "{'c':3}"]
             (doc "bad.json" "{'b':'\uZZZZ'}") None (snd r) (snd r2)
             empty_world (fst r) (snd (fst r2))).
  - reflexivity.
  - vm_compute. reflexivity.
  - vm_compute. reflexivity.
  - vm_compute. reflexivity.
Defined.

(** C1 as stated fails: after the malformed escape in the first
    document the run ends with status 1 and the second document, which
    converts when given alone, has no output file. *)
Lemma later_documents_not_converted :
  let bad := doc "bad.json" "{'b':'\uZZZZ'}" in
  let ok := doc "ok.json" "{'a':1}" in
  fst (main LP64 default_config [bad; ok] None empty_world) = Exit 1 /\
  fs (snd (main LP64 default_config [bad; ok] None empty_world)) !! "ok.txt"
    = None /\
  fs (snd (main LP64 default_config [ok] None empty_world)) !! "ok.txt"
    = Some (bytes_of_string "/a = 1" ++ [NL]).
Proof. vm_compute. repeat split. Qed.

(** ** The diagnostics of a document that is still being read *)


Create Rewrite HintDb quiet.

Section Quiet.

Variable dm : data_model.
Variable cfg : config.

Ltac frame :=
  intros;
  unfold quiet, putvalue, end_value, terminal_line, name_append,
    do_path_remove, clear_name, emit, write_slice, start_slice, stop_slice,
    report;
  repeat case_match; cbn;
  rewrite ?forallb_app; cbn; rewrite ?andb_true_r; try reflexivity.

Lemma quiet_emit w s : quiet (emit w s) = quiet s.
Proof. frame. Qed.
Lemma quiet_putvalue ch s : quiet (putvalue cfg ch s) = quiet s.
Proof. frame. Qed.
Lemma quiet_end_value s : quiet (end_value s) = quiet s.
Proof. frame. Qed.
Lemma quiet_name_append ch s : quiet (name_append ch s) = quiet s.
Proof. frame. Qed.
Lemma quiet_do_path_remove t s : quiet (do_path_remove dm cfg t s) = quiet s.
Proof. frame. Qed.
Lemma quiet_clear_name s : quiet (clear_name s) = quiet s.
Proof. frame. Qed.
Lemma quiet_terminal_line s : quiet (terminal_line cfg s) = quiet s.
Proof. frame. Qed.
Lemma quiet_set_name s v : quiet (set_name s v) = quiet s.
Proof. reflexivity. Qed.
Lemma quiet_set_path s v : quiet (set_path s v) = quiet s.
Proof. reflexivity. Qed.
Lemma quiet_set_in_quotes s v : quiet (set_in_quotes s v) = quiet s.
Proof. reflexivity. Qed.
Lemma quiet_set_in_value s v : quiet (set_in_value s v) = quiet s.
Proof. reflexivity. Qed.
Lemma quiet_set_last_comma s v : quiet (set_last_comma s v) = quiet s.
Proof. reflexivity. Qed.
Lemma quiet_set_protect s v : quiet (set_protect s v) = quiet s.
Proof. reflexivity. Qed.
Lemma quiet_set_in_unicode s v : quiet (set_in_unicode s v) = quiet s.
Proof. reflexivity. Qed.
Lemma quiet_set_unicode s v : quiet (set_unicode s v) = quiet s.
Proof. reflexivity. Qed.
Lemma quiet_set_idx s v : quiet (set_idx s v) = quiet s.
Proof. reflexivity. Qed.
Lemma quiet_set_linenum s v : quiet (set_linenum s v) = quiet s.
Proof. reflexivity. Qed.

Lemma quiet_names bs : forall s,
  quiet (fold_left (fun s b => name_append b s) bs s) = quiet s.
Proof.
  induction bs as [|b bs IH]; intros s; simpl; [reflexivity|].
  rewrite IH. apply quiet_name_append.
Qed.

Lemma quiet_do_path_append c s s' :
  do_path_append cfg c s = Done s' -> quiet s' = quiet s.
Proof.
  unfold do_path_append. destruct (path_append cfg c (path s));
    intros H; inversion H. reflexivity.
Qed.

Hint Rewrite quiet_emit quiet_putvalue quiet_end_value quiet_name_append
  quiet_do_path_remove quiet_clear_name quiet_terminal_line quiet_set_name
  quiet_set_path quiet_set_in_quotes quiet_set_in_value quiet_set_last_comma
  quiet_set_protect quiet_set_in_unicode quiet_set_unicode quiet_set_idx
  quiet_set_linenum quiet_names : quiet.

Ltac quiet_done H :=
  first
    [ discriminate H
    | injection H as <-; repeat case_match; autorewrite with quiet;
      reflexivity
    | apply quiet_do_path_append in H; rewrite H; repeat case_match;
      autorewrite with quiet; reflexivity ].

Lemma quiet_next_item s s' :
  next_item dm cfg s = Done s' -> quiet s' = quiet s.
Proof.
  unfold next_item. cbv zeta. intros H.
  destruct (in_value s =? 1); [quiet_done H|].
  destruct (idx s <? ULONG_MAX dm); [|quiet_done H].
  destruct (gen_index cfg); quiet_done H.
Qed.

Lemma quiet_on_comma s s' :
  on_comma dm cfg s = Done s' -> quiet s' = quiet s.
Proof.
  unfold on_comma. cbv zeta. intros H.
  destruct (next_item dm cfg _) as [s1|] eqn:E; cbn [bind] in H;
    [|discriminate].
  apply quiet_next_item in E. injection H as <-.
  repeat case_match; autorewrite with quiet; rewrite E;
    repeat case_match; autorewrite with quiet; reflexivity.
Qed.

Lemma quiet_outside s ch s' :
  outside dm cfg s ch = Done s' -> quiet s' = quiet s.
Proof.
  unfold outside, on_begin_object, on_begin_array, on_colon, on_end,
    on_quote, on_other. cbv zeta. intros H.
  destruct ((ch =? chr " ") || (ch =? 9) || (ch =? 13)); [quiet_done H|].
  destruct (ch =? NL); [quiet_done H|].
  destruct (ch =? chr "{"); [quiet_done H|].
  destruct (ch =? chr "[").
  { destruct (last_comma _); quiet_done H. }
  destruct (ch =? chr ":").
  { destruct (do_path_append cfg _ _) as [s1|] eqn:E; cbn [bind] in H;
      [|discriminate].
    apply quiet_do_path_append in E. injection H as <-.
    autorewrite with quiet. rewrite E. autorewrite with quiet. reflexivity. }
  destruct (ch =? chr ","); [apply quiet_on_comma; assumption|].
  destruct ((ch =? chr "}") || (ch =? chr "]")); [quiet_done H|].
  destruct (ch =? 34); quiet_done H.
Qed.

Lemma quiet_unicode_digit s ch s' :
  unicode_digit dm s ch = Done s' -> quiet s' = quiet s.
Proof.
  unfold unicode_digit, unicode_error. cbv zeta. intros H.
  repeat case_match; quiet_done H.
Qed.

Lemma quiet_on_char s ch s' :
  on_char cfg s ch = Done s' -> quiet s' = quiet s.
Proof.
  unfold on_char. intros H. repeat case_match; simplify_eq;
    repeat case_match; autorewrite with quiet; reflexivity.
Qed.

Lemma quiet_inside s ch s' :
  inside dm cfg s ch = Done s' -> quiet s' = quiet s.
Proof.
  unfold inside. cbv zeta. intros H.
  destruct (negb (protect s) && (ch =? 34)); [quiet_done H|].
  destruct (protect s && (ch =? chr "u")); [quiet_done H|].
  destruct (negb (in_unicode s =? 0)).
  { eapply quiet_unicode_digit; eassumption. }
  destruct (negb (protect s) && (ch =? chr "\")); [quiet_done H|].
  eapply quiet_on_char; eassumption.
Qed.

Lemma quiet_step s ch s' :
  step dm cfg s ch = Done s' -> quiet s' = quiet s.
Proof.
  unfold step. destruct (in_quotes s); [apply quiet_inside|].
  destruct (outside dm cfg s ch) eqn:E; cbn [bind]; [|discriminate].
  intros H. injection H as <-. autorewrite with quiet.
  eapply quiet_outside; eassumption.
Qed.

Lemma quiet_run input : forall s s',
  run dm cfg s input = Done s' -> quiet s' = quiet s.
Proof.
  induction input as [|ch input IH]; intros s s' H; simpl in H.
  - injection H as <-. reflexivity.
  - destruct (step dm cfg s ch) eqn:E; cbn [bind] in H; [|discriminate].
    rewrite (IH _ _ H). eapply quiet_step; eassumption.
Qed.

Lemma putvalue_frame ch s :
  in_quotes (putvalue cfg ch s) = in_quotes s /\
  protect (putvalue cfg ch s) = protect s /\
  in_unicode (putvalue cfg ch s) = in_unicode s /\
  in_value (putvalue cfg ch s) = in_value s /\
  errs (putvalue cfg ch s) = errs s /\
  path (putvalue cfg ch s) = path s /\
  name (putvalue cfg ch s) = name s /\
  idx (putvalue cfg ch s) = idx s /\
  valueout (putvalue cfg ch s) = true.
Proof.
  unfold putvalue, emit, write_slice, start_slice.
  repeat case_match; cbn; repeat split; assumption.
Qed.

(** Bytes of a string value are written one by one; no length is kept
    and none is checked. *)
Lemma value_bytes_unbounded (n : nat) : forall s,
  in_quotes s = true -> protect s = false -> in_unicode s = 0 ->
  in_value s <> 0 ->
  exists s', run dm cfg s (repeat (chr "x") n) = Done s' /\
             in_quotes s' = true /\ errs s' = errs s.
Proof.
  induction n as [|n IH]; intros s Hq Hp Hu Hv; simpl.
  - exists s. auto.
  - assert (Hs : step dm cfg s (chr "x")
                 = Done (putvalue cfg (chr "x") (set_protect s false))).
    { unfold step, inside, on_char. rewrite Hq, Hp, Hu. cbn.
      destruct (Z.eqb_spec (in_value s) 0); [contradiction|]. cbn.
      rewrite andb_false_r. reflexivity. }
    rewrite Hs. cbn [bind].
    destruct (putvalue_frame (chr "x") (set_protect s false))
      as (F1 & F2 & F3 & F4 & F5 & _).
    destruct (IH (putvalue cfg (chr "x") (set_protect s false)))
      as (s' & Hr & Hq' & He).
    + rewrite F1. exact Hq.
    + rewrite F2. reflexivity.
    + rewrite F3. exact Hu.
    + rewrite F4. exact Hv.
    + exists s'. repeat split; [assumption|assumption|].
      rewrite He, F5. reflexivity.
Qed.

End Quiet.

(** What [process_json] returns when no signal arrives. *)
Lemma process_json_run (dm : data_model) (cfg : config) (from_stdin : bool)
    (d : document) (w w' : world) input outf slf :
  open_streams cfg from_stdin d w = inl (input, outf, slf, w') ->
  process_json dm cfg from_stdin d None w =
    match run dm cfg (init dm) input with
    | Done s => (Succeeded, flush outf slf s w', None)
    | Abort Return1 s => (Failed, flush outf slf s w', None)
    | Abort NullDeref s => (Crashed, flush outf slf s w', None)
    end.
Proof.
  intros Ho. unfold process_json, convert.
  rewrite Ho, read_loop_no_signal.
  destruct (run dm cfg (init dm) input) as [s|[] s]; try reflexivity.
  destruct outf; reflexivity.
Qed.

(** C6, as the code has it. A refused [path_append] is fatal: the step
    leaves the function with 1, nothing of the input is read after it,
    and [process_json] returns 1; so a document that is still being
    read has reported nothing but overflows of [str_append]. The bytes
    of a value are written as they come and are not counted. *)
Theorem path_overflow_ends_document (dm : data_model) (cfg : config) :
  (forall s comp,
     path_append cfg comp (path s) = TooLong ->
     do_path_append cfg comp s
     = Abort Return1 (report (PathExceeded (linenum s)) s)) /\
  (forall pre ch rest s e s',
     run dm cfg (init dm) pre = Done s ->
     step dm cfg s ch = Abort e s' ->
     run dm cfg (init dm) (pre ++ ch :: rest) = Abort e s') /\
  (forall from_stdin d w w' input outf slf s,
     open_streams cfg from_stdin d w = inl (input, outf, slf, w') ->
     run dm cfg (init dm) input = Abort Return1 s ->
     process_json dm cfg from_stdin d None w
     = (Failed, flush outf slf s w', None)) /\
  (forall input s,
     run dm cfg (init dm) input = Done s ->
     forallb string_diag (errs s) = true) /\
  (forall n s,
     in_quotes s = true -> protect s = false -> in_unicode s = 0 ->
     in_value s <> 0 ->
     exists s', run dm cfg s (repeat (chr "x") n) = Done s' /\
                in_quotes s' = true /\ errs s' = errs s).
Proof.
  split; [|split; [|split; [|split]]].
  - intros s comp H. unfold do_path_append. rewrite H. reflexivity.
  - intros pre ch rest s e s' Hpre Hstep.
    eapply run_abort; eassumption.
  - intros from_stdin d w w' input outf slf s Ho Hr.
    rewrite (process_json_run dm cfg from_stdin d w w' input outf slf Ho), Hr.
    reflexivity.
  - intros input s H. apply quiet_run in H. exact H.
  - intros n s. apply value_bytes_unbounded.
Qed.

(** A key of 4095 bytes cannot be appended to the empty path: the colon
    ends the run, and the value behind it is not read. *)
Lemma path_overflow_ends_document_witness :
  let pre := json "{'" ++ repeat (chr "x") 4095 ++ json "'" in
  completed (run LP64 default_config (init LP64)
               (pre ++ chr ":" :: json "1}")) = false /\
  outp (final (run LP64 default_config (init LP64)
                 (pre ++ chr ":" :: json "1}"))) = [].
Proof.
  intros pre.
  pose (s := final (run LP64 default_config (init LP64) pre)).
  pose (s' := final (step LP64 default_config s (chr ":"))).
  rewrite (proj1 (proj2 (path_overflow_ends_document LP64 default_config))
             pre (chr ":") (json "1}") s Return1 s').
  - split; [reflexivity|vm_compute; reflexivity].
  - vm_compute. reflexivity.
  - vm_compute. reflexivity.
Defined.

(** C6 as stated fails. The key [\u0000xxx...] fills the name buffer:
    [str_append] reports the overflow at the last [x], and the rest of
    the document is read and converted. A value of 4200 bytes is
    written without any diagnostic. *)
Lemma token_overflow_not_always_fatal :
  let key := json "{'\u0000" ++ repeat (chr "x") 4095 in
  let long := json "{'a':'" ++ repeat (chr "x") 4200 ++ json "'}" in
  errs (final (run LP64 default_config (init LP64) key))
    = [StringExceeded 1] /\
  completed (run LP64 default_config (init LP64) (key ++ json "':1}"))
    = true /\
  sink_bytes (outp (final (run LP64 default_config (init LP64)
                             (key ++ json "':1}"))))
    = bytes_of_string " = 1" ++ [NL] /\
  completed (run LP64 default_config (init LP64) long) = true /\
  errs (final (run LP64 default_config (init LP64) long)) = [] /\
  strlen (sink_bytes (outp (final (run LP64 default_config (init LP64) long))))
    = 4208.
Proof. vm_compute. repeat split. Qed.

(** ** Interruption *)

Section Interrupt.

Variable dm : data_model.
Variable cfg : config.

(** With the flag set the loop reads no byte. *)
Lemma read_loop_terminated (s : state) (input : list byte) :
  read_loop dm cfg (Some O) s input = (Done s, Some O).
Proof. destruct input; reflexivity. Qed.

(** With the flag set no document is started. *)
Lemma process_all_terminated (from_stdin : bool) (docs : list document)
    (w : world) :
  process_all dm cfg from_stdin docs (Some O) w = (Exit 0, w).
Proof. destruct docs; reflexivity. Qed.

Lemma process_list_terminated (lines : list document) (w : world) :
  process_list dm cfg lines (Some O) w = (None, w, Some O).
Proof. destruct lines; reflexivity. Qed.

(** Opening the streams of a document that goes to a file creates that
    file and touches no other. *)
Lemma open_streams_file (from_stdin : bool) (d : document) (w w' : world)
    input o slf :
  open_streams cfg from_stdin d w = inl (input, Some o, slf, w') ->
  w' = create o w.
Proof.
  unfold open_streams. intros H.
  repeat case_match; simplify_eq; reflexivity.
Qed.

(** What is left of the files when the output file of a document is
    removed after its streams are closed. *)
Lemma unlink_flush_lookup (o : string) (slf : option string) (s : state)
    (w : world) :
  fs (unlink o (flush (Some o) slf s (create o w))) !! o = None /\
  (forall f, f <> o -> Some f <> slf ->
     fs (unlink o (flush (Some o) slf s (create o w))) !! f = fs w !! f) /\
  stdout (unlink o (flush (Some o) slf s (create o w))) = stdout w.
Proof.
  unfold unlink, flush, create. cbn. split; [|split].
  - apply lookup_delete_eq.
  - intros f Hf Hs. rewrite lookup_delete_ne by congruence.
    destruct slf as [f'|]; [destruct (slicef s)|].
    + rewrite lookup_insert_ne by congruence.
      rewrite !lookup_insert_ne by congruence. reflexivity.
    + rewrite !lookup_insert_ne by congruence. reflexivity.
    + rewrite !lookup_insert_ne by congruence. reflexivity.
  - reflexivity.
Qed.

End Interrupt.

(** C8. The flag is read before each byte and before each document:
    once it is set the loop takes no byte and no document is started.
    When the signal is seen in the loop of a document [d] that writes
    to a file, after the documents [pre] were converted and [k] bytes
    of [d] were read, [main] ends with the world that [d] left and its
    output file removed: that file does not exist, every other file but
    the slice file of [d] is as the documents before [d] left it, and
    no document of [post] is started. *)
Theorem cancellation_mid_document (dm : data_model) (cfg : config)
    (from_stdin : bool) (pre post : list document) (d : document)
    (sig : signal) (w w1 w1' : world) (k : nat) (input : list byte)
    (o : string) (slf : option string) (s : state) :
  converted_all dm cfg from_stdin pre sig w = Some (w1, Some (S k)) ->
  open_streams cfg from_stdin d w1 = inl (input, Some o, slf, w1') ->
  (k <= length input)%nat ->
  run dm cfg (init dm) (take k input) = Done s ->
  (forall s0 rest, read_loop dm cfg (Some O) s0 rest = (Done s0, Some O)) /\
  (forall docs w0, process_all dm cfg from_stdin docs (Some O) w0 = (Exit 0, w0)) /\
  read_loop dm cfg (Some k) (init dm) input = (Done s, Some O) /\
  process_all dm cfg from_stdin (pre ++ d :: post) sig w
    = (Exit 0, unlink o (flush (Some o) slf s w1')) /\
  fs (unlink o (flush (Some o) slf s w1')) !! o = None /\
  (forall f, f <> o -> Some f <> slf ->
     fs (unlink o (flush (Some o) slf s w1')) !! f = fs w1 !! f).
Proof.
  intros Hpre Hopen Hk Hrun.
  pose proof (read_loop_signal dm cfg input k (init dm) s Hk Hrun) as Hloop.
  pose proof (open_streams_file cfg from_stdin d w1 w1' input o slf Hopen) as Hw.
  destruct (unlink_flush_lookup o slf s w1) as (Hgone & Hkept & _).
  split; [apply read_loop_terminated|].
  split; [apply process_all_terminated|].
  split; [exact Hloop|].
  split; [|split].
  - rewrite (process_all_app dm cfg from_stdin pre (d :: post) sig w w1
               (Some (S k)) Hpre).
    cbn [process_all observed tick]. unfold process_json, convert.
    rewrite Hopen, Hloop. cbn [observed tick].
    apply process_all_terminated.
  - rewrite Hw. exact Hgone.
  - rewrite Hw. exact Hkept.
Qed.

(** The signal arrives while the second of three documents is read,
    two bytes into it. *)
Lemma cancellation_mid_document_witness :
  let docs := [doc "a.json" "{'a':1}"] ++ doc "b.json" "{'b':2}"
                :: [doc "c.json" "{'c':3}"] in
  let r := process_all LP64 default_config false docs (Some 13%nat)
             empty_world in
  fst r = Exit 0 /\
  fs (snd r) !! "a.txt" = Some (bytes_of_string "/a = 1" ++ [NL]) /\
  fs (snd r) !! "b.txt" = None /\
  fs (snd r) !! "c.txt" = None.
Proof.
  intros docs r.
  pose (r1 := default (empty_world, None)
                (converted_all LP64 default_config false
                   [doc "a.json" "{'a':1}"] (Some 13%nat) empty_world)).
  pose (s := final (run LP64 default_config (init LP64)
                      (take 2 (json "{'b':2}")))).
  destruct (cancellation_mid_document LP64 default_config false
              [doc "a.json" "{'a':1}"] [doc "c.json" "{'c':3}"]
              (doc "b.json" "{'b':2}") (Some 13%nat) empty_world (fst r1)
              (create "b.txt" (fst r1)) 2 (json "{'b':2}") "b.txt" None s)
    as (_ & _ & _ & Hall & Hgone & Hkept).
  - vm_compute. reflexivity.
  - vm_compute. reflexivity.
  - vm_compute. lia.
  - vm_compute. reflexivity.
  - subst r docs. rewrite Hall. cbn [fst snd].
    split; [reflexivity|]. split; [|split].
    + rewrite Hkept by (discriminate || congruence). vm_compute. reflexivity.
    + exact Hgone.
    + rewrite Hkept by (discriminate || congruence). vm_compute. reflexivity.
Defined.

(** ** The index counter at closing brackets *)

Section Index.

Variable dm : data_model.
Variable cfg : config.

Lemma strtoul_digits_all (s : list byte) : forall acc,
  forallb isdigit s = true ->
  strtoul_digits s acc = (fold_left (fun a c => 10 * a + (c - 48)) s acc, []).
Proof.
  induction s as [|c s IH]; intros acc H; simpl in *; [reflexivity|].
  apply andb_true_iff in H as [Hc Hs]. rewrite Hc. apply IH. exact Hs.
Qed.

Lemma strtoul_digits_rest (s : list byte) : forall acc,
  forallb isdigit s = false -> snd (strtoul_digits s acc) <> [].
Proof.
  induction s as [|c s IH]; intros acc H; simpl in *; [discriminate|].
  destruct (isdigit c); simpl in *; [apply IH; exact H|discriminate].
Qed.

(** The counter that [path_remove] stores when it removes [comp]. *)
Lemma path_remove_idx (p : list byte) (k : nat) (i : Z) :
  find_last_slash cfg p = Some k ->
  path_remove dm cfg p true i =
    (take k p,
     let comp := drop (S k) p in
     if gen_index cfg then
       if digit_string comp && (decimal comp <? ULONG_MAX dm)
       then decimal comp else ULONG_MAX dm
     else if bool_decide (comp = [chr "#"]) then 1 else i).
Proof.
  intros Hk. unfold path_remove. rewrite Hk. cbv zeta. f_equal.
  destruct (gen_index cfg); [|reflexivity].
  destruct (drop (S k) p) as [|c comp] eqn:Hc; [reflexivity|].
  unfold digit_string. cbn [forallb].
  rewrite bool_decide_eq_false_2 by discriminate. cbn [negb andb].
  destruct (isdigit c) eqn:Hd; [|reflexivity].
  unfold strtoul. cbn [strtoul_digits]. rewrite Hd. cbn [andb].
  destruct (forallb isdigit comp) eqn:Hall.
  - rewrite strtoul_digits_all by exact Hall.
    unfold decimal. cbn [fold_left].
    rewrite bool_decide_eq_true_2 by reflexivity. rewrite andb_true_r.
    cbn [andb].
    generalize (fold_left (fun a c0 : Z => 10 * a + (c0 - 48)) comp
                  (10 * 0 + (c - 48))).
    intros n.
    destruct (Z.ltb_spec n (ULONG_MAX dm)).
    + rewrite Z.min_l by lia.
      destruct (Z.eqb_spec n (ULONG_MAX dm)); [lia|reflexivity].
    + rewrite Z.min_r by lia. rewrite Z.eqb_refl. reflexivity.
  - pose proof (strtoul_digits_rest comp (10 * 0 + (c - 48)) Hall) as Hq.
    destruct (strtoul_digits comp (10 * 0 + (c - 48))) as [n q].
    cbn [snd] in Hq. rewrite (bool_decide_eq_false_2 _ Hq).
    rewrite andb_false_r. reflexivity.
Qed.

Lemma path_remove_untracked (p : list byte) (k : nat) (i : Z) :
  find_last_slash cfg p = Some k ->
  path_remove dm cfg p false i = (take k p, i).
Proof. intros Hk. unfold path_remove. rewrite Hk. reflexivity. Qed.

Lemma end_value_frame (s : state) :
  path (end_value s) = path s /\ in_value (end_value s) = in_value s /\
  idx (end_value s) = idx s /\ in_quotes (end_value s) = in_quotes s /\
  valueout (end_value s) = false.
Proof.
  unfold end_value, stop_slice, emit.
  repeat case_match; cbn; repeat split; try reflexivity.
  destruct (valueout s); [discriminate|reflexivity].
Qed.

Lemma do_path_remove_frame (t : bool) (s : state) :
  path (do_path_remove dm cfg t s) = fst (path_remove dm cfg (path s) t (idx s)) /\
  idx (do_path_remove dm cfg t s) = snd (path_remove dm cfg (path s) t (idx s)) /\
  in_value (do_path_remove dm cfg t s) = in_value s /\
  valueout (do_path_remove dm cfg t s) = valueout s /\
  in_quotes (do_path_remove dm cfg t s) = in_quotes s.
Proof.
  unfold do_path_remove. destruct (path_remove dm cfg (path s) t (idx s)).
  cbn. repeat split.
Qed.

(** The first removal at a closing bracket leaves the counter alone. *)
Lemma path_remove_false_idx (p : list byte) (i : Z) :
  snd (path_remove dm cfg p false i) = i.
Proof. unfold path_remove. destruct (find_last_slash cfg p); reflexivity. Qed.

End Index.

Section Closing.

Variable dm : data_model.
Variable cfg : config.

(** A comma after a closed container, with a live counter, appends the
    next index. *)
Lemma step_comma_resumes (s : state) (p' : list byte) :
  in_quotes s = false -> valueout s = false -> in_value s = 0 ->
  idx s < ULONG_MAX dm ->
  path_append cfg (index_component cfg (idx s)) (path s) = Appended p' ->
  exists s2, step dm cfg s (chr ",") = Done s2 /\ path s2 = p' /\
             idx s2 = ULONG_MAX dm /\ in_value s2 = 0.
Proof.
  intros Hq Hv Hiv Hi Hp.
  unfold step. rewrite Hq. unfold outside. cbn [chr]. cbn -[on_comma].
  unfold on_comma, end_value. rewrite Hv. cbv zeta. rewrite Hiv.
  cbn [Z.eqb]. unfold next_item. rewrite Hiv. cbn [Z.eqb].
  destruct (Z.ltb_spec (idx s) (ULONG_MAX dm)); [|lia].
  unfold index_component in Hp. unfold do_path_append.
  destruct (gen_index cfg); cbn [path idx set_idx]; rewrite Hp;
    cbn; (eexists; split; [reflexivity|]); cbn; rewrite ?Hiv;
    repeat split; reflexivity.
Qed.

Lemma on_end_fields (ch : byte) (s : state) (k : nat) :
  find_last_slash cfg (closing_path dm cfg s) = Some k ->
  exists s1, on_end dm cfg ch s = Done s1 /\
    path s1 = take k (closing_path dm cfg s) /\
    in_value s1 = 0 /\ valueout s1 = false /\ in_quotes s1 = in_quotes s /\
    idx s1 =
      if ch =? chr "]" then ULONG_MAX dm
      else snd (path_remove dm cfg (closing_path dm cfg s) true (idx s)).
Proof.
  intros Hk. unfold on_end. cbv zeta. eexists. split; [reflexivity|].
  destruct (end_value_frame s) as (Ep & Ev & Ei & Eq & Eo).
  set (s1 := end_value s) in *.
  set (s2 := if negb (in_value s1 =? 0) then do_path_remove dm cfg false s1
             else s1).
  assert (H2 : path s2 = closing_path dm cfg s /\ idx s2 = idx s /\
               valueout s2 = false /\ in_quotes s2 = in_quotes s).
  { unfold s2, closing_path. rewrite Ev.
    destruct (in_value s =? 0); cbn [negb].
    - rewrite Ep, Ei, Eo, Eq. auto.
    - destruct (do_path_remove_frame dm cfg false s1) as (F1 & F2 & _ & F4 & F5).
      rewrite F1, F2, F4, F5, Ep, Ei, Eo, Eq, path_remove_false_idx. auto. }
  destruct H2 as (P2 & I2 & V2 & Q2).
  destruct (do_path_remove_frame dm cfg (negb (ch =? chr "]")) s2)
    as (F1 & F2 & _ & F4 & F5).
  rewrite P2, I2 in F1, F2. rewrite V2 in F4. rewrite Q2 in F5.
  destruct (ch =? chr "]"); cbn [negb] in *; cbn;
    rewrite F1, F4, F5;
    [rewrite (path_remove_untracked dm cfg _ k _ Hk)
    |rewrite F2, (path_remove_idx dm cfg _ k _ Hk)]; cbn; auto.
Qed.

End Closing.

(** C3, as the code has it. A closing brace removes the component of
    the container (after that of a pending value). In numeric mode the
    counter takes the value of the removed component when it is a
    string of digits whose value is below [ULONG_MAX], and the
    indeterminate [ULONG_MAX] otherwise; in placeholder mode it becomes
    1 when the component is [#]. A comma that follows with a live
    counter appends the next index. A closing bracket removes the
    component in the same way and leaves the counter indeterminate. *)
Theorem sibling_index_inheritance (dm : data_model) (cfg : config)
    (s : state) (k : nat) :
  in_quotes s = false ->
  find_last_slash cfg (closing_path dm cfg s) = Some k ->
  let comp := drop (S k) (closing_path dm cfg s) in
  (exists s1,
     step dm cfg s (chr "}") = Done s1 /\
     path s1 = take k (closing_path dm cfg s) /\
     idx s1 =
       (if gen_index cfg then
          if digit_string comp && (decimal comp <? ULONG_MAX dm)
          then decimal comp else ULONG_MAX dm
        else if bool_decide (comp = [chr "#"]) then 1 else idx s) /\
     (idx s1 < ULONG_MAX dm ->
      forall p',
        path_append cfg (index_component cfg (idx s1)) (path s1) = Appended p' ->
        exists s2, step dm cfg s1 (chr ",") = Done s2 /\ path s2 = p' /\
                   idx s2 = ULONG_MAX dm)) /\
  (exists s3,
     step dm cfg s (chr "]") = Done s3 /\
     path s3 = take k (closing_path dm cfg s) /\
     idx s3 = ULONG_MAX dm).
Proof.
  intros Hq Hk comp. split.
  - destruct (on_end_fields dm cfg (chr "}") s k Hk)
      as (s1 & H1 & P1 & V1 & O1 & Q1 & I1).
    exists (set_last_comma s1 false). split; [|split; [|split]].
    + unfold step. rewrite Hq. unfold outside. cbn -[on_end].
      rewrite H1. reflexivity.
    + exact P1.
    + cbn. rewrite I1. cbn.
      rewrite (path_remove_idx dm cfg _ k _ Hk). reflexivity.
    + intros Hi p' Hp.
      destruct (step_comma_resumes dm cfg (set_last_comma s1 false) p')
        as (s2 & H2 & P2 & I2 & _); cbn; try assumption.
      * congruence.
      * exists s2. auto.
  - destruct (on_end_fields dm cfg (chr "]") s k Hk)
      as (s3 & H3 & P3 & V3 & O3 & Q3 & I3).
    exists (set_last_comma s3 false). split; [|split].
    + unfold step. rewrite Hq. unfold outside. cbn -[on_end].
      rewrite H3. reflexivity.
    + exact P3.
    + exact I3.
Qed.

(** After [[{"a":1] the closing brace removes [a] and then [0], and the
    counter is 0 again. *)
Lemma sibling_index_inheritance_witness :
  exists s1,
    step LP64 default_config
      (final (run LP64 default_config (init LP64) (json "[{'a':1")))
      (chr "}") = Done s1 /\
    path s1 = [] /\ idx s1 = 0.
Proof.
  destruct (sibling_index_inheritance LP64 default_config
              (final (run LP64 default_config (init LP64) (json "[{'a':1")))
              0)
    as [(s1 & H1 & P1 & I1 & _) _].
  - vm_compute. reflexivity.
  - vm_compute. reflexivity.
  - exists s1. split; [exact H1|]. split.
    + rewrite P1. reflexivity.
    + rewrite I1. vm_compute. reflexivity.
Defined.

(** C3 as stated fails: the removed component is a string of digits
    and the counter does not take its value. After the key
    [99999999999999999999] the counter is indeterminate and the comma
    appends nothing, where after the key [5] it appends [6]. *)
Lemma digit_string_not_restored :
  let s := final (run LP64 default_config (init LP64)
                    (json "[{'99999999999999999999':{")) in
  let s' := final (run ILP32 default_config (init ILP32)
                     (json "[{'99999999999999999999':{")) in
  digit_string (drop 3 (path s)) = true /\
  decimal (drop 3 (path s)) = 99999999999999999999 /\
  idx (final (step LP64 default_config s (chr "}"))) = ULONG_MAX LP64 /\
  idx (final (step ILP32 default_config s' (chr "}"))) = ULONG_MAX ILP32 /\
  path (final (run LP64 default_config (init LP64)
                 (json "[{'99999999999999999999':{},")))
    = bytes_of_string "/0" /\
  path (final (run LP64 default_config (init LP64) (json "[{'5':{},")))
    = bytes_of_string "/0/6".
Proof. vm_compute. repeat split. Qed.

(** ** The number of value records *)

Create Rewrite HintDb control.

Section Control.

Variable dm : data_model.
Variable cfg : config.

Lemma value_records_app (ws : list write) (w : write) :
  value_records (ws ++ [w])
  = if is_value_start w then S (value_records ws) else value_records ws.
Proof.
  unfold value_records. rewrite List.filter_app, length_app.
  destruct w; cbn; lia.
Qed.

Local Arguments value_records : simpl never.

Ltac ctl :=
  intros;
  unfold control_of, putvalue, end_value, terminal_line, name_append,
    do_path_remove, clear_name, emit, write_slice, start_slice, stop_slice,
    report, cput, cset_out;
  repeat case_match; cbn in *; rewrite ?value_records_app; cbn in *;
  try congruence.

Lemma control_putvalue ch s : control_of (putvalue cfg ch s) = cput (control_of s).
Proof. ctl. Qed.
Lemma control_end_value s :
  control_of (end_value s) = cset_out (control_of s) false.
Proof. ctl. Qed.
Lemma control_name_append ch s : control_of (name_append ch s) = control_of s.
Proof. ctl. Qed.
Lemma control_do_path_remove t s :
  control_of (do_path_remove dm cfg t s) = control_of s.
Proof. ctl. Qed.
Lemma control_clear_name s : control_of (clear_name s) = control_of s.
Proof. ctl. Qed.
Lemma control_terminal_line s : control_of (terminal_line cfg s) = control_of s.
Proof. ctl. Qed.
Lemma control_emit w s :
  is_value_start w = false -> control_of (emit w s) = control_of s.
Proof.
  intros H. unfold control_of, emit. cbn. rewrite value_records_app, H.
  reflexivity.
Qed.
Lemma control_set_name s v : control_of (set_name s v) = control_of s.
Proof. reflexivity. Qed.
Lemma control_set_path s v : control_of (set_path s v) = control_of s.
Proof. reflexivity. Qed.
Lemma control_set_idx s v : control_of (set_idx s v) = control_of s.
Proof. reflexivity. Qed.
Lemma control_set_linenum s v : control_of (set_linenum s v) = control_of s.
Proof. reflexivity. Qed.
Lemma control_set_unicode s v : control_of (set_unicode s v) = control_of s.
Proof. reflexivity. Qed.
Lemma control_set_last_comma s v : control_of (set_last_comma s v) = control_of s.
Proof. reflexivity. Qed.
Lemma control_set_in_quotes s v :
  control_of (set_in_quotes s v) = cset_quotes (control_of s) v.
Proof. reflexivity. Qed.
Lemma control_set_in_value s v :
  control_of (set_in_value s v) = cset_value (control_of s) v.
Proof. reflexivity. Qed.
Lemma control_set_protect s v :
  control_of (set_protect s v) = cset_protect (control_of s) v.
Proof. reflexivity. Qed.
Lemma control_set_in_unicode s v :
  control_of (set_in_unicode s v) = cset_unicode (control_of s) v.
Proof. reflexivity. Qed.

Lemma putvalue_in_value ch s : in_value (putvalue cfg ch s) = in_value s.
Proof. apply (putvalue_frame cfg ch s). Qed.

Lemma name_append_in_value ch s : in_value (name_append ch s) = in_value s.
Proof. unfold name_append, report. case_match; reflexivity. Qed.

Lemma control_names bs : forall s,
  control_of (fold_left (fun s b => name_append b s) bs s) = control_of s.
Proof.
  induction bs as [|b bs IH]; intros s; simpl; [reflexivity|].
  rewrite IH. apply control_name_append.
Qed.

Lemma control_do_path_append c s s' :
  do_path_append cfg c s = Done s' -> control_of s' = control_of s.
Proof.
  unfold do_path_append. destruct (path_append cfg c (path s));
    intros H; inversion H. reflexivity.
Qed.

Hint Rewrite control_putvalue control_end_value control_name_append
  control_do_path_remove control_clear_name control_terminal_line
  control_set_name control_set_path control_set_idx control_set_linenum
  control_set_unicode control_set_last_comma control_set_in_quotes
  control_set_in_value control_set_protect control_set_in_unicode
  control_names : control.

(** The fields of [control_of s] are those of [s]. *)
Lemma control_fields s :
  c_quotes (control_of s) = in_quotes s /\
  c_protect (control_of s) = protect s /\
  c_unicode (control_of s) = in_unicode s /\
  c_value (control_of s) = in_value s /\
  c_out (control_of s) = valueout s.
Proof. repeat split. Qed.

Lemma control_next_item s s' :
  next_item dm cfg s = Done s' -> control_of s' = control_of s.
Proof.
  unfold next_item. cbv zeta. intros H.
  repeat case_match;
    first [ injection H as <-; autorewrite with control; reflexivity
          | apply control_do_path_append in H; rewrite H;
            autorewrite with control; reflexivity ].
Qed.

Lemma control_outside s ch s' :
  in_quotes s = false ->
  outside dm cfg s ch = Done s' ->
  control_of s' = cstep cfg (control_of s) ch.
Proof.
  intros Hq. unfold cstep. cbn [c_quotes control_of]. rewrite Hq.
  unfold outside, on_begin_object, on_begin_array, on_colon, on_comma, on_end,
    on_quote, on_other. cbv zeta. intros H.
  destruct ((ch =? chr " ") || (ch =? 9) || (ch =? 13)).
  { injection H as <-. reflexivity. }
  destruct (ch =? NL).
  { injection H as <-. reflexivity. }
  destruct (ch =? chr "{").
  { injection H as <-. autorewrite with control. reflexivity. }
  destruct (ch =? chr "[").
  { destruct (last_comma _).
    - injection H as <-. autorewrite with control. reflexivity.
    - apply control_do_path_append in H. rewrite H.
      autorewrite with control. reflexivity. }
  destruct (ch =? chr ":").
  { destruct (do_path_append cfg _ _) as [s1|] eqn:E; cbn [bind] in H;
      [|discriminate].
    apply control_do_path_append in E. injection H as <-.
    autorewrite with control. rewrite E. autorewrite with control.
    reflexivity. }
  destruct (ch =? chr ",").
  { destruct (next_item dm cfg _) as [s1|] eqn:E; cbn [bind] in H;
      [|discriminate].
    apply control_next_item in E. injection H as <-.
    assert (E' : control_of s1 = cset_out (control_of s) false).
    { rewrite E. destruct (in_value (end_value s) =? 2);
        autorewrite with control; reflexivity. }
    assert (Ev : in_value s1 = c_value (cset_out (control_of s) false)).
    { rewrite <- E'. reflexivity. }
    rewrite Ev. destruct (c_value _ <? 2); autorewrite with control;
      rewrite E'; reflexivity. }
  destruct ((ch =? chr "}") || (ch =? chr "]")).
  { injection H as <-. autorewrite with control.
    destruct (negb (in_value (end_value s) =? 0)), (ch =? chr "]");
      autorewrite with control; reflexivity. }
  destruct (ch =? 34).
  { injection H as <-. unfold cput_if. cbn.
    destruct (negb (in_value s =? 0)); autorewrite with control; reflexivity. }
  injection H as <-. unfold cput_if. cbn.
  destruct (negb (in_value s =? 0)); autorewrite with control; reflexivity.
Qed.

Lemma control_unicode_digit s ch s' :
  unicode_digit dm s ch = Done s' ->
  control_of s'
  = cset_unicode (control_of s)
      (if in_unicode s =? 4 then 0 else in_unicode s + 1).
Proof.
  unfold unicode_digit, unicode_error. cbv zeta. intros H.
  destruct (_ || _); [|discriminate]. cbn [in_unicode set_unicode] in H.
  destruct (in_unicode s =? 4).
  - destruct (utf8_appends dm _); [|discriminate].
    injection H as <-. cbn [in_value set_in_unicode set_unicode].
    destruct (negb (in_value s =? 0)); autorewrite with control;
      [rewrite control_emit by reflexivity|]; autorewrite with control;
      reflexivity.
  - injection H as <-. autorewrite with control. reflexivity.
Qed.

Lemma control_inside s ch s' :
  in_quotes s = true ->
  inside dm cfg s ch = Done s' ->
  control_of s' = cstep cfg (control_of s) ch.
Proof.
  intros Hq. unfold cstep. cbn [c_quotes c_protect c_unicode control_of].
  rewrite Hq. unfold inside. cbv zeta. intros H.
  destruct (negb (protect s) && (ch =? 34)).
  { injection H as <-. unfold cput_if. cbn.
    destruct (negb (in_value s =? 0)); autorewrite with control; reflexivity. }
  destruct (protect s && (ch =? chr "u")).
  { injection H as <-. autorewrite with control. reflexivity. }
  destruct (negb (in_unicode s =? 0)).
  { apply control_unicode_digit in H. exact H. }
  destruct (negb (protect s) && (ch =? chr "\")).
  { injection H as <-. reflexivity. }
  unfold on_char in H. unfold cput_if. cbn [c_value control_of].
  destruct (in_value s =? 0) eqn:Hv; cbn [negb andb] in *;
    (destruct (protect s); cbn [andb negb];
     [destruct (multiline cfg && (ch =? chr "n")); cbn [negb]|]);
    injection H as <-;
    cbn [in_value set_protect cset_protect c_value cput control_of];
    rewrite ?putvalue_in_value, ?name_append_in_value, ?Hv; cbn [negb andb];
    change (NL =? NL) with true;
    destruct (multiprefix cfg), (ch =? NL); cbn [negb andb];
    autorewrite with control; rewrite ?control_emit by reflexivity;
    autorewrite with control; reflexivity.
Qed.

End Control.

Section ControlRun.

Variable dm : data_model.
Variable cfg : config.

Lemma control_step s ch s' :
  step dm cfg s ch = Done s' -> control_of s' = cstep cfg (control_of s) ch.
Proof.
  unfold step. destruct (in_quotes s) eqn:Hq.
  - apply control_inside. exact Hq.
  - destruct (outside dm cfg s ch) as [s1|] eqn:E; cbn [bind]; [|discriminate].
    intros H. injection H as <-. rewrite control_set_last_comma.
    apply (control_outside dm cfg s ch s1 Hq E).
Qed.

Lemma control_run bs : forall s s',
  run dm cfg s bs = Done s' -> control_of s' = crun cfg (control_of s) bs.
Proof.
  induction bs as [|ch bs IH]; intros s s' H; simpl in H.
  - injection H as <-. reflexivity.
  - destruct (step dm cfg s ch) as [s1|] eqn:E; cbn [bind] in H; [|discriminate].
    apply control_step in E. apply IH in H. rewrite H, E. reflexivity.
Qed.

End ControlRun.

Section Records.

Variable cfg : config.

Lemma crun_app (a b : list byte) (c : control) :
  crun cfg c (a ++ b) = crun cfg (crun cfg c a) b.
Proof. unfold crun. apply fold_left_app. Qed.

Lemma crun_cons (ch : byte) (b : list byte) (c : control) :
  crun cfg c (ch :: b) = crun cfg (cstep cfg c ch) b.
Proof. reflexivity. Qed.

Lemma cstep_ws (ch : byte) v o r :
  is_ws ch = true -> cstep cfg (at_rest v o r) ch = at_rest v o r.
Proof.
  unfold is_ws, cstep. cbn [c_quotes at_rest]. intros H.
  destruct ((ch =? chr " ") || (ch =? 9) || (ch =? 13)); [reflexivity|].
  cbn [orb] in H. rewrite H. reflexivity.
Qed.

Lemma crun_ws (w : list byte) v o r :
  forallb is_ws w = true -> crun cfg (at_rest v o r) w = at_rest v o r.
Proof.
  induction w as [|ch w IH]; cbn [forallb]; intros H; [reflexivity|].
  apply andb_true_iff in H as [Hc Hw].
  rewrite crun_cons, cstep_ws by exact Hc. apply IH. exact Hw.
Qed.

(** The tests of the [switch] on a byte of a literal. *)
Lemma cstep_literal (ch : byte) v o r :
  literal_char ch = true -> v <> 0 ->
  cstep cfg (at_rest v o r) ch = at_rest v true (if o then r else S r).
Proof.
  unfold literal_char, is_ws, cstep. cbn [c_quotes at_rest]. intros H Hv.
  apply negb_true_iff in H. repeat (apply orb_false_iff in H as [H ?]).
  repeat match goal with E : (_ =? _) = false |- _ => rewrite E; clear E end.
  cbn [orb]. unfold cput_if, at_rest. cbn.
  destruct (Z.eqb_spec v 0); [contradiction|]. reflexivity.
Qed.

Lemma crun_literal_from (t : list byte) v : v <> 0 ->
  forallb literal_char t = true ->
  forall r, crun cfg (at_rest v true r) t = at_rest v true r.
Proof.
  intros Hv. induction t as [|ch t IH]; cbn [forallb]; intros H r;
    [reflexivity|].
  apply andb_true_iff in H as [Hc Ht].
  rewrite crun_cons, cstep_literal by assumption. apply IH. exact Ht.
Qed.

Lemma crun_literal (t : list byte) v r : v <> 0 -> t <> [] ->
  forallb literal_char t = true ->
  crun cfg (at_rest v false r) t = at_rest v true (S r).
Proof.
  intros Hv Hne H. destruct t as [|ch t]; [contradiction|].
  cbn [forallb] in H. apply andb_true_iff in H as [Hc Ht].
  rewrite crun_cons, cstep_literal by assumption.
  apply crun_literal_from; assumption.
Qed.

(** Inside a string nothing begins a record: in a value the record has
    begun at the opening quote. *)
Lemma isxdigit_not_quote (h : byte) : isxdigit h = true -> (h =? 34) = false.
Proof.
  unfold isxdigit, isdigit. intros H. apply Z.eqb_neq. intros ->.
  discriminate H.
Qed.

Lemma cstep_hex (h : byte) (u : Z) v o r :
  isxdigit h = true -> u <> 0 ->
  cstep cfg {| c_quotes := true; c_protect := false; c_unicode := u;
               c_value := v; c_out := o; c_records := r |} h
  = {| c_quotes := true; c_protect := false;
       c_unicode := if u =? 4 then 0 else u + 1;
       c_value := v; c_out := o; c_records := r |}.
Proof.
  intros Hh Hu. unfold cstep. cbn [c_quotes c_protect c_unicode negb andb].
  rewrite (isxdigit_not_quote h Hh).
  destruct (Z.eqb_spec u 0); [contradiction|]. reflexivity.
Qed.

Ltac crunch Ev :=
  repeat (rewrite ?Ev; cbn;
          try match goal with
              | |- context [if ?b then _ else _] =>
                  lazymatch b with
                  | context [if _ then _ else _] => fail
                  | _ => destruct b
                  end
              end);
  try reflexivity.

Lemma cstep_plain (c : byte) v o r :
  (c =? 34) = false -> (c =? chr "\") = false -> (v <> 0 -> o = true) ->
  cstep cfg (in_string v o r) c = in_string v o r.
Proof.
  intros Hq Hs Ho.
  destruct (v =? 0) eqn:Ev;
    [|assert (o = true) by (apply Ho, Z.eqb_neq, Ev); subst o];
    unfold cstep, in_string, cput_if, cput, cset_protect;
    cbn in *; rewrite Hq, Hs; crunch Ev.
Qed.

Lemma cstep_escape (c : byte) v o r :
  (c =? chr "u") = false -> (v <> 0 -> o = true) ->
  cstep cfg (cstep cfg (in_string v o r) (chr "\")) c = in_string v o r.
Proof.
  intros Hu Ho.
  assert (E : cstep cfg (in_string v o r) (chr "\")
              = {| c_quotes := true; c_protect := true; c_unicode := 0;
                   c_value := v; c_out := o; c_records := r |})
    by reflexivity.
  rewrite E. clear E.
  destruct (v =? 0) eqn:Ev;
    [|assert (o = true) by (apply Ho, Z.eqb_neq, Ev); subst o];
    unfold cstep, in_string, cput_if, cput, cset_protect;
    cbn in *; rewrite Hu; crunch Ev.
Qed.

Lemma crun_string_body (b : list byte) v o r :
  string_body b -> (v <> 0 -> o = true) ->
  crun cfg (in_string v o r) b = in_string v o r.
Proof.
  intros Hb Ho. induction Hb as [|c rest Hq Hs _ IH|c rest Hu _ IH
                                |h1 h2 h3 h4 rest H1 H2 H3 H4 _ IH].
  - reflexivity.
  - rewrite crun_cons, cstep_plain by assumption. exact IH.
  - rewrite !crun_cons, cstep_escape by assumption. exact IH.
  - rewrite (crun_cons (chr "\")), (crun_cons (chr "u")).
    assert (E : cstep cfg (cstep cfg (in_string v o r) (chr "\")) (chr "u")
                = {| c_quotes := true; c_protect := false; c_unicode := 1;
                     c_value := v; c_out := o; c_records := r |})
      by reflexivity.
    rewrite E, !crun_cons.
    rewrite !cstep_hex by (assumption || discriminate).
    exact IH.
Qed.

Lemma crun_string_value (b : list byte) v r :
  string_body b -> v <> 0 ->
  crun cfg (at_rest v false r) (34 :: b ++ [34]) = at_rest v true (S r).
Proof.
  intros Hb Hv. rewrite crun_cons.
  assert (E : cstep cfg (at_rest v false r) 34 = in_string v true (S r)).
  { unfold cstep, cput_if. cbn. destruct (Z.eqb_spec v 0); [contradiction|].
    reflexivity. }
  rewrite E, crun_app, crun_string_body by auto.
  unfold crun, cstep, cput_if. cbn.
  destruct (Z.eqb_spec v 0); [contradiction|]. reflexivity.
Qed.

Lemma crun_string_key (b : list byte) o r :
  string_body b ->
  crun cfg (at_rest 0 o r) (34 :: b ++ [34]) = at_rest 0 o r.
Proof.
  intros Hb. rewrite crun_cons.
  change (cstep cfg (at_rest 0 o r) 34) with (in_string 0 o r).
  rewrite crun_app, crun_string_body by (auto || congruence).
  reflexivity.
Qed.

End Records.

Section Grammar.

Variable cfg : config.

Lemma cstep_begin_object v o r :
  cstep cfg (at_rest v o r) (chr "{") = at_rest 0 o r.
Proof. reflexivity. Qed.

Lemma cstep_begin_array v o r :
  cstep cfg (at_rest v o r) (chr "[") = at_rest 2 o r.
Proof. reflexivity. Qed.

Lemma cstep_colon v o r :
  cstep cfg (at_rest v o r) (chr ":") = at_rest 1 o r.
Proof. reflexivity. Qed.

Lemma cstep_comma v o r :
  cstep cfg (at_rest v o r) (chr ",")
  = at_rest (if v <? 2 then 0 else v) false r.
Proof.
  unfold cstep, at_rest. cbn. destruct (v <? 2); reflexivity.
Qed.

Lemma cstep_end_object v o r :
  cstep cfg (at_rest v o r) (chr "}") = at_rest 0 false r.
Proof. reflexivity. Qed.

Lemma cstep_end_array v o r :
  cstep cfg (at_rest v o r) (chr "]") = at_rest 0 false r.
Proof. reflexivity. Qed.

(** One member of an object, from the state after the brace or the
    comma. *)
Lemma crun_member (k : kind) (n : nat) (w1 key w2 w3 v w4 : list byte) (r : nat) :
  forallb is_ws w1 = true -> string_body key ->
  forallb is_ws w2 = true -> forallb is_ws w3 = true ->
  (forall r0, crun cfg (at_rest 1 false r0) v
              = at_rest (kind_value k 1) (kind_out k) (r0 + n)) ->
  forallb is_ws w4 = true ->
  crun cfg (at_rest 0 false r)
    (w1 ++ 34 :: key ++ 34 :: w2 ++ chr ":" :: w3 ++ v ++ w4)
  = at_rest (kind_value k 1) (kind_out k) (r + n).
Proof.
  intros H1 Hk H2 H3 Hv H4.
  rewrite crun_app, crun_ws by assumption.
  change (34 :: key ++ 34 :: w2 ++ chr ":" :: w3 ++ v ++ w4)
    with ((34 :: key ++ [34]) ++ w2 ++ chr ":" :: w3 ++ v ++ w4)
    || (replace (34 :: key ++ 34 :: w2 ++ chr ":" :: w3 ++ v ++ w4)
         with ((34 :: key ++ [34]) ++ w2 ++ chr ":" :: w3 ++ v ++ w4)
         by (cbn; rewrite <- app_assoc; reflexivity)).
  rewrite crun_app, crun_string_key by assumption.
  rewrite crun_app, crun_ws by assumption.
  rewrite crun_cons, cstep_colon.
  rewrite crun_app, crun_ws by assumption.
  rewrite crun_app, Hv. apply crun_ws. assumption.
Qed.

Lemma records_grammar :
  (forall k n bs, value false k n bs ->
     forall v r, (k = Scalar -> v <> 0) ->
       crun cfg (at_rest v false r) bs
       = at_rest (kind_value k v) (kind_out k) (r + n)) /\
  (forall k n es, elements false k n es ->
     forall r,
       crun cfg (at_rest 2 false r) es
       = at_rest (kind_value k 2) (kind_out k) (r + n)) /\
  (forall n ms, members false n ms ->
     forall r, exists v o,
       crun cfg (at_rest 0 false r) ms = at_rest v o (r + n) /\
       (v <? 2) = true).
Proof.
  apply grammar_mut.
  - (* literal *)
    intros t Hne Ht v r Hv. rewrite Nat.add_1_r.
    apply crun_literal; auto.
  - (* string *)
    intros b Hb v r Hv. rewrite Nat.add_1_r.
    apply crun_string_value; auto.
  - (* empty array *)
    intros w Hw v r _. rewrite Nat.add_0_r.
    rewrite crun_cons, cstep_begin_array, crun_app, crun_ws by assumption.
    reflexivity.
  - (* array *)
    intros k n es _ IH v r _.
    rewrite crun_cons, cstep_begin_array, crun_app, IH.
    reflexivity.
  - (* empty object *)
    intros w Hw v r _. rewrite Nat.add_0_r.
    rewrite crun_cons, cstep_begin_object, crun_app, crun_ws by assumption.
    reflexivity.
  - (* object *)
    intros n ms _ IH v r _.
    rewrite crun_cons, cstep_begin_object, crun_app.
    destruct (IH r) as (v' & o' & E & _). rewrite E. reflexivity.
  - (* first element *)
    intros k n w1 v w2 H1 _ IH H2 r.
    rewrite crun_app, crun_ws by assumption.
    rewrite crun_app, IH by (intros _; discriminate).
    apply crun_ws. assumption.
  - (* next element *)
    intros k1 n1 es k2 n2 w1 v w2 _ IHes Hmix H1 _ IHv H2 r.
    rewrite crun_app, IHes, crun_cons, cstep_comma.
    rewrite crun_app, crun_ws by assumption.
    rewrite crun_app, Nat.add_assoc.
    destruct k1.
    + cbn [kind_value]. change (2 <? 2) with false. cbn iota.
      rewrite IHv by (intros _; discriminate).
      apply crun_ws. assumption.
    + specialize (Hmix eq_refl eq_refl). subst k2.
      rewrite IHv by discriminate.
      apply crun_ws. assumption.
  - (* first member *)
    intros k n w1 key w2 w3 v w4 H1 Hk H2 H3 _ IHv H4 r.
    exists (kind_value k 1), (kind_out k). split.
    + apply crun_member; try assumption. intros r0. apply IHv. discriminate.
    + destruct k; reflexivity.
  - (* next member *)
    intros n1 ms k n2 w1 key w2 w3 v w4 _ IHms H1 Hk H2 H3 _ IHv H4 r.
    exists (kind_value k 1), (kind_out k). split.
    + destruct (IHms r) as (v' & o' & E & Hlt).
      rewrite crun_app, E, crun_cons, cstep_comma, Hlt, Nat.add_assoc.
      apply crun_member; try assumption. intros r0. apply IHv. discriminate.
    + destruct k; reflexivity.
Qed.

End Grammar.

(** The example document of the specification is well formed, with
    three leaf scalars. *)
Lemma example_document :
  document_with false 3 (json "{'a':{'b':1,'c':[2,3]}}").
Proof.
  exists [], (json "{'a':{'b':1,'c':[2,3]}}"), [].
  split; [reflexivity|]. split; [|split; reflexivity].
  apply (value_object false 3 (json "'a':{'b':1,'c':[2,3]}")).
  apply (members_one false Container 3 [] (bytes_of_string "a") [] []
           (json "{'b':1,'c':[2,3]}") []); try reflexivity.
  { apply body_plain; [reflexivity|reflexivity|apply body_end]. }
  apply (value_object false 3 (json "'b':1,'c':[2,3]")).
  apply (members_more false 1 (json "'b':1") Container 2 []
           (bytes_of_string "c") [] [] (json "[2,3]") []); try reflexivity.
  - apply (members_one false Scalar 1 [] (bytes_of_string "b") [] []
             (json "1") []); try reflexivity.
    + apply body_plain; [reflexivity|reflexivity|apply body_end].
    + apply value_literal; [discriminate|reflexivity].
  - apply body_plain; [reflexivity|reflexivity|apply body_end].
  - apply (value_array false Scalar 2 (json "2,3")).
    apply (elements_more false Scalar 1 (json "2") Scalar 1 [] (json "3") []);
      try reflexivity.
    + apply (elements_one false Scalar 1 [] (json "2") []); try reflexivity.
      apply value_literal; [discriminate|reflexivity].
    + discriminate.
    + apply value_literal; [discriminate|reflexivity].
Qed.

(** An array with a scalar after an object is well formed too, with
    two leaf scalars. *)
Lemma mixed_array_document :
  document_with true 2 (json "[{'a':1},5]").
Proof.
  exists [], (json "[{'a':1},5]"), [].
  split; [reflexivity|]. split; [|split; reflexivity].
  apply (value_array true Scalar 2 (json "{'a':1},5")).
  apply (elements_more true Container 1 (json "{'a':1}") Scalar 1 []
           (json "5") []); try reflexivity.
  - apply (elements_one true Container 1 [] (json "{'a':1}") []);
      try reflexivity.
    apply (value_object true 1 (json "'a':1")).
    apply (members_one true Scalar 1 [] (bytes_of_string "a") [] []
             (json "1") []); try reflexivity.
    + apply body_plain; [reflexivity|reflexivity|apply body_end].
    + apply value_literal; [discriminate|reflexivity].
  - discriminate.
  - apply value_literal; [discriminate|reflexivity].
Qed.

(** C2, as the code has it. The example document is converted to the
    five records of the specification. For every well-formed document
    that is an object or an array, in whose arrays no scalar directly
    follows an object or an array, and whose conversion is not aborted,
    with white space anywhere between its tokens and under every
    configuration: exactly as many value records are begun as the
    document has leaf scalars, and the last of them is closed. *)
Theorem value_records_of_document (dm : data_model) (cfg : config) :
  (completed (run dm default_config (init dm)
                (json "{'a':{'b':1,'c':[2,3]}}")) = true /\
   sink_bytes (outp (final (run dm default_config (init dm)
                              (json "{'a':{'b':1,'c':[2,3]}}"))))
   = bytes_of_string "/a" ++ [NL] ++
     bytes_of_string "/a/b = 1" ++ [NL] ++
     bytes_of_string "/a/c" ++ [NL] ++
     bytes_of_string "/a/c/0 = 2" ++ [NL] ++
     bytes_of_string "/a/c/1 = 3" ++ [NL]) /\
  (forall (n : nat) (bs : list byte) (s : state),
     document_with false n bs ->
     run dm cfg (init dm) bs = Done s ->
     value_records (outp s) = n /\ valueout s = false).
Proof.
  split.
  - destruct dm; vm_compute; split; reflexivity.
  - intros n bs s (w1 & v & w2 & H1 & Hv & H2 & ->) Hrun.
    apply control_run in Hrun.
    change (control_of (init dm)) with (at_rest 0 false 0) in Hrun.
    rewrite crun_app, crun_ws in Hrun by assumption.
    rewrite crun_app in Hrun.
    rewrite (proj1 (records_grammar cfg) Container n v Hv 0 0%nat) in Hrun
      by discriminate.
    rewrite crun_ws in Hrun by assumption.
    unfold control_of, at_rest in Hrun. cbn in Hrun.
    injection Hrun as _ _ _ _ Ho Hr. split; assumption.
Qed.

Lemma value_records_of_document_witness :
  value_records
    (outp (final (run LP64 default_config (init LP64)
                    (json "{'a':{'b':1,'c':[2,3]}}")))) = 3%nat.
Proof.
  apply (proj2 (value_records_of_document LP64 default_config) 3%nat
           (json "{'a':{'b':1,'c':[2,3]}}")).
  - exact example_document.
  - vm_compute. reflexivity.
Defined.

(** C2 as stated fails. In [[{"a":1},5]] the scalar 5 comes after the
    closing brace has cleared the value context: it is taken for a key
    and no record is written for it. A document that is a single scalar
    gives no record either. *)
Lemma scalar_after_container_lost :
  document_with true 2 (json "[{'a':1},5]") /\
  completed (run LP64 default_config (init LP64) (json "[{'a':1},5]")) = true /\
  value_records (outp (final (run LP64 default_config (init LP64)
                                (json "[{'a':1},5]")))) = 1%nat /\
  sink_bytes (outp (final (run LP64 default_config (init LP64)
                             (json "[{'a':1},5]"))))
  = bytes_of_string "/0" ++ [NL] ++ bytes_of_string "/0/a = 1" ++ [NL] /\
  outp (final (run LP64 default_config (init LP64) (json "5"))) = [].
Proof.
  split; [exact mixed_array_document|]. vm_compute. repeat split.
Qed.

(** ** The code unit of a unicode escape *)

Create Rewrite HintDb escape.

Section CodeUnit.

Variable dm : data_model.
Variable cfg : config.

Ltac esc :=
  intros;
  unfold escape_of, putvalue, end_value, terminal_line, name_append,
    do_path_remove, clear_name, emit, write_slice, start_slice, stop_slice,
    report;
  repeat case_match; reflexivity.

Lemma escape_putvalue ch s : escape_of (putvalue cfg ch s) = escape_of s.
Proof. esc. Qed.
Lemma escape_end_value s : escape_of (end_value s) = escape_of s.
Proof. esc. Qed.
Lemma escape_name_append ch s : escape_of (name_append ch s) = escape_of s.
Proof. esc. Qed.
Lemma escape_do_path_remove t s :
  escape_of (do_path_remove dm cfg t s) = escape_of s.
Proof. esc. Qed.
Lemma escape_clear_name s : escape_of (clear_name s) = escape_of s.
Proof. esc. Qed.
Lemma escape_terminal_line s : escape_of (terminal_line cfg s) = escape_of s.
Proof. esc. Qed.
Lemma escape_emit w s : escape_of (emit w s) = escape_of s.
Proof. esc. Qed.
Lemma escape_set_name s v : escape_of (set_name s v) = escape_of s.
Proof. reflexivity. Qed.
Lemma escape_set_path s v : escape_of (set_path s v) = escape_of s.
Proof. reflexivity. Qed.
Lemma escape_set_idx s v : escape_of (set_idx s v) = escape_of s.
Proof. reflexivity. Qed.
Lemma escape_set_linenum s v : escape_of (set_linenum s v) = escape_of s.
Proof. reflexivity. Qed.
Lemma escape_set_last_comma s v : escape_of (set_last_comma s v) = escape_of s.
Proof. reflexivity. Qed.
Lemma escape_set_in_quotes s v : escape_of (set_in_quotes s v) = escape_of s.
Proof. reflexivity. Qed.
Lemma escape_set_in_value s v : escape_of (set_in_value s v) = escape_of s.
Proof. reflexivity. Qed.
Lemma escape_set_protect s v : escape_of (set_protect s v) = escape_of s.
Proof. reflexivity. Qed.

Lemma escape_names bs : forall s,
  escape_of (fold_left (fun s b => name_append b s) bs s) = escape_of s.
Proof.
  induction bs as [|b bs IH]; intros s; simpl; [reflexivity|].
  rewrite IH. apply escape_name_append.
Qed.

Lemma escape_do_path_append c s s' :
  do_path_append cfg c s = Done s' -> escape_of s' = escape_of s.
Proof.
  unfold do_path_append. destruct (path_append cfg c (path s));
    intros H; inversion H. reflexivity.
Qed.

Hint Rewrite escape_putvalue escape_end_value escape_name_append
  escape_do_path_remove escape_clear_name escape_terminal_line escape_emit
  escape_set_name escape_set_path escape_set_idx escape_set_linenum
  escape_set_last_comma escape_set_in_quotes escape_set_in_value
  escape_set_protect escape_names : escape.

Ltac escape_done H :=
  first
    [ discriminate H
    | injection H as <-; repeat case_match; autorewrite with escape;
      reflexivity
    | apply escape_do_path_append in H; rewrite H; repeat case_match;
      autorewrite with escape; reflexivity ].

Lemma escape_next_item s s' :
  next_item dm cfg s = Done s' -> escape_of s' = escape_of s.
Proof.
  unfold next_item. cbv zeta. intros H.
  destruct (in_value s =? 1); [escape_done H|].
  destruct (idx s <? ULONG_MAX dm); [|escape_done H].
  destruct (gen_index cfg); escape_done H.
Qed.

Lemma escape_outside s ch s' :
  outside dm cfg s ch = Done s' -> escape_of s' = escape_of s.
Proof.
  unfold outside, on_begin_object, on_begin_array, on_colon, on_comma, on_end,
    on_quote, on_other. cbv zeta. intros H.
  destruct ((ch =? chr " ") || (ch =? 9) || (ch =? 13)); [escape_done H|].
  destruct (ch =? NL); [escape_done H|].
  destruct (ch =? chr "{"); [escape_done H|].
  destruct (ch =? chr "[").
  { destruct (last_comma _); escape_done H. }
  destruct (ch =? chr ":").
  { destruct (do_path_append cfg _ _) as [s1|] eqn:E; cbn [bind] in H;
      [|discriminate].
    apply escape_do_path_append in E. injection H as <-.
    autorewrite with escape. rewrite E. autorewrite with escape. reflexivity. }
  destruct (ch =? chr ",").
  { destruct (next_item dm cfg _) as [s1|] eqn:E; cbn [bind] in H;
      [|discriminate].
    apply escape_next_item in E. injection H as <-.
    repeat case_match; autorewrite with escape; rewrite E;
      repeat case_match; autorewrite with escape; reflexivity. }
  destruct ((ch =? chr "}") || (ch =? chr "]")); [escape_done H|].
  destruct (ch =? 34); escape_done H.
Qed.

Lemma escape_on_char s ch s' :
  on_char cfg s ch = Done s' -> escape_of s' = escape_of s.
Proof.
  unfold on_char. intros H. repeat case_match; simplify_eq;
    repeat case_match; autorewrite with escape; reflexivity.
Qed.

(** Two numbers below a power of two have their bitwise or below it. *)
Lemma lor_below (a b n : Z) :
  0 <= a < 2 ^ n -> 0 <= b < 2 ^ n -> 0 <= Z.lor a b < 2 ^ n.
Proof.
  intros Ha Hb.
  assert (Hn : 0 <= Z.lor a b) by (apply Z.lor_nonneg; lia).
  split; [exact Hn|].
  destruct (Z.eq_dec (Z.lor a b) 0) as [E|E]; [lia|].
  assert (0 <= n).
  { destruct (Z.le_gt_cases 0 n); [assumption|].
    rewrite Z.pow_neg_r in Ha by lia. lia. }
  apply Z.log2_lt_pow2; [lia|].
  rewrite Z.log2_lor by lia.
  assert (La : Z.log2 a < n \/ a = 0).
  { destruct (Z.eq_dec a 0); [auto|]. left. apply Z.log2_lt_pow2; lia. }
  assert (Lb : Z.log2 b < n \/ b = 0).
  { destruct (Z.eq_dec b 0); [auto|]. left. apply Z.log2_lt_pow2; lia. }
  assert (0 < n).
  { destruct (Z.eq_dec n 0) as [->|]; [|lia].
    change (2 ^ 0) with 1 in *. assert (a = 0) by lia. assert (b = 0) by lia.
    subst. contradiction. }
  destruct La as [La| ->], Lb as [Lb| ->]; cbn [Z.log2]; lia.
Qed.

Lemma digit_below (u d k : Z) :
  0 <= k -> 0 <= u < 16 ^ k -> 0 <= d < 16 ->
  0 <= Z.lor (Z.shiftl u 4) d < 16 ^ (k + 1).
Proof.
  intros Hk Hu Hd.
  assert (E : forall j, 0 <= j -> 16 ^ j = 2 ^ (4 * j)).
  { intros j Hj. rewrite Z.pow_mul_r by lia. reflexivity. }
  rewrite (E k Hk) in Hu. rewrite (E (k + 1)) by lia.
  apply lor_below.
  - rewrite Z.shiftl_mul_pow2 by lia. change (2 ^ 4) with 16.
    replace (4 * (k + 1)) with (4 * k + 4) by lia.
    rewrite Z.pow_add_r by lia. change (2 ^ 4) with 16. nia.
  - replace (4 * (k + 1)) with (4 * k + 4) by lia.
    rewrite Z.pow_add_r by lia. change (2 ^ 4) with 16.
    assert (0 < 2 ^ (4 * k)) by (apply Z.pow_pos_nonneg; lia). nia.
Qed.

(** A hexadecimal digit that is accepted shifts the code unit by one
    digit; the fourth resets the count. *)
Lemma unicode_digit_fields s ch s' :
  unicode_digit dm s ch = Done s' ->
  exists d, 0 <= d < 16 /\
    unicode s' = Z.lor (Z.shiftl (unicode s) 4) d /\
    in_unicode s' = if in_unicode s =? 4 then 0 else in_unicode s + 1.
Proof.
  unfold unicode_digit, unicode_error. cbv zeta. intros H.
  set (c := if (65 <=? ch) && (ch <=? 70) then ch + 32 else ch) in *.
  destruct ((97 <=? c) && (c <=? 102) || (48 <=? c) && (c <=? 57)) eqn:Hc;
    [|discriminate].
  exists (if 97 <=? c then c - 97 + 10 else c - 48). split.
  { destruct (Z.leb_spec 97 c); lia. }
  cbn [in_unicode set_unicode] in H.
  assert (F : forall t, escape_of t = escape_of s' ->
                unicode t = unicode s' /\ in_unicode t = in_unicode s').
  { unfold escape_of. intros t E. injection E as -> ->. auto. }
  destruct (in_unicode s =? 4).
  - destruct (utf8_appends dm _); [|discriminate].
    injection H as <-. cbn [in_value set_in_unicode set_unicode].
    destruct (negb (in_value s =? 0)).
    + split; reflexivity.
    + cbn. split; [|reflexivity].
      match goal with
      | |- context [fold_left ?f ?l ?a] =>
          pose proof (escape_names l a) as E
      end.
      unfold escape_of in E. cbn in E. injection E as _ E. exact E.
  - injection H as <-. split; reflexivity.
Qed.

Lemma bounded_escape s s' :
  escape_of s' = escape_of s -> unicode_bounded s -> unicode_bounded s'.
Proof.
  unfold escape_of, unicode_bounded. intros E. injection E as -> ->. auto.
Qed.

Lemma bounded_inside s ch s' :
  inside dm cfg s ch = Done s' -> unicode_bounded s -> unicode_bounded s'.
Proof.
  unfold inside. cbv zeta. intros H Hb.
  destruct (negb (protect s) && (ch =? 34)).
  { apply (bounded_escape s); [|exact Hb]. escape_done H. }
  destruct (protect s && (ch =? chr "u")).
  { injection H as <-. unfold unicode_bounded. cbn. lia. }
  destruct (negb (in_unicode s =? 0)) eqn:Hn.
  { apply unicode_digit_fields in H as (d & Hd & Hu & Hi).
    destruct Hb as (Hr & Hv). apply negb_true_iff, Z.eqb_neq in Hn.
    destruct (Z.eqb_spec (in_unicode s) 0); [contradiction|].
    unfold unicode_bounded. rewrite Hu, Hi.
    destruct (Z.eqb_spec (in_unicode s) 4) as [E4|E4].
    - cbn [Z.eqb]. split; [lia|]. rewrite E4 in Hv.
      apply (digit_below (unicode s) d 3); [lia|exact Hv|exact Hd].
    - split; [lia|].
      destruct (Z.eqb_spec (in_unicode s + 1) 0); [lia|].
      replace (in_unicode s + 1 - 1) with (in_unicode s - 1 + 1) by lia.
      apply digit_below; [lia|exact Hv|exact Hd]. }
  destruct (negb (protect s) && (ch =? chr "\")).
  { apply (bounded_escape s); [|exact Hb]. escape_done H. }
  apply (bounded_escape s); [|exact Hb].
  eapply escape_on_char; eassumption.
Qed.

Lemma bounded_step s ch s' :
  step dm cfg s ch = Done s' -> unicode_bounded s -> unicode_bounded s'.
Proof.
  unfold step. destruct (in_quotes s); [apply bounded_inside|].
  destruct (outside dm cfg s ch) as [s1|] eqn:E; cbn [bind]; [|discriminate].
  intros H. injection H as <-. apply bounded_escape.
  rewrite escape_set_last_comma. eapply escape_outside; eassumption.
Qed.

(** In every run the code unit stays below 0x10000. *)
Lemma code_unit_bounded input : forall s s',
  run dm cfg s input = Done s' -> unicode_bounded s -> unicode_bounded s'.
Proof.
  induction input as [|ch input IH]; intros s s' H Hb; simpl in H.
  - injection H as <-. exact Hb.
  - destruct (step dm cfg s ch) as [s1|] eqn:E; cbn [bind] in H; [|discriminate].
    eapply IH; [eassumption|]. eapply bounded_step; eassumption.
Qed.

Lemma init_bounded : unicode_bounded (init dm).
Proof. unfold unicode_bounded. cbn. lia. Qed.

(** Wherever the fourth digit of an escape is read, the code unit that
    is decoded is below 0x10000: of the branches of the decoder only
    the first four can be taken. *)
Lemma decoded_code_unit input s d :
  run dm cfg (init dm) input = Done s ->
  in_unicode s = 4 -> 0 <= d < 16 ->
  let u := Z.lor (Z.shiftl (unicode s) 4) d in
  0 <= u < 0x10000 /\
  utf8_appends dm u =
    if u <? 128 then Some [u]
    else if u <? 2048 then Some [192 + u / 64; 128 + u mod 64]
    else if surrogate_test dm u then None
    else Some [224 + u / 4096; 128 + u / 4096 mod 64;
               128 + u / 64 mod 64; 128 + u mod 64].
Proof.
  intros Hrun H4 Hd u.
  pose proof (code_unit_bounded input _ _ Hrun init_bounded) as (_ & Hb).
  rewrite H4 in Hb. cbn [Z.eqb Z.sub Z.add Z.opp Z.pos_sub Pos.pred_double] in Hb.
  assert (Hu : 0 <= u < 16 ^ (3 + 1))
    by (apply digit_below; [lia|exact Hb|exact Hd]).
  change (16 ^ (3 + 1)) with 65536 in Hu. split; [exact Hu|].
  unfold utf8_appends. destruct (Z.ltb_spec u 65536); [reflexivity|lia].
Qed.

End CodeUnit.

(** ** Invariants of the loop *)

(** A property of the data that every operation of the loop keeps is
    kept by the loop, also in the state in which a document is
    abandoned. *)
Section Invariant.

Variable dm : data_model.
Variable cfg : config.
Variable P : state -> Prop.

Hypothesis P_data : forall s s', data_of s' = data_of s -> P s -> P s'.
Hypothesis P_report : forall d s, P s -> P (report d s).
Hypothesis P_terminal_line : forall s, P s -> P (terminal_line cfg s).
Hypothesis P_putvalue : forall ch s, P s -> P (putvalue cfg ch s).
Hypothesis P_end_value : forall s, P s -> P (end_value s).
Hypothesis P_name_append : forall ch s, P s -> P (name_append ch s).
Hypothesis P_clear_name : forall s, P s -> P (clear_name s).
Hypothesis P_path_remove :
  forall t s, P s -> P (do_path_remove dm cfg t s).
Hypothesis P_path_append :
  forall comp s p, path_append cfg comp (path s) = Appended p ->
                   P s -> P (set_path s p).
Hypothesis P_chars : forall v s, P s -> P (emit (Chars v) s).
Hypothesis P_continuation :
  forall s, multiprefix cfg = true -> P s -> P (emit (Continuation (path s)) s).

Lemma kept_do_path_append comp s :
  P s -> P (final (do_path_append cfg comp s)).
Proof.
  intros H. unfold do_path_append.
  destruct (path_append cfg comp (path s)) eqn:E; cbn [final]; eauto.
Qed.

Lemma kept_bind (o : outcome) (k : state -> outcome) :
  P (final o) -> (forall s, P s -> P (final (k s))) -> P (final (bind o k)).
Proof. destruct o; cbn; auto. Qed.

Lemma kept_names bs : forall s,
  P s -> P (fold_left (fun s b => name_append b s) bs s).
Proof. induction bs as [|b bs IH]; intros s H; cbn; auto. Qed.

Ltac kept :=
  repeat first
    [ assumption
    | apply P_terminal_line | apply P_putvalue | apply P_end_value
    | apply P_name_append | apply P_clear_name | apply P_path_remove
    | apply P_chars | apply P_report | apply kept_names
    | apply kept_do_path_append
    | match goal with
      | |- P (set_path _ _) => fail 1
      | |- P (?f ?s ?v) => apply (P_data s (f s v)); [reflexivity|]
      | |- P (if ?b then _ else _) => destruct b
      | |- P (final (Done _)) => cbn [final]
      | |- P (final (if ?b then _ else _)) => destruct b
      end ].

Lemma kept_next_item s : P s -> P (final (next_item dm cfg s)).
Proof. intros H. unfold next_item. cbv zeta. kept. Qed.

Lemma kept_outside s ch : P s -> P (final (outside dm cfg s ch)).
Proof.
  intros H.
  unfold outside, on_begin_object, on_begin_array, on_colon, on_comma,
    on_end, on_quote, on_other. cbv zeta.
  destruct ((ch =? chr " ") || (ch =? 9) || (ch =? 13)); [kept|].
  destruct (ch =? NL); [kept|].
  destruct (ch =? chr "{"); [kept|].
  destruct (ch =? chr "["); [kept|].
  destruct (ch =? chr ":").
  { apply kept_bind; [kept|]. intros s1 H1. kept. }
  destruct (ch =? chr ",").
  { apply kept_bind; [apply kept_next_item; kept|]. intros s1 H1. kept. }
  destruct ((ch =? chr "}") || (ch =? chr "]")); [kept|].
  destruct (ch =? 34); kept.
Qed.

Lemma kept_unicode_digit s ch : P s -> P (final (unicode_digit dm s ch)).
Proof.
  intros H. unfold unicode_digit, unicode_error. cbv zeta.
  destruct (_ || _); [|kept].
  destruct (_ =? 4); [|kept].
  destruct (utf8_appends dm _); kept.
Qed.

Lemma kept_on_char s ch : P s -> P (final (on_char cfg s ch)).
Proof.
  intros H. unfold on_char.
  destruct (protect s);
    [destruct (multiline cfg && (ch =? chr "n"))|];
    cbn [final];
    (destruct (negb (in_value (set_protect _ false) =? 0));
     [destruct (multiprefix cfg) eqn:Hm; cbn [andb];
      [destruct (_ =? NL); [apply P_continuation; [reflexivity|]|]|]|]);
    kept.
Qed.

Lemma kept_inside s ch : P s -> P (final (inside dm cfg s ch)).
Proof.
  intros H. unfold inside. cbv zeta.
  destruct (negb (protect s) && (ch =? 34)); [kept|].
  destruct (protect s && (ch =? chr "u")); [kept|].
  destruct (negb (in_unicode s =? 0)); [apply kept_unicode_digit; exact H|].
  destruct (negb (protect s) && (ch =? chr "\")); [kept|].
  apply kept_on_char. exact H.
Qed.

Lemma kept_step s ch : P s -> P (final (step dm cfg s ch)).
Proof.
  intros H. unfold step. destruct (in_quotes s); [apply kept_inside; exact H|].
  apply kept_bind; [apply kept_outside; exact H|]. intros s1 H1. kept.
Qed.

Lemma kept_run input : forall s, P s -> P (final (run dm cfg s input)).
Proof.
  induction input as [|ch input IH]; intros s H; cbn [run final]; [exact H|].
  pose proof (kept_step s ch H) as Hs.
  destruct (step dm cfg s ch) as [s1|e s1]; cbn [bind final] in *; auto.
Qed.

End Invariant.

Section Kept.

Variable dm : data_model.
Variable cfg : config.

Ltac same_data :=
  intros;
  unfold putvalue, end_value, terminal_line, name_append, do_path_remove,
    clear_name, emit, write_slice, start_slice, stop_slice, report in *;
  cbn in *; repeat (case_match; cbn in *); simplify_eq; try assumption.

Lemma path_remove_shorter (p : list byte) (t : bool) (i : Z) :
  strlen (fst (path_remove dm cfg p t i)) <= strlen p.
Proof.
  unfold path_remove. destruct (find_last_slash cfg p); cbn [fst].
  - unfold strlen. rewrite length_take. lia.
  - unfold strlen. cbn. lia.
Qed.

Lemma path_append_fits (comp p0 p : list byte) :
  path_append cfg comp p0 = Appended p ->
  strlen p0 <= MAXBUF - 1 -> strlen p <= MAXBUF - 1.
Proof.
  unfold path_append.
  destruct (if unescape cfg then str_unescape comp MAXBUF else Some comp)
    as [c|]; [|discriminate].
  destruct (strlen c =? 0); [intros E; injection E as <-; auto|].
  destruct (Z.ltb_spec MAXBUF (strlen p0 + strlen c + 2)) as [|Hle];
    [discriminate|].
  intros E _. injection E as <-. rewrite strlen_app.
  change (strlen ([chr "/"] ++ c)) with (strlen (chr "/" :: c)).
  unfold strlen in *. cbn [length]. lia.
Qed.

Lemma buffers_fit_kept input s :
  buffers_fit s -> buffers_fit (final (run dm cfg s input)).
Proof.
  apply (kept_run dm cfg buffers_fit); unfold buffers_fit.
  - unfold data_of. intros s0 s' E. injection E as -> -> _ _ _ _ _. auto.
  - same_data.
  - same_data.
  - same_data.
  - same_data.
  - intros ch s0 [Hn Hp]. unfold name_append, str_append, report.
    destruct (Z.eqb_spec (strlen (name s0)) (MAXBUF - 1)); cbn; [auto|].
    split; [|exact Hp]. rewrite strlen_app. change (strlen [ch mod 256]) with 1.
    lia.
  - intros s0 [_ Hp]. unfold clear_name. cbn. split; [|exact Hp].
    unfold MAXBUF. change (strlen []) with 0. lia.
  - intros t s0 [Hn Hp]. unfold do_path_remove.
    pose proof (path_remove_shorter (path s0) t (idx s0)) as Hs.
    destruct (path_remove dm cfg (path s0) t (idx s0)). cbn in *. lia.
  - intros comp s0 p E [Hn Hp]. cbn. split; [exact Hn|].
    eapply path_append_fits; eassumption.
  - same_data.
  - same_data.
Qed.

Lemma slice_sound_kept input s :
  slice_sound cfg s -> slice_sound cfg (final (run dm cfg s input)).
Proof.
  apply (kept_run dm cfg (slice_sound cfg)); unfold slice_sound.
  - unfold data_of. intros s0 s' E. injection E as _ _ -> _ -> -> _. auto.
  - same_data.
  - same_data.
  - intros ch s0 [H1 H2]. unfold putvalue.
    destruct (valueout s0) eqn:Hv.
    + unfold emit, write_slice. destruct (slicefp s0) eqn:Hf; cbn.
      * rewrite Hv, Hf. split; [auto|].
        destruct (slicef s0) as [c|]; [|discriminate].
        destruct H2 as (p & rest & Hp & ->). exists p, (rest ++ [ch]).
        split; [exact Hp|]. cbn. rewrite <- !app_assoc. reflexivity.
      * rewrite Hv, Hf. split; [auto|exact H2].
    + unfold emit, start_slice. cbn [path set_valueout].
      destruct ((0 <? num_slices cfg) && is_slice cfg (path s0)) eqn:Hc; cbn.
      * split; [auto|]. apply andb_true_iff in Hc as [_ Hc].
        exists (path s0), [ch]. auto.
      * split; [auto|exact H2].
  - intros s0 [H1 H2]. unfold end_value.
    destruct (valueout s0) eqn:Hv; [|rewrite Hv; auto].
    unfold stop_slice, emit. cbn [slicefp set_outp slicef].
    destruct (slicefp s0) eqn:Hf; cbn.
    + split; [discriminate|].
      destruct (slicef s0) as [c|]; [|discriminate].
      destruct H2 as (p & rest & Hp & ->). exists p, (rest ++ [NL]).
      split; [exact Hp|]. cbn. rewrite <- !app_assoc. reflexivity.
    + rewrite Hf. split; [discriminate|exact H2].
  - same_data.
  - same_data.
  - same_data.
  - same_data.
  - same_data.
  - same_data.
Qed.

Lemma writes_allowed_kept input s :
  forallb (write_allowed cfg) (outp s) = true ->
  forallb (write_allowed cfg) (outp (final (run dm cfg s input))) = true.
Proof.
  apply (kept_run dm cfg
           (fun s => forallb (write_allowed cfg) (outp s) = true)).
  - unfold data_of. intros s0 s' E. injection E as _ _ _ -> _ _ _. auto.
  - same_data.
  - intros s0 H. unfold terminal_line.
    destruct (terminals cfg) eqn:Ht; cbn [andb]; [|exact H].
    destruct (Z.eqb_spec (strlen (path s0)) 0) as [|Hne]; cbn [negb];
      [exact H|].
    unfold emit. cbn. rewrite forallb_app, H. cbn. rewrite Ht.
    rewrite bool_decide_eq_false_2; [reflexivity|].
    intros E. rewrite E in Hne. apply Hne. reflexivity.
  - same_data; rewrite ?forallb_app; cbn; rewrite ?andb_true_r; assumption.
  - same_data; rewrite ?forallb_app; cbn; rewrite ?andb_true_r; assumption.
  - same_data.
  - same_data.
  - same_data.
  - same_data.
  - same_data; rewrite ?forallb_app; cbn; rewrite ?andb_true_r; assumption.
  - intros s0 Hm H. unfold emit. cbn. rewrite forallb_app, H. cbn.
    rewrite Hm. reflexivity.
Qed.

End Kept.

(** X1. Neither the key buffer nor the path buffer is ever written
    beyond its [MAXBUF] bytes: at every point of a document, also where
    it is abandoned, both hold at most [MAXBUF - 1] bytes before the
    terminator. *)
Theorem buffers_never_overflow (dm : data_model) (cfg : config)
    (input : list byte) :
  buffers_fit (final (run dm cfg (init dm) input)).
Proof.
  apply buffers_fit_kept. split; vm_compute; discriminate.
Qed.

(** X2. Whatever the input, the slice file is open only while a value
    record is open, and once created it begins with [<path> = ] for a
    path of the slice set; without a slice set it is never created. *)
Theorem slice_file_sound (dm : data_model) (cfg : config) (input : list byte) :
  slice_sound cfg (final (run dm cfg (init dm) input)) /\
  (slices cfg = [] -> slicef (final (run dm cfg (init dm) input)) = None).
Proof.
  assert (H : slice_sound cfg (final (run dm cfg (init dm) input))).
  { apply slice_sound_kept. unfold slice_sound. cbn. auto. }
  split; [exact H|]. intros Hs. destruct H as [_ H].
  destruct (slicef _) as [c|]; [|reflexivity].
  destruct H as (p & rest & Hp & _). unfold is_slice in Hp.
  rewrite Hs in Hp. discriminate.
Qed.

(** X3. Whatever the input, a structural line is written only without
    [-h] and never for the empty path, and a continuation marker only
    under [-p]. *)
Theorem writes_follow_configuration (dm : data_model) (cfg : config)
    (input : list byte) :
  forallb (write_allowed cfg) (outp (final (run dm cfg (init dm) input)))
  = true.
Proof. apply writes_allowed_kept. reflexivity. Qed.

(** ** The unescaper *)

Section Unescaper.

Variable bl : Z.   (* the reduced [buflen] of the loop *)

Lemma free_of_cons c b s :
  free_of c (b :: s) = true ->
  (b =? c) = false /\ (b =? NUL) = false /\ free_of c s = true.
Proof.
  unfold free_of. cbn [forallb]. intros H.
  apply andb_true_iff in H as [H1 H2]. apply andb_true_iff in H1 as [Ha Hb].
  apply negb_true_iff in Ha, Hb. auto.
Qed.

Lemma strlen_cons (b : byte) (s : list byte) : strlen (b :: s) = 1 + strlen s.
Proof. unfold strlen. cbn [length]. lia. Qed.

(** A byte that is neither an underscore nor part of an escape is
    stored as it is. *)
Lemma unescape_iter_plain prev b out any :
  (b =? chr "_") = false -> (b =? NUL) = false ->
  unescape_iter bl prev b {| u_out := out; u_score := 0; u_any := any |}
  = Some {| u_out := out ++ [b]; u_score := 0; u_any := any |}.
Proof.
  intros Hu Hn. unfold unescape_iter. cbn [u_out u_score u_any].
  rewrite Hu, Hn. reflexivity.
Qed.

Lemma unescape_loop_plain (s : list byte) :
  free_of (chr "_") s = true ->
  forall prev out any,
    strlen out <= bl ->
    unescape_loop bl s prev {| u_out := out; u_score := 0; u_any := any |}
    = if strlen out + strlen s <=? bl
      then Some {| u_out := out ++ s; u_score := 0; u_any := any |}
      else None.
Proof.
  induction s as [|b s IH]; intros Hs prev out any Hout.
  - cbn [unescape_loop u_out]. change (strlen []) with 0.
    rewrite Z.add_0_r, app_nil_r.
    destruct (Z.leb_spec (strlen out) bl) as [_|]; [|lia].
    destruct (Z.leb_spec bl (strlen out)); [reflexivity|].
    unfold unescape_iter. cbn. reflexivity.
  - apply free_of_cons in Hs as (Hu & Hn & Hs).
    cbn [unescape_loop u_out]. rewrite strlen_cons.
    destruct (Z.leb_spec bl (strlen out)).
    + destruct (Z.leb_spec (strlen out + (1 + strlen s)) bl); [|reflexivity].
      pose proof (strlen_nonneg s). lia.
    + rewrite unescape_iter_plain by assumption.
      rewrite IH by (assumption || (rewrite strlen_app; cbn; unfold strlen in *; cbn; lia)).
      rewrite strlen_app. change (strlen [b]) with 1.
      rewrite <- app_assoc. cbn [app].
      replace (strlen out + 1 + strlen s) with (strlen out + (1 + strlen s))
        by lia.
      reflexivity.
Qed.

Lemma last_cons_default (l : list byte) : forall x d,
  List.last (x :: l) d = List.last l x.
Proof.
  induction l as [|y l IH]; intros x d; [reflexivity|].
  change (List.last (x :: y :: l) d) with (List.last (y :: l) d).
  rewrite !IH. reflexivity.
Qed.

(** The plain bytes before the next token of the string. *)
Lemma unescape_loop_prefix (pre rest : list byte) :
  free_of (chr "_") pre = true ->
  forall prev out any,
    strlen out + strlen pre <= bl ->
    unescape_loop bl (pre ++ rest) prev
      {| u_out := out; u_score := 0; u_any := any |}
    = unescape_loop bl rest (List.last pre prev)
        {| u_out := out ++ pre; u_score := 0; u_any := any |}.
Proof.
  induction pre as [|b pre IH]; intros Hs prev out any Hlen.
  - cbn. rewrite app_nil_r. reflexivity.
  - apply free_of_cons in Hs as (Hu & Hn & Hs).
    rewrite strlen_cons in Hlen. pose proof (strlen_nonneg pre).
    cbn [app unescape_loop u_out].
    destruct (Z.leb_spec bl (strlen out)); [lia|].
    rewrite unescape_iter_plain by assumption.
    rewrite IH by (assumption || (rewrite strlen_app; change (strlen [b]) with 1; lia)).
    rewrite <- app_assoc. cbn [app]. f_equal.
    symmetry. apply last_cons_default.
Qed.

Lemma isxdigit_not_special (h : byte) :
  isxdigit h = true -> (h =? chr "_") = false /\ (h =? NUL) = false.
Proof.
  unfold isxdigit, isdigit. intros H.
  split; apply Z.eqb_neq; intros ->; discriminate H.
Qed.

(** The three bytes of an escape, after [out] has been stored. *)
Lemma unescape_loop_escape (h1 h2 : byte) (post : list byte) prev out any :
  isxdigit h1 = true -> isxdigit h2 = true ->
  strlen out < bl ->
  unescape_loop bl (chr "_" :: h1 :: h2 :: post) prev
    {| u_out := out; u_score := 0; u_any := any |}
  = let n := 16 * hexval h1 + hexval h2 in
    if unescape_range n then
      unescape_loop bl post h2
        {| u_out := out ++ [n]; u_score := 0; u_any := true |}
    else if bl <=? strlen out + 3 then None
    else
      unescape_loop bl post h2
        {| u_out := out ++ [chr "_"; h1; h2]; u_score := 0; u_any := any |}.
Proof.
  intros H1 H2 Hlen.
  destruct (isxdigit_not_special h1 H1) as (U1 & N1).
  destruct (isxdigit_not_special h2 H2) as (U2 & N2).
  cbn [unescape_loop u_out].
  destruct (Z.leb_spec bl (strlen out)); [lia|].
  unfold unescape_iter at 1. cbn [u_out u_score u_any].
  change (chr "_" =? chr "_") with true. cbn iota.
  cbn [unescape_loop u_out].
  destruct (Z.leb_spec bl (strlen out)); [lia|].
  unfold unescape_iter at 1. cbn [u_out u_score u_any].
  rewrite U1, H1. cbn [Z.eqb negb Pos.eqb]. cbn iota.
  cbn [unescape_loop u_out].
  destruct (Z.leb_spec bl (strlen out)); [lia|].
  unfold unescape_iter at 1. cbn [u_out u_score u_any].
  rewrite U2, H2, N2. cbn [Z.eqb negb Pos.eqb]. cbn iota. cbv zeta.
  destruct (unescape_range (16 * hexval h1 + hexval h2)); [reflexivity|].
  replace (strlen out + 2 + 1) with (strlen out + 3) by lia.
  destruct (bl <=? strlen out + 3); [reflexivity|].
  cbn [app]. reflexivity.
Qed.

(** An underscore that follows an underscore replaces it. *)
Lemma unescape_loop_underscores (pre rest : list byte) :
  forall prev u,
    unescape_loop bl (pre ++ chr "_" :: chr "_" :: rest) prev u
    = unescape_loop bl (pre ++ chr "_" :: rest) prev u.
Proof.
  induction pre as [|b pre IH]; intros prev u.
  - cbn [app unescape_loop].
    destruct (bl <=? strlen (u_out u)) eqn:E; [reflexivity|].
    unfold unescape_iter at 1 3. change (chr "_" =? chr "_") with true.
    cbn iota. cbn [unescape_loop u_out]. rewrite E.
    unfold unescape_iter at 1. change (chr "_" =? chr "_") with true.
    cbn iota. cbn [u_out u_any]. reflexivity.
  - cbn [app unescape_loop].
    destruct (bl <=? strlen (u_out u)); [reflexivity|].
    destruct (unescape_iter bl prev b u); [apply IH|reflexivity].
Qed.

(** The loop never stores more than [bl] bytes. *)
Lemma unescape_iter_bound prev c u u' :
  unescape_iter bl prev c u = Some u' ->
  strlen (u_out u) < bl -> 0 <= u_score u <= 2 ->
  strlen (u_out u') <= bl /\ 0 <= u_score u' <= 2.
Proof.
  unfold unescape_iter. intros H Hlen Hs.
  assert (L : forall a b : list byte, strlen (a ++ b) = strlen a + strlen b)
    by apply strlen_app.
  repeat match type of H with
         | (if ?b then _ else _) = _ => destruct b eqn:?
         | (let _ := _ in _) = _ => cbv zeta in H
         end;
    try discriminate; injection H as <-; cbn [u_out u_score];
    rewrite ?L; unfold strlen in *; cbn [length];
    repeat match goal with
           | E : (_ <=? _) = false |- _ => apply Z.leb_gt in E
           | E : (_ =? _) = true |- _ => apply Z.eqb_eq in E
           | E : (_ =? _) = false |- _ => apply Z.eqb_neq in E
           | E : negb _ = true |- _ => apply negb_true_iff in E
           | E : negb _ = false |- _ => apply negb_false_iff in E
           end;
    try lia;
    repeat match goal with
           | |- context [if ?b then _ else _] => destruct b
           end;
    rewrite ?length_app; cbn [length app]; lia.
Qed.

Lemma unescape_loop_bound (s : list byte) : forall prev u u',
  unescape_loop bl s prev u = Some u' ->
  strlen (u_out u) <= bl -> 0 <= u_score u <= 2 ->
  strlen (u_out u') <= bl.
Proof.
  induction s as [|c s IH]; intros prev u u' H Hlen Hs;
    cbn [unescape_loop] in H.
  - destruct (Z.leb_spec bl (strlen (u_out u))).
    + injection H as <-. exact Hlen.
    + apply unescape_iter_bound in H; [tauto|lia|exact Hs].
  - destruct (Z.leb_spec bl (strlen (u_out u))); [discriminate|].
    destruct (unescape_iter bl prev c u) as [u1|] eqn:E; [|discriminate].
    apply unescape_iter_bound in E; [|lia|exact Hs].
    eapply IH; [exact H|tauto|tauto].
Qed.

End Unescaper.

Lemma str_unescape_free (s : list byte) (buflen : Z) :
  3 <= buflen -> free_of (chr "_") s = true ->
  str_unescape s buflen = if strlen s <=? buflen - 3 then Some s else None.
Proof.
  intros Hb Hs. unfold str_unescape.
  rewrite unescape_loop_plain by (assumption || (change (strlen []) with 0; lia)).
  change (strlen []) with 0. rewrite Z.add_0_l.
  destruct (strlen s <=? buflen - 3); reflexivity.
Qed.

(** X4. A component without underscore is returned as it is when it
    has at most [buflen - 3] bytes, and is refused ([NULL]) when it is
    longer. *)
Theorem str_unescape_plain (s : list byte) (buflen : Z) :
  3 <= buflen -> free_of (chr "_") s = true ->
  str_unescape s buflen = if strlen s <=? buflen - 3 then Some s else None.
Proof. apply str_unescape_free. Qed.

Lemma str_unescape_plain_witness :
  str_unescape (bytes_of_string "hardware") MAXBUF
  = Some (bytes_of_string "hardware").
Proof.
  rewrite (str_unescape_plain (bytes_of_string "hardware") MAXBUF).
  - reflexivity.
  - vm_compute. discriminate.
  - reflexivity.
Defined.

(** X5. What [str_unescape] returns fits the buffer it was given: at
    most [buflen - 1] bytes, braces included. *)
Theorem str_unescape_fits (s r : list byte) (buflen : Z) :
  3 <= buflen -> str_unescape s buflen = Some r -> strlen r <= buflen - 1.
Proof.
  intros Hb. unfold str_unescape.
  destruct (unescape_loop (buflen - 3) s NUL _) as [u|] eqn:E; [|discriminate].
  apply unescape_loop_bound in E; cbn [u_out u_score];
    [|change (strlen []) with 0; lia|lia].
  destruct (u_any u); intros H; injection H as <-.
  - unfold strlen in *. cbn [app length]. rewrite length_app. cbn [length].
    lia.
  - lia.
Qed.

Lemma str_unescape_fits_witness :
  strlen (bytes_of_string "{a/b}") <= MAXBUF - 1.
Proof.
  apply (str_unescape_fits (bytes_of_string "a_2fb")).
  - vm_compute. discriminate.
  - reflexivity.
Defined.

(** X6. An escape [_XX] whose value lies in 0x20-0x40, 0x5B-0x60 or
    0x7B-0x7E is replaced by that byte and the component is put in
    braces, when the result has at most [buflen - 3] bytes. *)
Theorem str_unescape_decodes (pre post : list byte) (h1 h2 : byte)
    (buflen : Z) :
  free_of (chr "_") pre = true -> free_of (chr "_") post = true ->
  isxdigit h1 = true -> isxdigit h2 = true ->
  unescape_range (16 * hexval h1 + hexval h2) = true ->
  strlen pre + 1 + strlen post <= buflen - 3 ->
  str_unescape (pre ++ chr "_" :: h1 :: h2 :: post) buflen
  = Some ([chr "{"] ++ (pre ++ [16 * hexval h1 + hexval h2] ++ post)
            ++ [chr "}"]).
Proof.
  intros Hpre Hpost H1 H2 Hr Hlen. unfold str_unescape.
  pose proof (strlen_nonneg pre). pose proof (strlen_nonneg post).
  rewrite unescape_loop_prefix
    by (assumption || (change (strlen []) with 0; lia)).
  cbn [app].
  rewrite unescape_loop_escape by (assumption || lia).
  cbv zeta. rewrite Hr.
  rewrite unescape_loop_plain
    by (assumption || (rewrite strlen_app; change (strlen [_]) with 1; lia)).
  rewrite strlen_app. change (strlen [_]) with 1.
  destruct (Z.leb_spec (strlen pre + 1 + strlen post) (buflen - 3)); [|lia].
  cbn [u_any u_out app]. rewrite <- !app_assoc. reflexivity.
Qed.

Lemma str_unescape_decodes_witness :
  str_unescape (bytes_of_string "a_2fb") MAXBUF
  = Some (bytes_of_string "{a/b}").
Proof.
  apply (str_unescape_decodes (bytes_of_string "a") (bytes_of_string "b")
           (chr "2") (chr "f") MAXBUF); try reflexivity.
  vm_compute. discriminate.
Defined.

(** X7. An escape [_XX] with any other value stays as it is, and
    nothing else of a component without further underscores changes;
    the three bytes need three free bytes and one more. *)
Theorem str_unescape_keeps (pre post : list byte) (h1 h2 : byte)
    (buflen : Z) :
  free_of (chr "_") pre = true -> free_of (chr "_") post = true ->
  isxdigit h1 = true -> isxdigit h2 = true ->
  unescape_range (16 * hexval h1 + hexval h2) = false ->
  strlen pre + 3 < buflen - 3 ->
  strlen pre + 3 + strlen post <= buflen - 3 ->
  str_unescape (pre ++ chr "_" :: h1 :: h2 :: post) buflen
  = Some (pre ++ chr "_" :: h1 :: h2 :: post).
Proof.
  intros Hpre Hpost H1 H2 Hr Hroom Hlen. unfold str_unescape.
  pose proof (strlen_nonneg pre). pose proof (strlen_nonneg post).
  rewrite unescape_loop_prefix
    by (assumption || (change (strlen []) with 0; lia)).
  cbn [app].
  rewrite unescape_loop_escape by (assumption || lia).
  cbv zeta. rewrite Hr.
  destruct (Z.leb_spec (buflen - 3) (strlen pre + 3)); [lia|].
  rewrite unescape_loop_plain
    by (assumption ||
        (rewrite strlen_app; change (strlen [_; _; _]) with 3; lia)).
  rewrite strlen_app. change (strlen [_; _; _]) with 3.
  destruct (Z.leb_spec (strlen pre + 3 + strlen post) (buflen - 3)); [|lia].
  cbn [u_any u_out]. f_equal. symmetry.
  apply (app_assoc pre [chr "_"; h1; h2] post).
Qed.

Lemma str_unescape_keeps_witness :
  str_unescape (bytes_of_string "a_41b") MAXBUF
  = Some (bytes_of_string "a_41b").
Proof.
  apply (str_unescape_keeps (bytes_of_string "a") (bytes_of_string "b")
           (chr "4") (chr "1") MAXBUF); vm_compute;
    reflexivity || discriminate.
Defined.

(** X8. An underscore directly before an underscore is dropped: the
    component with two of them is unescaped like the one with a single
    underscore. *)
Theorem str_unescape_drops_underscore (pre rest : list byte) (buflen : Z) :
  str_unescape (pre ++ chr "_" :: chr "_" :: rest) buflen
  = str_unescape (pre ++ chr "_" :: rest) buflen.
Proof.
  unfold str_unescape. rewrite unescape_loop_underscores. reflexivity.
Qed.

(** X9. Under [-e] a key without underscore of more than [MAXBUF - 3]
    bytes is refused by [str_unescape], and [path_append] takes the
    length of the null pointer it got: the document does not end with
    the diagnostic of a long path but with the program. *)
Theorem long_key_null_dereference (cfg : config) (key : list byte)
    (s : state) :
  unescape cfg = true -> free_of (chr "_") key = true ->
  MAXBUF - 3 < strlen key ->
  path_append cfg key (path s) = NullComponent /\
  do_path_append cfg key s
  = Abort NullDeref (report (ComponentExceeded (linenum s)) s).
Proof.
  intros Hu Hk Hlen.
  assert (E : path_append cfg key (path s) = NullComponent).
  { unfold path_append. rewrite Hu, str_unescape_free
      by (assumption || (unfold MAXBUF; lia)).
    destruct (Z.leb_spec (strlen key) (MAXBUF - 3)); [lia|reflexivity]. }
  split; [exact E|]. unfold do_path_append. rewrite E. reflexivity.
Qed.

Lemma long_key_null_dereference_witness :
  completed (run LP64 unescape_config (init LP64)
               (json "{'" ++ repeat (chr "x") 4094 ++ json "':1}")) = false /\
  path_append unescape_config (repeat (chr "x") 4094) [] = NullComponent.
Proof.
  split; [vm_compute; reflexivity|].
  apply (long_key_null_dereference unescape_config (repeat (chr "x") 4094)
           (init LP64)).
  - reflexivity.
  - vm_compute. reflexivity.
  - vm_compute. reflexivity.
Defined.

(** ** [find_last_slash], [path_remove] and the array index *)

Section Slash.

Variable dm : data_model.
Variable cfg : config.

Lemma find_last_slash_from_some (s : list byte) : forall i e q p,
  find_last_slash_from cfg s i e q = Some p ->
  q = Some p \/ ((i <= p)%nat /\ s !! (p - i)%nat = Some (chr "/")).
Proof.
  induction s as [|c s IH]; intros i e q p H; cbn [find_last_slash_from] in H;
    [left; exact H|].
  assert (Hnext : forall e' q', find_last_slash_from cfg s (S i) e' q' = Some p ->
            q' = Some p \/ ((i <= p)%nat /\ (c :: s) !! (p - i)%nat = Some (chr "/"))).
  { intros e' q' H'. destruct (IH _ _ _ _ H') as [->|[Hle Hl]]; [left; reflexivity|].
    right. split; [lia|]. replace (p - i)%nat with (S (p - S i)) by lia.
    exact Hl. }
  destruct (unescape cfg && (c =? chr "{")); [apply (Hnext _ _ H)|].
  destruct (e && (c =? chr "}")); [apply (Hnext _ _ H)|].
  destruct ((c =? chr "/") && negb e) eqn:Hc; [|apply (Hnext _ _ H)].
  destruct (Hnext _ _ H) as [Hq|Hr]; [|right; exact Hr].
  injection Hq as <-. right. split; [lia|].
  replace (i - i)%nat with 0%nat by lia. cbn.
  apply andb_true_iff in Hc as [Hc _]. apply Z.eqb_eq in Hc. congruence.
Qed.

Lemma find_last_slash_some (s : list byte) (p : nat) :
  find_last_slash cfg s = Some p -> s !! p = Some (chr "/").
Proof.
  intros H. apply find_last_slash_from_some in H as [H|[_ H]]; [discriminate|].
  rewrite Nat.sub_0_r in H. exact H.
Qed.

Lemma find_last_slash_from_plain (s : list byte) : forall i q,
  unescape cfg = false ->
  find_last_slash_from cfg s i false q =
    match find_last_slash_from cfg s i false None with
    | Some p => Some p
    | None => q
    end.
Proof.
  intros i q Hu. revert i q.
  induction s as [|c s IH]; intros i q; cbn [find_last_slash_from];
    [reflexivity|].
  rewrite Hu. cbn [andb negb]. rewrite andb_true_r.
  destruct (c =? chr "/"); [|apply IH].
  rewrite (IH (S i) (Some i)).
  destruct (find_last_slash_from cfg s (S i) false None); reflexivity.
Qed.

Lemma find_last_slash_from_last (s : list byte) : forall i,
  unescape cfg = false ->
  match find_last_slash_from cfg s i false None with
  | Some p => (i <= p)%nat /\
              forallb (fun c => negb (c =? chr "/")) (drop (S (p - i)) s) = true
  | None => forallb (fun c => negb (c =? chr "/")) s = true
  end.
Proof.
  intros i Hu. revert i.
  induction s as [|c s IH]; intros i; cbn [find_last_slash_from];
    [reflexivity|].
  rewrite Hu. cbn [andb negb]. rewrite andb_true_r.
  specialize (IH (S i)).
  destruct (c =? chr "/") eqn:Hc.
  - rewrite find_last_slash_from_plain by exact Hu.
    destruct (find_last_slash_from cfg s (S i) false None) as [p|].
    + destruct IH as [Hle IH]. split; [lia|].
      replace (S (p - i)) with (S (S (p - S i))) by lia. exact IH.
    + split; [lia|]. replace (i - i)%nat with 0%nat by lia. exact IH.
  - destruct (find_last_slash_from cfg s (S i) false None) as [p|].
    + destruct IH as [Hle IH]. split; [lia|].
      replace (S (p - i)) with (S (S (p - S i))) by lia. exact IH.
    + cbn [forallb]. rewrite Hc. exact IH.
Qed.

Lemma utoa_app (fuel : nat) : forall n acc,
  utoa fuel n acc = utoa fuel n [] ++ acc.
Proof.
  induction fuel as [|f IH]; intros n acc; cbn [utoa]; [reflexivity|].
  destruct (n / 10 =? 0); [reflexivity|].
  rewrite (IH _ (_ :: acc)), (IH _ [_]), <- app_assoc. reflexivity.
Qed.

Lemma utoa_step (f : nat) (n : Z) :
  utoa (S f) n [] =
    if n / 10 =? 0 then [48 + n mod 10]
    else utoa f (n / 10) [] ++ [48 + n mod 10].
Proof.
  cbn [utoa]. destruct (n / 10 =? 0); [reflexivity|]. apply utoa_app.
Qed.

Lemma isdigit_mod (n : Z) : isdigit (48 + n mod 10) = true.
Proof.
  pose proof (Z.mod_pos_bound n 10 ltac:(lia)). unfold isdigit.
  apply andb_true_iff. split; apply Z.leb_le; lia.
Qed.

Lemma utoa_digits (fuel : nat) : forall n,
  forallb isdigit (utoa fuel n []) = true.
Proof.
  induction fuel as [|f IH]; intros n; [reflexivity|].
  rewrite utoa_step. destruct (n / 10 =? 0).
  - cbn [forallb]. rewrite isdigit_mod. reflexivity.
  - rewrite forallb_app, IH. cbn [forallb]. rewrite isdigit_mod. reflexivity.
Qed.

Lemma utoa_nonempty (f : nat) (n : Z) : utoa (S f) n [] <> [].
Proof.
  rewrite utoa_step. destruct (n / 10 =? 0); [discriminate|].
  destruct (utoa f (n / 10) []); discriminate.
Qed.

Lemma decimal_snoc (s : list byte) (c : byte) :
  decimal (s ++ [c]) = 10 * decimal s + (c - 48).
Proof. unfold decimal. rewrite fold_left_app. reflexivity. Qed.

Lemma decimal_utoa (fuel : nat) : forall n,
  0 <= n < 10 ^ Z.of_nat fuel -> decimal (utoa fuel n []) = n.
Proof.
  induction fuel as [|f IH]; intros n Hn.
  - change (10 ^ Z.of_nat 0) with 1 in Hn. assert (n = 0) as -> by lia.
    reflexivity.
  - rewrite utoa_step. rewrite Nat2Z.inj_succ, Z.pow_succ_r in Hn by lia.
    pose proof (Z.div_mod n 10 ltac:(lia)).
    destruct (Z.eqb_spec (n / 10) 0) as [Hz|Hz].
    + unfold decimal. cbn [fold_left]. lia.
    + rewrite decimal_snoc, IH; [lia|].
      split; [apply Z.div_pos; lia|apply Z.div_lt_upper_bound; lia].
Qed.

Lemma digits_hidden (s : list byte) :
  forallb isdigit s = true -> slashes_hidden cfg s false = true.
Proof.
  induction s as [|c s IH]; intros H; cbn [slashes_hidden]; [reflexivity|].
  cbn [forallb] in H. apply andb_true_iff in H as [Hc Hs].
  unfold isdigit in Hc. apply andb_true_iff in Hc as [H1 H2].
  apply Z.leb_le in H1, H2.
  change (chr "{") with 123. change (chr "/") with 47.
  assert ((c =? 123) = false) as -> by (apply Z.eqb_neq; lia).
  assert ((c =? 47) = false) as -> by (apply Z.eqb_neq; lia).
  rewrite andb_false_r. cbn [andb]. apply IH. exact Hs.
Qed.

Lemma ULONG_MAX_decimal : ULONG_MAX dm < 10 ^ Z.of_nat 29.
Proof. destruct dm; vm_compute; reflexivity. Qed.

End Slash.

(** X10. The pointer that [find_last_slash] returns points at a slash
    of the string, with and without [-e]. *)
Theorem find_last_slash_at_slash (cfg : config) (s : list byte) (p : nat) :
  find_last_slash cfg s = Some p -> s !! p = Some (chr "/").
Proof. apply find_last_slash_some. Qed.

Lemma find_last_slash_at_slash_witness :
  bytes_of_string "/a/{b/c}" !! 2%nat = Some (chr "/").
Proof.
  apply (find_last_slash_at_slash unescape_config). vm_compute. reflexivity.
Defined.

(** X11. Without [-e] the slash returned is the last one of the
    string, and [NULL] is returned only for a string without slash. *)
Theorem find_last_slash_is_last (cfg : config) (s : list byte) :
  unescape cfg = false ->
  match find_last_slash cfg s with
  | Some p => s !! p = Some (chr "/") /\
              forallb (fun c => negb (c =? chr "/")) (drop (S p) s) = true
  | None => forallb (fun c => negb (c =? chr "/")) s = true
  end.
Proof.
  intros Hu. pose proof (find_last_slash_from_last cfg s 0 Hu) as H.
  pose proof (find_last_slash_some cfg s) as Hs.
  unfold find_last_slash in *.
  destruct (find_last_slash_from cfg s 0 false None) as [p|]; [|exact H].
  destruct H as [_ H]. rewrite Nat.sub_0_r in H. auto.
Qed.

Lemma find_last_slash_is_last_witness :
  find_last_slash default_config (bytes_of_string "/a/{b/c}") = Some 5%nat /\
  forallb (fun c => negb (c =? chr "/")) (bytes_of_string "c}") = true.
Proof.
  split; [reflexivity|].
  pose proof (find_last_slash_is_last default_config
                (bytes_of_string "/a/{b/c}") eq_refl) as H.
  exact (proj2 H).
Defined.

(** X12. What [path_remove] leaves is the empty path or the path up
    to one of its slashes: it never cuts elsewhere, and it never
    lengthens the path. *)
Theorem path_remove_cuts_at_slash (dm : data_model) (cfg : config)
    (path : list byte) (track : bool) (i : Z) :
  fst (path_remove dm cfg path track i) = [] \/
  exists comp, path = fst (path_remove dm cfg path track i) ++ chr "/" :: comp.
Proof.
  unfold path_remove.
  destruct (find_last_slash cfg path) as [p|] eqn:E; [|left; reflexivity].
  right. cbn [fst]. exists (drop (S p) path).
  apply find_last_slash_some in E.
  rewrite <- (take_drop p path) at 1. f_equal.
  apply drop_S. exact E.
Qed.

Lemma path_remove_index (dm : data_model) (cfg : config)
    (p : list byte) (n i : Z) :
  scan_escaped cfg p false = false ->
  0 <= n + 1 <= ULONG_MAX dm ->
  path_remove dm cfg (p ++ [chr "/"] ++ index_component cfg n) true i
  = (p, if gen_index cfg then n + 1 else 1).
Proof.
  intros Hp Hn. unfold index_component.
  pose proof (ULONG_MAX_decimal dm) as Hmax.
  assert (Hh : slashes_hidden cfg
                 (if gen_index cfg then fmt_lu (n + 1) else bytes_of_string "#")
                 false = true).
  { destruct (gen_index cfg).
    - apply digits_hidden, utoa_digits.
    - cbn. rewrite andb_false_r. reflexivity. }
  rewrite (path_remove_idx dm cfg _ (length p))
    by (apply find_last_slash_appended; assumption).
  cbv zeta. rewrite take_app_length. f_equal.
  replace (drop (S (length p)) _)
    with (if gen_index cfg then fmt_lu (n + 1) else bytes_of_string "#").
  2:{ rewrite (app_assoc p [chr "/"]).
      replace (S (length p)) with (length (p ++ [chr "/"]))
        by (rewrite length_app; cbn; lia).
      rewrite drop_app_length. reflexivity. }
  destruct (gen_index cfg); [|reflexivity].
  unfold digit_string, fmt_lu.
  rewrite utoa_digits, decimal_utoa by lia.
  rewrite bool_decide_eq_false_2 by apply utoa_nonempty. cbn [negb andb].
  destruct (Z.ltb_spec (n + 1) (ULONG_MAX dm)); lia.
Qed.

(** X13. The component that [process_json] writes for an array element
    is read back by [path_remove]: the path is the one before the
    append and the counter is the number written, up to and including
    [ULONG_MAX]; with [-I] off the component is [#] and the counter
    becomes 1 whatever it was. *)
Theorem index_written_is_read_back (dm : data_model) (cfg : config)
    (p : list byte) (n i : Z) :
  scan_escaped cfg p false = false ->
  0 <= n + 1 <= ULONG_MAX dm ->
  path_remove dm cfg (p ++ [chr "/"] ++ index_component cfg n) true i
  = (p, if gen_index cfg then n + 1 else 1).
Proof. apply path_remove_index. Qed.

Lemma index_written_is_read_back_witness :
  path_remove ILP32 default_config (bytes_of_string "/a/4294967295") true 7
  = (bytes_of_string "/a", 4294967295).
Proof.
  apply (index_written_is_read_back ILP32 default_config
           (bytes_of_string "/a") 4294967294 7).
  - reflexivity.
  - vm_compute. split; discriminate.
Defined.

(** ** The loops of [main] *)

Section Loops.

Variable dm : data_model.
Variable cfg : config.

Lemma process_json_no_signal (from_stdin : bool) (d : document) (w : world) :
  snd (process_json dm cfg from_stdin d None w) = None.
Proof.
  unfold process_json.
  destruct (open_streams cfg from_stdin d w) as [[[[input outf] slf] w']|w'];
    [|reflexivity].
  unfold convert. rewrite read_loop_no_signal.
  destruct (run dm cfg (init dm) input) as [s|[] s]; reflexivity.
Qed.



Lemma process_all_plain_app (from_stdin : bool) (a b : list document) :
  forall w,
    process_all dm cfg from_stdin (a ++ b) None w =
    match process_all dm cfg from_stdin a None w with
    | (Exit 0, w') => process_all dm cfg from_stdin b None w'
    | r => r
    end.
Proof.
  induction a as [|d a IH]; intros w; cbn [app process_all observed tick];
    [reflexivity|].
  pose proof (process_json_no_signal from_stdin d w) as Hs.
  destruct (process_json dm cfg from_stdin d None w) as [[[] w'] sig'];
    cbn [fst snd] in *; [subst sig'; apply IH|reflexivity|reflexivity].
Qed.

Lemma process_all_codes (from_stdin : bool) (docs : list document) :
  forall sig w,
    fst (process_all dm cfg from_stdin docs sig w) = Exit 0 \/
    fst (process_all dm cfg from_stdin docs sig w) = Exit 1 \/
    fst (process_all dm cfg from_stdin docs sig w) = Killed.
Proof.
  induction docs as [|d docs IH]; intros sig w; cbn [process_all]; [auto|].
  destruct (observed sig); [auto|].
  destruct (process_json dm cfg from_stdin d (tick sig) w) as [[[] w'] sig'];
    cbn [fst]; auto.
Qed.

Lemma process_list_plain (lines : list document) :
  forall w,
    process_list dm cfg lines None w =
    let r := process_all dm cfg false
               (List.filter (fun d => negb (is_comment (infile d))) lines)
               None w in
    (match fst r with Exit 0 => None | e => Some e end, snd r, None).
Proof.
  induction lines as [|d lines IH]; intros w;
    cbn [process_list List.filter observed tick]; [reflexivity|].
  destruct (is_comment (infile d)); cbn [negb]; [apply IH|].
  cbn [process_all observed tick].
  pose proof (process_json_no_signal false d w) as Hs.
  destruct (process_json dm cfg false d None w) as [[[] w'] sig'];
    cbn [fst snd] in *; subst sig'; [apply IH|reflexivity|reflexivity].
Qed.

Lemma process_lists_plain (lists : list (list document)) :
  forall w,
    process_lists dm cfg lists None w
    = process_all dm cfg false (listed lists) None w.
Proof.
  induction lists as [|l lists IH]; intros w; [reflexivity|].
  cbn [process_lists]. unfold listed. cbn [concat].
  rewrite List.filter_app, process_all_plain_app, process_list_plain.
  cbv zeta.
  pose proof (process_all_codes false
                (List.filter (fun d => negb (is_comment (infile d))) l)
                None w) as Hc.
  destruct (process_all dm cfg false
              (List.filter (fun d => negb (is_comment (infile d))) l) None w)
    as [e w'].
  cbn [fst snd] in *.
  destruct Hc as [ -> | [ -> | -> ] ]; [apply IH|reflexivity|reflexivity].
Qed.


(** With the output in files nothing is written to stdout. *)
Lemma process_json_keeps_stdout (from_stdin : bool) (d : document)
    (sig : signal) (w : world) :
  to_stdout cfg = false ->
  stdout (snd (fst (process_json dm cfg from_stdin d sig w))) = stdout w.
Proof.
  intros Ht. unfold process_json, open_streams. rewrite Ht.
  destruct (if from_stdin then Some (default [] (content d)) else content d)
    as [input|]; [|reflexivity].
  destruct (outfile_name cfg (infile d)) as [o|]; [|reflexivity].
  destruct (0 <? num_slices cfg).
  - destruct (slicefile_name cfg o) as [f|]; [|reflexivity].
    unfold convert.
    destruct (read_loop dm cfg sig (init dm) input) as [[s|[] s] sig1];
      try reflexivity.
    cbn. destruct (observed sig1); reflexivity.
  - unfold convert.
    destruct (read_loop dm cfg sig (init dm) input) as [[s|[] s] sig1];
      try reflexivity.
    cbn. destruct (observed sig1); reflexivity.
Qed.


Lemma process_all_keeps_stdout (from_stdin : bool) (docs : list document) :
  to_stdout cfg = false ->
  forall sig w,
    stdout (snd (process_all dm cfg from_stdin docs sig w)) = stdout w.
Proof.
  intros Ht. induction docs as [|d docs IH]; intros sig w; cbn [process_all];
    [reflexivity|].
  destruct (observed sig); [reflexivity|].
  pose proof (process_json_keeps_stdout from_stdin d (tick sig) w Ht) as H.
  destruct (process_json dm cfg from_stdin d (tick sig) w) as [[[] w'] sig'];
    cbn [fst snd] in *; [rewrite IH|..]; exact H.
Qed.

Lemma process_list_keeps_stdout (lines : list document) :
  to_stdout cfg = false ->
  forall sig w,
    stdout (snd (fst (process_list dm cfg lines sig w))) = stdout w.
Proof.
  intros Ht. induction lines as [|d lines IH]; intros sig w;
    cbn [process_list]; [reflexivity|].
  destruct (observed sig); [reflexivity|].
  destruct (is_comment (infile d)); [apply IH|].
  pose proof (process_json_keeps_stdout false d (tick sig) w Ht) as H.
  destruct (process_json dm cfg false d (tick sig) w) as [[[] w'] sig'];
    cbn [fst snd] in *; [rewrite IH|..]; exact H.
Qed.

Lemma process_lists_keeps_stdout (lists : list (list document)) :
  to_stdout cfg = false ->
  forall sig w, stdout (snd (process_lists dm cfg lists sig w)) = stdout w.
Proof.
  intros Ht. induction lists as [|l lists IH]; intros sig w;
    cbn [process_lists]; [reflexivity|].
  pose proof (process_list_keeps_stdout l Ht sig w) as H.
  destruct (process_list dm cfg l sig w) as [[[e|] w'] sig'];
    cbn [fst snd] in *; [|rewrite IH]; exact H.
Qed.

End Loops.


(** X15. Without signal the loop over file lists does what the loop
    over arguments does on the lines that are not comments, taken in
    order through all the lists. *)
Theorem file_lists_as_arguments (dm : data_model) (cfg : config)
    (lists : list (list document)) (w : world) :
  process_lists dm cfg lists None w
  = process_all dm cfg false (listed lists) None w.
Proof. apply process_lists_plain. Qed.



(** X17. With more than one argument, or with a slice, nothing is
    written to stdout, also under [-t]; and with [-f] nothing ever
    is. *)
Theorem file_run_keeps_stdout (dm : data_model) (cfg : config)
    (docs : list document) (lists : list (list document)) (sig : signal)
    (w : world) :
  (1 < length docs)%nat \/ 0 < num_slices cfg ->
  stdout (snd (main dm cfg docs sig w)) = stdout w /\
  stdout (snd (main_filelist dm cfg lists sig w)) = stdout w.
Proof.
  intros H. split.
  - unfold main. destruct docs as [|d docs]; [reflexivity|]. cbv zeta.
    apply process_all_keeps_stdout. cbn [to_stdout].
    destruct H as [H|H].
    + destruct (Nat.eqb_spec (length (d :: docs)) 1); [lia|reflexivity].
    + destruct (Z.eqb_spec (num_slices cfg) 0); [lia|].
      rewrite andb_false_r. reflexivity.
  - unfold main_filelist. destruct lists; [reflexivity|].
    apply process_lists_keeps_stdout. reflexivity.
Qed.

Lemma file_run_keeps_stdout_witness :
  stdout (snd (main LP64 slice_config [doc "-" "{'a':{'b':1}}"] None
                 empty_world)) = [] /\
  fs (snd (main LP64 slice_config [doc "-" "{'a':{'b':1}}"] None
             empty_world)) !! "-.txt.slice"%string
  = Some (bytes_of_string "/a/b = 1" ++ [NL]).
Proof.
  split; [|vm_compute; reflexivity].
  apply (file_run_keeps_stdout LP64 slice_config [doc "-" "{'a':{'b':1}}"] []
           None empty_world).
  right. reflexivity.
Defined.

(** ** File names *)

Section Names.

Variable cfg : config.

Lemma length_append (a b : string) :
  String.length (String.append a b) = (String.length a + String.length b)%nat.
Proof.
  induction a as [|c a IH]; [reflexivity|]. exact (f_equal S IH).
Qed.

Lemma length_substring_0 (n : nat) : forall s : string,
  (String.length (substring 0 n s) <= String.length s)%nat.
Proof.
  induction n as [|n IH]; intros [|c s]; cbn; try lia.
  specialize (IH s). lia.
Qed.

Lemma substring_append_l (a b : string) :
  substring 0 (String.length a) (String.append a b) = a.
Proof.
  induction a as [|c a IH]; [destruct b; reflexivity|].
  exact (f_equal (String c) IH).
Qed.

Lemma substring_all (b : string) : substring 0 (String.length b) b = b.
Proof. induction b as [|c b IH]; cbn; [reflexivity|]. f_equal. exact IH. Qed.

Lemma substring_append_r (a b : string) :
  substring (String.length a) (String.length b) (String.append a b) = b.
Proof. induction a as [|c a IH]; [apply substring_all|exact IH]. Qed.

Lemma strlenS_append (a b : string) :
  strlenS (String.append a b) = strlenS a + strlenS b.
Proof. unfold strlenS. rewrite length_append. lia. Qed.

Lemma drop_suffix_shorter (s suf : string) :
  strlenS (drop_suffix s suf) <= strlenS s.
Proof.
  unfold drop_suffix, strlenS.
  pose proof (length_substring_0 (String.length s - String.length suf) s). lia.
Qed.

Lemma has_suffix_append (min : nat) (a b : string) :
  has_suffix min (String.append a b) b
  = (min <? String.length a + String.length b)%nat.
Proof.
  unfold has_suffix. cbv zeta. rewrite length_append.
  replace (String.length a + String.length b - String.length b)%nat
    with (String.length a) by lia.
  rewrite substring_append_r, String.eqb_refl. apply andb_true_r.
Qed.

Lemma drop_suffix_append (a b : string) : drop_suffix (String.append a b) b = a.
Proof.
  unfold drop_suffix. rewrite length_append.
  replace (String.length a + String.length b - String.length b)%nat
    with (String.length a) by lia.
  apply substring_append_l.
Qed.

Lemma append_assoc (a b c : string) : String.append (String.append a b) c = String.append a (String.append b c).
Proof.
  induction a as [|x a IH]; [reflexivity|]. exact (f_equal (String x) IH).
Qed.

End Names.

(** X18. An output file name that is accepted has at most [MAXBUF]
    bytes, and so has the slice file name: the tests admit a name of
    [MAXBUF] bytes itself. *)
Theorem file_names_bounded (cfg : config) (f o sf : string) :
  outfile_name cfg f = Some o ->
  slicefile_name cfg o = Some sf ->
  strlenS o <= MAXBUF /\ strlenS sf <= MAXBUF.
Proof.
  unfold outfile_name, slicefile_name. intros Ho Hs.
  destruct (Z.ltb_spec MAXBUF
              (strlenS f + strlenS (suffix cfg)
               + (if outcompress cfg then 3 else 0))) as [|Hf];
    [discriminate|].
  destruct (Z.ltb_spec MAXBUF (strlenS o + strlenS (slice cfg))) as [|Hl];
    [discriminate|].
  injection Hs as <-. injection Ho as Ho.
  split.
  - rewrite <- Ho.
    set (o1 := if has_suffix 3 f ".gz" then drop_suffix f ".gz" else f).
    set (o2 := if has_suffix _ o1 (strip cfg) then drop_suffix o1 (strip cfg)
               else o1).
    assert (H1 : strlenS o1 <= strlenS f).
    { subst o1. destruct (has_suffix 3 f ".gz");
        [apply drop_suffix_shorter|lia]. }
    assert (H2 : strlenS o2 <= strlenS o1).
    { subst o2. destruct (has_suffix _ o1 (strip cfg));
        [apply drop_suffix_shorter|lia]. }
    destruct (outcompress cfg); rewrite ?strlenS_append;
      change (strlenS ".gz") with 3; lia.
  - rewrite strlenS_append.
    assert (H1 : strlenS (if has_suffix 3 o ".gz" then drop_suffix o ".gz"
                          else o) <= strlenS o).
    { destruct (has_suffix 3 o ".gz"); [apply drop_suffix_shorter|lia]. }
    lia.
Qed.

Lemma file_names_bounded_witness :
  strlenS (String.append (string_of_list_ascii (repeat "x"%char 4092)) ".txt")
  = MAXBUF /\
  strlenS (String.append (string_of_list_ascii (repeat "x"%char 4092)) ".txt")
  <= MAXBUF.
Proof.
  split; [vm_compute; reflexivity|].
  apply (file_names_bounded
           {| gzlevel := 0; unescape := false; terminals := true;
              gen_index := true; multiline := false; multiprefix := false;
              suffix := ".txt"; strip := ".json"; slice := "";
              slices := []; to_stdout := false |}
           (string_of_list_ascii (repeat "x"%char 4092))
           (String.append (string_of_list_ascii (repeat "x"%char 4092)) ".txt")
           (String.append (string_of_list_ascii (repeat "x"%char 4092)) ".txt"));
    vm_compute; reflexivity.
Defined.

(** X19. The output file of [b], followed by the suffix of [-R] and
    by [.gz], is named [b] followed by the suffix of [-O]: both
    endings are taken off, in that order, when [b] is not empty and
    the output is not compressed. *)
Theorem outfile_name_strips (cfg : config) (b : string) :
  b <> ""%string ->
  gzlevel cfg = 0 ->
  strlenS b + strlenS (strip cfg) + 3 + strlenS (suffix cfg) <= MAXBUF ->
  outfile_name cfg (String.append b (String.append (strip cfg) ".gz"))
  = Some (String.append b (suffix cfg)).
Proof.
  intros Hb Hg Hlen. unfold outfile_name, outcompress. rewrite Hg.
  cbn [Z.eqb negb].
  rewrite <- !append_assoc, !strlenS_append in *.
  change (strlenS ".gz") with 3.
  destruct (Z.ltb_spec MAXBUF
              (strlenS b + strlenS (strip cfg) + 3 + strlenS (suffix cfg) + 0));
    [lia|].
  assert (0 < String.length b)%nat
    by (destruct b; [contradiction|cbn; lia]).
  rewrite has_suffix_append, length_append.
  destruct (Nat.ltb_spec 3 (String.length b + String.length (strip cfg)
                            + String.length ".gz")); [|cbn in *; lia].
  rewrite drop_suffix_append, has_suffix_append.
  destruct (Nat.ltb_spec (String.length (strip cfg))
              (String.length b + String.length (strip cfg))); [|lia].
  rewrite drop_suffix_append. reflexivity.
Qed.

Lemma outfile_name_strips_witness :
  outfile_name default_config "profile.json.gz" = Some "profile.txt"%string.
Proof.
  apply (outfile_name_strips default_config "profile");
    [discriminate|reflexivity|vm_compute; discriminate].
Defined.

(** ** The slices and the primary output *)

Create Rewrite HintDb strip.

Section Strip.

Variable dm : data_model.
Variable cfg : config.

Lemma find_last_slash_from_without (s : list byte) : forall i e q,
  find_last_slash_from (without_slices cfg) s i e q
  = find_last_slash_from cfg s i e q.
Proof.
  induction s as [|c s IH]; intros i e q; cbn [find_last_slash_from];
    [reflexivity|].
  change (unescape (without_slices cfg)) with (unescape cfg).
  rewrite !IH. reflexivity.
Qed.

Lemma path_remove_without (p : list byte) (t : bool) (i : Z) :
  path_remove dm (without_slices cfg) p t i = path_remove dm cfg p t i.
Proof.
  unfold path_remove, find_last_slash. rewrite find_last_slash_from_without.
  reflexivity.
Qed.

Lemma path_append_without (c p : list byte) :
  path_append (without_slices cfg) c p = path_append cfg c p.
Proof. reflexivity. Qed.

Ltac prim :=
  intros;
  unfold putvalue, end_value, terminal_line, name_append, do_path_remove,
    do_path_append, clear_name, emit, write_slice, start_slice, stop_slice,
    report, strip_slice, strip_outcome;
  rewrite ?path_remove_without, ?path_append_without;
  cbn;
  repeat case_match; simplify_eq; cbn in *; try reflexivity; try congruence.

Lemma strip_putvalue ch s :
  putvalue (without_slices cfg) ch (strip_slice s)
  = strip_slice (putvalue cfg ch s).
Proof. prim. Qed.
Lemma strip_end_value s :
  end_value (strip_slice s) = strip_slice (end_value s).
Proof. prim. Qed.
Lemma strip_name_append ch s :
  name_append ch (strip_slice s) = strip_slice (name_append ch s).
Proof. prim. Qed.
Lemma strip_do_path_remove t s :
  do_path_remove dm (without_slices cfg) t (strip_slice s)
  = strip_slice (do_path_remove dm cfg t s).
Proof. prim. Qed.
Lemma strip_do_path_append c s :
  do_path_append (without_slices cfg) c (strip_slice s)
  = strip_outcome (do_path_append cfg c s).
Proof. prim. Qed.
Lemma strip_clear_name s :
  clear_name (strip_slice s) = strip_slice (clear_name s).
Proof. reflexivity. Qed.
Lemma strip_terminal_line s :
  terminal_line (without_slices cfg) (strip_slice s)
  = strip_slice (terminal_line cfg s).
Proof. prim. Qed.
Lemma strip_emit w s : emit w (strip_slice s) = strip_slice (emit w s).
Proof. reflexivity. Qed.
Lemma strip_report d s : report d (strip_slice s) = strip_slice (report d s).
Proof. reflexivity. Qed.
Lemma strip_set_name s v : set_name (strip_slice s) v = strip_slice (set_name s v).
Proof. reflexivity. Qed.
Lemma strip_set_path s v : set_path (strip_slice s) v = strip_slice (set_path s v).
Proof. reflexivity. Qed.
Lemma strip_set_in_quotes s v :
  set_in_quotes (strip_slice s) v = strip_slice (set_in_quotes s v).
Proof. reflexivity. Qed.
Lemma strip_set_in_value s v :
  set_in_value (strip_slice s) v = strip_slice (set_in_value s v).
Proof. reflexivity. Qed.
Lemma strip_set_last_comma s v :
  set_last_comma (strip_slice s) v = strip_slice (set_last_comma s v).
Proof. reflexivity. Qed.
Lemma strip_set_protect s v :
  set_protect (strip_slice s) v = strip_slice (set_protect s v).
Proof. reflexivity. Qed.
Lemma strip_set_in_unicode s v :
  set_in_unicode (strip_slice s) v = strip_slice (set_in_unicode s v).
Proof. reflexivity. Qed.
Lemma strip_set_unicode s v :
  set_unicode (strip_slice s) v = strip_slice (set_unicode s v).
Proof. reflexivity. Qed.
Lemma strip_set_idx s v : set_idx (strip_slice s) v = strip_slice (set_idx s v).
Proof. reflexivity. Qed.
Lemma strip_set_linenum s v :
  set_linenum (strip_slice s) v = strip_slice (set_linenum s v).
Proof. reflexivity. Qed.

Lemma strip_names bs : forall s,
  fold_left (fun s b => name_append b s) bs (strip_slice s)
  = strip_slice (fold_left (fun s b => name_append b s) bs s).
Proof.
  induction bs as [|b bs IH]; intros s; cbn [fold_left]; [reflexivity|].
  rewrite strip_name_append. apply IH.
Qed.

Lemma strip_bind (o : outcome) (k0 k : state -> outcome) :
  (forall x, k0 (strip_slice x) = strip_outcome (k x)) ->
  bind (strip_outcome o) k0 = strip_outcome (bind o k).
Proof. intros H. destruct o; cbn; [apply H|reflexivity]. Qed.

Lemma strip_in_value s : in_value (strip_slice s) = in_value s.
Proof. reflexivity. Qed.
Lemma strip_idx s : idx (strip_slice s) = idx s.
Proof. reflexivity. Qed.
Lemma strip_path s : path (strip_slice s) = path s.
Proof. reflexivity. Qed.
Lemma strip_name s : name (strip_slice s) = name s.
Proof. reflexivity. Qed.
Lemma strip_protect s : protect (strip_slice s) = protect s.
Proof. reflexivity. Qed.
Lemma strip_in_unicode s : in_unicode (strip_slice s) = in_unicode s.
Proof. reflexivity. Qed.
Lemma strip_unicode s : unicode (strip_slice s) = unicode s.
Proof. reflexivity. Qed.
Lemma strip_last_comma s : last_comma (strip_slice s) = last_comma s.
Proof. reflexivity. Qed.
Lemma strip_linenum s : linenum (strip_slice s) = linenum s.
Proof. reflexivity. Qed.
Lemma strip_in_quotes s : in_quotes (strip_slice s) = in_quotes s.
Proof. reflexivity. Qed.
Lemma strip_gen_index : gen_index (without_slices cfg) = gen_index cfg.
Proof. reflexivity. Qed.
Lemma strip_multiline : multiline (without_slices cfg) = multiline cfg.
Proof. reflexivity. Qed.
Lemma strip_multiprefix : multiprefix (without_slices cfg) = multiprefix cfg.
Proof. reflexivity. Qed.

Hint Rewrite strip_putvalue strip_end_value strip_name_append
  strip_do_path_remove strip_do_path_append strip_clear_name
  strip_terminal_line strip_emit strip_report strip_set_name strip_set_path
  strip_set_in_quotes strip_set_in_value strip_set_last_comma
  strip_set_protect strip_set_in_unicode strip_set_unicode strip_set_idx
  strip_set_linenum strip_names strip_in_value strip_idx strip_path
  strip_name strip_protect strip_in_unicode strip_unicode strip_last_comma
  strip_linenum strip_in_quotes strip_gen_index strip_multiline
  strip_multiprefix : strip.

Ltac strips :=
  repeat (autorewrite with strip; cbn [strip_outcome bind];
          try reflexivity;
          try match goal with
              | |- context [if ?b then _ else _] =>
                  lazymatch b with
                  | context [if _ then _ else _] => fail
                  | _ => destruct b
                  end
              end).

Lemma strip_next_item s :
  next_item dm (without_slices cfg) (strip_slice s)
  = strip_outcome (next_item dm cfg s).
Proof. unfold next_item. cbv zeta. strips. Qed.

Lemma strip_on_comma s :
  on_comma dm (without_slices cfg) (strip_slice s)
  = strip_outcome (on_comma dm cfg s).
Proof.
  unfold on_comma. cbv zeta. autorewrite with strip.
  destruct (in_value (end_value s) =? 2); autorewrite with strip;
    rewrite strip_next_item; apply strip_bind; intros x; strips.
Qed.

Lemma strip_outside s ch :
  outside dm (without_slices cfg) (strip_slice s) ch
  = strip_outcome (outside dm cfg s ch).
Proof.
  unfold outside, on_begin_object, on_begin_array, on_colon, on_end,
    on_quote, on_other. cbv zeta.
  destruct ((ch =? chr " ") || (ch =? 9) || (ch =? 13)); [reflexivity|].
  destruct (ch =? NL); [reflexivity|].
  destruct (ch =? chr "{"); [strips|].
  destruct (ch =? chr "["); [strips|].
  destruct (ch =? chr ":").
  { autorewrite with strip. apply strip_bind. intros x. strips. }
  destruct (ch =? chr ","); [apply strip_on_comma|].
  destruct ((ch =? chr "}") || (ch =? chr "]")); [strips|].
  destruct (ch =? 34); strips.
Qed.

Lemma strip_unicode_digit s ch :
  unicode_digit dm (strip_slice s) ch = strip_outcome (unicode_digit dm s ch).
Proof.
  unfold unicode_digit, unicode_error. cbv zeta. autorewrite with strip.
  repeat case_match; strips.
Qed.

Lemma strip_on_char s ch :
  on_char (without_slices cfg) (strip_slice s) ch
  = strip_outcome (on_char cfg s ch).
Proof.
  unfold on_char. autorewrite with strip.
  destruct (protect s); [|strips].
  destruct (multiline cfg && (ch =? chr "n")); [strips|].
  destruct (negb (in_value s =? 0)); strips.
Qed.

Lemma strip_inside s ch :
  inside dm (without_slices cfg) (strip_slice s) ch
  = strip_outcome (inside dm cfg s ch).
Proof.
  unfold inside. cbv zeta. autorewrite with strip.
  destruct (negb (protect s) && (ch =? 34)); [strips|].
  destruct (protect s && (ch =? chr "u")); [strips|].
  destruct (negb (in_unicode s =? 0)); [apply strip_unicode_digit|].
  destruct (negb (protect s) && (ch =? chr "\")); [strips|].
  apply strip_on_char.
Qed.

Lemma strip_step s ch :
  step dm (without_slices cfg) (strip_slice s) ch
  = strip_outcome (step dm cfg s ch).
Proof.
  unfold step. autorewrite with strip.
  destruct (in_quotes s); [apply strip_inside|].
  rewrite strip_outside. apply strip_bind. intros x. strips.
Qed.

Lemma strip_run input : forall s,
  run dm (without_slices cfg) (strip_slice s) input
  = strip_outcome (run dm cfg s input).
Proof.
  induction input as [|ch input IH]; intros s; cbn [run]; [reflexivity|].
  rewrite strip_step. apply strip_bind. exact IH.
Qed.

End Strip.

(** X20. The slices chosen with [-s] change nothing of the primary
    output: the same writes are made, the same diagnostics, and the
    document ends in the same way, as without any slice. *)
Theorem slices_leave_output (dm : data_model) (cfg : config)
    (input : list byte) :
  let o := run dm cfg (init dm) input in
  let o0 := run dm (without_slices cfg) (init dm) input in
  outp (final o) = outp (final o0) /\ errs (final o) = errs (final o0) /\
  completed o = completed o0 /\ slicef (final o0) = None.
Proof.
  cbv zeta.
  pose proof (strip_run dm cfg input (init dm)) as H.
  change (strip_slice (init dm)) with (init dm) in H. rewrite H.
  destruct (run dm cfg (init dm) input); cbn; auto.
Qed.

(** ** Flat objects and arrays *)

Create HintDb flat.

#[local] Hint Unfold step inside outside on_char on_quote on_other on_colon on_comma
  on_end on_begin_object on_begin_array next_item putvalue end_value
  name_append clear_name emit write_slice stop_slice terminal_line
  do_path_append do_path_remove report reading : flat.

Ltac literal t :=
  lazymatch t with
  | chr _ => idtac
  | Z0 => idtac
  | Zpos _ => idtac
  | NL => idtac
  | NUL => idtac
  end.

Ltac chars :=
  repeat match goal with
         | |- context [Z.eqb ?a ?b] =>
             literal a; literal b;
             let v := eval vm_compute in (Z.eqb a b) in
             lazymatch v with
             | true => change (Z.eqb a b) with true
             | false => change (Z.eqb a b) with false
             end
         end.

Ltac simp :=
  repeat (autounfold with flat;
          cbn [bind set_name set_path set_in_quotes set_in_value
               set_last_comma set_protect set_in_unicode set_unicode set_idx
               set_valueout set_linenum set_outp set_slicefp set_slicef
               set_errs name path in_quotes in_value last_comma protect
               in_unicode unicode idx valueout linenum outp slicefp slicef
               errs negb andb orb fst snd];
          chars).

Ltac run_head :=
  match goal with
  | |- context [run _ _ _ ([?c] ++ ?rest)] =>
      change ([c] ++ rest) with (c :: rest); cbn [run]
  | |- context [run _ _ _ (([?c] ++ ?a) ++ ?b)] =>
      change (([c] ++ a) ++ b) with (c :: (a ++ b)); cbn [run]
  end.

Section Flat.

Variable dm : data_model.
Variable cfg : config.
Hypothesis no_slices : slices cfg = [].

Lemma no_start_slice ch s : start_slice cfg ch s = s.
Proof. unfold start_slice, num_slices. rewrite no_slices. reflexivity. Qed.

Lemma key_byte_facts (c : byte) :
  key_byte c = true ->
  (c =? 34) = false /\ (c =? chr "\") = false /\ c mod 256 = c /\
  (c =? NUL) = false.
Proof.
  unfold key_byte, plain_byte. intros H.
  apply andb_true_iff in H as [H H3]. apply andb_true_iff in H as [H H2].
  apply andb_true_iff in H as [H0 H1].
  apply negb_true_iff in H0, H1. apply Z.ltb_lt in H2, H3.
  repeat split; try assumption.
  - apply Z.mod_small. lia.
  - apply Z.eqb_neq. unfold NUL. lia.
Qed.

Lemma run_key (k : list byte) : forall p nm lc i vo ws,
  forallb key_byte k = true ->
  strlen nm + strlen k <= MAXBUF - 1 ->
  run dm cfg (reading p nm true 0 lc i vo ws) k
  = Done (reading p (nm ++ k) true 0 lc i vo ws).
Proof.
  induction k as [|c k IH]; intros p nm lc i vo ws Hk Hlen.
  - rewrite app_nil_r. reflexivity.
  - cbn [forallb] in Hk. apply andb_true_iff in Hk as [Hc Hk].
    destruct (key_byte_facts c Hc) as (H34 & Hbs & Hmod & _).
    rewrite strlen_cons in Hlen. pose proof (strlen_nonneg k).
    cbn [run]. simp. rewrite H34, Hbs. simp.
    unfold str_append.
    destruct (Z.eqb_spec (strlen nm) (MAXBUF - 1)); [lia|].
    rewrite Hmod. simp.
    match goal with
    | |- run _ _ ?s _ = _ =>
        change s with (reading p (nm ++ [c]) true 0 lc i vo ws)
    end.
    rewrite IH; [|assumption|rewrite strlen_app; change (strlen [c]) with 1; lia].
    rewrite <- app_assoc. reflexivity.
Qed.

Lemma value_byte_facts (c : byte) :
  value_byte cfg c = true ->
  (c =? 34) = false /\ (c =? chr "\") = false /\
  multiprefix cfg && (c =? NL) = false.
Proof.
  unfold value_byte, plain_byte. intros H.
  apply andb_true_iff in H as [H H2]. apply andb_true_iff in H as [H0 H1].
  apply negb_true_iff in H0, H1, H2. auto.
Qed.

Lemma run_value_bytes (v : list byte) : forall p nm v0 lc i ws,
  forallb (value_byte cfg) v = true ->
  (v0 =? 0) = false ->
  run dm cfg (reading p nm true v0 lc i true ws) v
  = Done (reading p nm true v0 lc i true (ws ++ map Char v)).
Proof.
  induction v as [|c v IH]; intros p nm v0 lc i ws Hv Hv0.
  - cbn [map]. rewrite app_nil_r. reflexivity.
  - cbn [forallb] in Hv. apply andb_true_iff in Hv as [Hc Hv].
    destruct (value_byte_facts c Hc) as (H34 & Hbs & Hnl).
    cbn [run]. simp. rewrite H34, Hbs, Hv0, Hnl. simp.
    match goal with
    | |- run _ _ ?s _ = _ =>
        change s with (reading p nm true v0 lc i true (ws ++ [Char c]))
    end.
    rewrite IH by assumption. cbn [map]. rewrite <- app_assoc. reflexivity.
Qed.

Lemma literal_char_facts (c : byte) :
  literal_char c = true ->
  (c =? chr " ") || (c =? 9) || (c =? 13) = false /\ (c =? NL) = false /\
  (c =? chr "{") = false /\ (c =? chr "[") = false /\
  (c =? chr ":") = false /\ (c =? chr ",") = false /\
  (c =? chr "}") || (c =? chr "]") = false /\ (c =? 34) = false.
Proof.
  unfold literal_char, is_ws. intros H. apply negb_true_iff in H.
  repeat (apply orb_false_iff in H as [H ?]).
  repeat split; try assumption; repeat (apply orb_false_iff; split);
    assumption.
Qed.

Lemma step_literal (c : byte) p nm v0 lc i vo ws :
  literal_char c = true ->
  (v0 =? 0) = false ->
  step dm cfg (reading p nm false v0 lc i vo ws) c
  = Done (reading p nm false v0 false i true
            (ws ++ [if vo then Char c else ValueStart p c])).
Proof.
  intros Hc Hv0.
  destruct (literal_char_facts c Hc) as (Hb & Hn & H1 & H2 & H3 & H4 & H5 & H6).
  simp. rewrite Hb, Hn, H1, H2, H3, H4, H5, H6, Hv0. simp.
  destruct vo; simp; rewrite ?no_start_slice; reflexivity.
Qed.

Lemma run_literal_rest (t : list byte) : forall p nm v0 lc i ws,
  forallb literal_char t = true ->
  (v0 =? 0) = false ->
  run dm cfg (reading p nm false v0 lc i true ws) t
  = Done (reading p nm false v0 (match t with [] => lc | _ :: _ => false end) i true
            (ws ++ map Char t)).
Proof.
  induction t as [|c t IH]; intros p nm v0 lc i ws Ht Hv0.
  - cbn [map]. rewrite app_nil_r. reflexivity.
  - cbn [forallb] in Ht. apply andb_true_iff in Ht as [Hc Ht].
    cbn [run]. rewrite step_literal by assumption. cbn [bind].
    rewrite IH by assumption. cbn [map]. rewrite <- app_assoc.
    destruct t; reflexivity.
Qed.

Lemma run_scalar (x : scalar) p nm v0 lc i ws :
  scalar_ok cfg x = true ->
  (v0 =? 0) = false ->
  run dm cfg (reading p nm false v0 lc i false ws) (scalar_text x)
  = Done (reading p nm false v0 false i true
            (ws ++ record_writes p (scalar_text x))).
Proof.
  intros Hx Hv0. destruct x as [t|v]; cbn [scalar_ok scalar_text] in *.
  - apply andb_true_iff in Hx as [Hne Ht].
    destruct t as [|c t]; [discriminate|].
    cbn [forallb] in Ht. apply andb_true_iff in Ht as [Hc Ht].
    cbn [run record_writes]. rewrite step_literal by assumption.
    cbn [bind]. rewrite run_literal_rest by assumption.
    rewrite <- app_assoc. destruct t; reflexivity.
  - cbn [app run record_writes]. simp. chars. rewrite Hv0. simp.
    rewrite no_start_slice. simp.
    rewrite run_app.
    match goal with
    | |- bind (run _ _ ?s _) _ = _ =>
        change s with (reading p nm true v0 false i true
                         (ws ++ [ValueStart p 34]))
    end.
    rewrite run_value_bytes by assumption. cbn [bind run]. simp. chars.
    rewrite Hv0. simp. unfold reading. rewrite map_app, <- !app_assoc.
    reflexivity.
Qed.

Lemma cstring_key (k : list byte) :
  forallb key_byte k = true -> cstring k = k.
Proof.
  induction k as [|c k IH]; intros H; cbn [cstring]; [reflexivity|].
  cbn [forallb] in H. apply andb_true_iff in H as [Hc Hk].
  destruct (key_byte_facts c Hc) as (_ & _ & _ & H0). rewrite H0, IH by assumption.
  reflexivity.
Qed.

Lemma key_ok_facts (k : list byte) :
  key_ok cfg k = true ->
  exists r, rendered_component cfg k = Some r /\ r <> [] /\
            strlen r + 2 <= MAXBUF /\ slashes_hidden cfg r false = true /\
            forallb key_byte k = true /\ strlen k <= MAXBUF - 1.
Proof.
  unfold key_ok. intros H. apply andb_true_iff in H as [H Hr].
  apply andb_true_iff in H as [Hk Hlen].
  destruct (rendered_component cfg k) as [r|]; [|discriminate].
  apply andb_true_iff in Hr as [Hr Hh]. apply andb_true_iff in Hr as [Hne Hl].
  exists r. apply negb_true_iff, bool_decide_eq_false in Hne.
  apply Z.leb_le in Hlen, Hl. auto 10.
Qed.

Lemma path_append_root (k r : list byte) :
  rendered_component cfg k = Some r -> r <> [] -> strlen r + 2 <= MAXBUF ->
  path_append cfg k [] = Appended ([chr "/"] ++ r).
Proof.
  intros Hr Hne Hl. rewrite (path_append_rendered cfg k [] r Hr).
  destruct (Z.eqb_spec (strlen r) 0) as [E|_];
    [apply strlen_zero in E; contradiction|].
  change (strlen []) with 0.
  destruct (Z.ltb_spec MAXBUF (0 + strlen r + 2)); [lia|reflexivity].
Qed.

Lemma path_remove_root (r : list byte) (i : Z) :
  slashes_hidden cfg r false = true ->
  path_remove dm cfg ([chr "/"] ++ r) false i = ([], i).
Proof.
  intros Hh.
  rewrite (path_remove_untracked dm cfg ([chr "/"] ++ r) 0 i); [reflexivity|].
  apply (find_last_slash_appended cfg [] r); [reflexivity|assumption].
Qed.

Lemma path_remove_empty (t : bool) (i : Z) :
  path_remove dm cfg [] t i = ([], i).
Proof. reflexivity. Qed.

(** A member: the key becomes the path, the scalar its record. *)
Lemma run_member (k r : list byte) (x : scalar) lc i ws :
  key_ok cfg k = true ->
  rendered_component cfg k = Some r ->
  scalar_ok cfg x = true ->
  run dm cfg (reading [] [] false 0 lc i false ws) (member_text (k, x))
  = Done (reading ([chr "/"] ++ r) [] false 1 false i true
            (ws ++ record_writes ([chr "/"] ++ r) (scalar_text x))).
Proof.
  intros Hk Hr Hx.
  destruct (key_ok_facts k Hk) as (r' & Hr' & Hne & Hl & Hh & Hkb & Hkl).
  rewrite Hr in Hr'. injection Hr' as <-.
  unfold member_text. cbn [fst snd app run]. simp. chars. simp.
  rewrite run_app.
  match goal with
  | |- bind (run _ _ ?s _) _ = _ =>
      change s with (reading [] [] true 0 false i false ws)
  end.
  rewrite run_key by (assumption || (change (strlen []) with 0; lia)).
  cbn [bind app run]. simp. chars. simp.
  rewrite cstring_key by assumption.
  rewrite (path_append_root k r) by assumption. simp.
  match goal with
  | |- run _ _ ?s _ = _ =>
      change s with (reading ([chr "/"] ++ r) [] false 1 false i false ws)
  end.
  apply run_scalar; [assumption|reflexivity].
Qed.

Lemma step_comma_member (r : list byte) i ws :
  slashes_hidden cfg r false = true ->
  step dm cfg (reading ([chr "/"] ++ r) [] false 1 false i true ws) (chr ",")
  = Done (reading [] [] false 0 true (ULONG_MAX dm) false (ws ++ [Char NL])).
Proof.
  intros Hh. simp. chars. simp.
  rewrite path_remove_root by assumption. simp. reflexivity.
Qed.

Lemma step_end_scalar (ch : byte) (comp : list byte) v0 i ws :
  ch = chr "}" \/ ch = chr "]" ->
  (v0 =? 0) = false ->
  slashes_hidden cfg comp false = true ->
  step dm cfg (reading ([chr "/"] ++ comp) [] false v0 false i true ws) ch
  = Done (reading [] [] false 0 false
            (if ch =? chr "]" then ULONG_MAX dm else i) false
            (ws ++ [Char NL])).
Proof.
  intros Hch Hv0 Hh. destruct Hch as [-> | ->]; simp; rewrite Hv0; simp;
    rewrite path_remove_root by assumption; simp;
    rewrite path_remove_empty; simp; reflexivity.
Qed.

Lemma step_begin_object lc i ws :
  step dm cfg (reading [] [] false 0 lc i false ws) (chr "{")
  = Done (reading [] [] false 0 false i false ws).
Proof.
  simp. change (strlen []) with 0. simp. rewrite andb_false_r. reflexivity.
Qed.

Lemma sink_bytes_app (a b : list write) :
  sink_bytes (a ++ b) = sink_bytes a ++ sink_bytes b.
Proof. unfold sink_bytes. rewrite map_app, concat_app. reflexivity. Qed.

Lemma sink_bytes_chars (v : list byte) : sink_bytes (map Char v) = v.
Proof.
  unfold sink_bytes. induction v as [|c v IH]; cbn; [reflexivity|].
  f_equal. exact IH.
Qed.

Lemma scalar_text_nonempty (x : scalar) :
  scalar_ok cfg x = true -> scalar_text x <> [].
Proof.
  destruct x as [t|v]; cbn; [|discriminate].
  intros H. apply andb_true_iff in H as [H _].
  apply negb_true_iff, bool_decide_eq_false in H. exact H.
Qed.

Lemma sink_bytes_record (p : list byte) (x : scalar) :
  scalar_ok cfg x = true ->
  sink_bytes (record_writes p (scalar_text x) ++ [Char NL]) = record_line p x.
Proof.
  intros Hx. apply scalar_text_nonempty in Hx. unfold record_line.
  destruct (scalar_text x) as [|c t]; [contradiction|].
  rewrite sink_bytes_app. cbn [record_writes].
  change (sink_bytes (ValueStart p c :: map Char t))
    with ((p ++ bytes_of_string " = " ++ [c]) ++ sink_bytes (map Char t)).
  rewrite sink_bytes_chars. change (sink_bytes [Char NL]) with [NL].
  rewrite <- !app_assoc. reflexivity.
Qed.

(** The members of an object after the first, and its closing brace. *)
Lemma run_members (ms : list (list byte * scalar)) : forall lc i ws,
  ms <> [] ->
  forallb (fun m => key_ok cfg (fst m) && scalar_ok cfg (snd m)) ms = true ->
  exists i' ws',
    run dm cfg (reading [] [] false 0 lc i false ws)
      (separated (map member_text ms) ++ [chr "}"])
    = Done (reading [] [] false 0 false i' false ws') /\
    sink_bytes ws' = sink_bytes ws ++ concat (map (member_line cfg) ms).
Proof.
  induction ms as [|[k x] ms IH]; intros lc i ws Hne Hok; [contradiction|].
  cbn [forallb fst snd] in Hok. apply andb_true_iff in Hok as [Hm Hok].
  apply andb_true_iff in Hm as [Hk Hx].
  destruct (key_ok_facts k Hk) as (r & Hr & _ & _ & Hh & _ & _).
  assert (Hline : forall ws0,
            sink_bytes (ws0 ++ record_writes ([chr "/"] ++ r) (scalar_text x)
                          ++ [Char NL])
            = sink_bytes ws0 ++ member_line cfg (k, x)).
  { intros ws0. rewrite sink_bytes_app, sink_bytes_record by assumption.
    unfold member_line. cbn [fst snd]. rewrite Hr. reflexivity. }
  cbn [map separated]. destruct ms as [|m ms].
  - cbn [map]. rewrite run_app, (run_member k r) by assumption.
    cbn [bind run].
    rewrite (step_end_scalar (chr "}") r 1 i)
      by (assumption || reflexivity || (left; reflexivity)).
    cbn [bind]. eexists _, _. split; [reflexivity|].
    rewrite <- app_assoc, Hline. cbn [map concat]. rewrite app_nil_r.
    reflexivity.
  - cbn [map]. rewrite <- !app_assoc, run_app, (run_member k r) by assumption.
    cbn [bind]. run_head. rewrite step_comma_member by assumption.
    cbn [bind].
    destruct (IH true (ULONG_MAX dm)
                ((ws ++ record_writes ([chr "/"] ++ r) (scalar_text x))
                   ++ [Char NL]))
      as (i' & ws' & Hrun & Hbytes); [discriminate|assumption|].
    cbn [map] in Hrun. rewrite Hrun. exists i', ws'. split; [reflexivity|].
    rewrite Hbytes, <- app_assoc, Hline. cbn [map concat].
    rewrite <- app_assoc. reflexivity.
Qed.

Lemma run_flat_object (ms : list (list byte * scalar)) :
  forallb (fun m => key_ok cfg (fst m) && scalar_ok cfg (snd m)) ms = true ->
  exists s,
    run dm cfg (init dm) (flat_object ms) = Done s /\
    sink_bytes (outp s) = concat (map (member_line cfg) ms) /\
    path s = [] /\ errs s = [].
Proof.
  intros Hok. unfold flat_object. cbn [app run].
  change (init dm) with (reading [] [] false 0 false (ULONG_MAX dm) false []).
  rewrite step_begin_object. cbn [bind].
  destruct ms as [|m ms].
  - cbn [map separated app run]. simp. chars. simp.
    rewrite path_remove_empty. simp. eexists. split; [reflexivity|].
    cbn. auto.
  - destruct (run_members (m :: ms) false (ULONG_MAX dm) [])
      as (i' & ws' & Hrun & Hbytes); [discriminate|assumption|].
    rewrite Hrun. eexists. split; [reflexivity|]. cbn [outp path errs reading].
    auto.
Qed.


Lemma utoa_length (fuel : nat) : forall n,
  (length (utoa fuel n []) <= fuel)%nat.
Proof.
  induction fuel as [|f IH]; intros n; [cbn; lia|].
  rewrite utoa_step. destruct (n / 10 =? 0); [cbn; lia|].
  rewrite length_app. cbn [length]. specialize (IH (n / 10)). lia.
Qed.

Lemma digits_free (s : list byte) :
  forallb isdigit s = true -> free_of (chr "_") s = true.
Proof.
  unfold free_of. induction s as [|c s IH]; intros H; cbn [forallb] in *;
    [reflexivity|].
  apply andb_true_iff in H as [Hc Hs]. rewrite IH by assumption.
  unfold isdigit in Hc. apply andb_true_iff in Hc as [H1 H2].
  apply Z.leb_le in H1, H2. change (chr "_") with 95. unfold NUL.
  destruct (Z.eqb_spec c 95); [lia|]. destruct (Z.eqb_spec c 0); [lia|].
  reflexivity.
Qed.

Lemma element_component_facts (n : nat) :
  rendered_component cfg (element_component cfg n)
  = Some (element_component cfg n) /\
  element_component cfg n <> [] /\
  strlen (element_component cfg n) + 2 <= MAXBUF /\
  slashes_hidden cfg (element_component cfg n) false = true.
Proof.
  assert (Hlen : strlen (element_component cfg n) <= 29).
  { unfold element_component, strlen. destruct (gen_index cfg).
    - pose proof (utoa_length 29 (Z.of_nat n)). unfold fmt_lu. lia.
    - cbn. lia. }
  assert (Hfree : free_of (chr "_") (element_component cfg n) = true).
  { unfold element_component. destruct (gen_index cfg); [|reflexivity].
    apply digits_free, utoa_digits. }
  repeat split.
  - unfold rendered_component. destruct (unescape cfg); [|reflexivity].
    rewrite str_unescape_free by (assumption || (unfold MAXBUF; lia)).
    destruct (Z.leb_spec (strlen (element_component cfg n)) (MAXBUF - 3));
      [reflexivity|unfold MAXBUF in *; lia].
  - unfold element_component. destruct (gen_index cfg); [|discriminate].
    apply utoa_nonempty.
  - unfold MAXBUF. lia.
  - unfold element_component. destruct (gen_index cfg).
    + apply digits_hidden, utoa_digits.
    + cbn. rewrite andb_false_r. reflexivity.
Qed.

Lemma path_append_element (n : nat) :
  path_append cfg (element_component cfg n) []
  = Appended ([chr "/"] ++ element_component cfg n).
Proof.
  destruct (element_component_facts n) as (Hr & Hne & Hl & _).
  apply path_append_root; assumption.
Qed.

Lemma path_remove_element (n : nat) (i : Z) :
  Z.of_nat n <= ULONG_MAX dm ->
  path_remove dm cfg ([chr "/"] ++ element_component cfg n) true i
  = ([], if gen_index cfg then Z.of_nat n else 1).
Proof.
  intros Hn.
  pose proof (path_remove_index dm cfg [] (Z.of_nat n - 1) i eq_refl) as H.
  unfold index_component in H.
  replace (Z.of_nat n - 1 + 1) with (Z.of_nat n) in H by lia.
  apply H. lia.
Qed.

Lemma ULONG_MAX_above_1 : 1 < ULONG_MAX dm.
Proof. destruct dm; reflexivity. Qed.

Lemma step_begin_array i ws :
  step dm cfg (reading [] [] false 0 false i false ws) (chr "[")
  = Done (reading ([chr "/"] ++ element_component cfg 0) [] false 2 false i
            false ws).
Proof.
  simp. change (strlen []) with 0. simp.
  rewrite andb_false_r.
  change (if gen_index cfg then bytes_of_string "0" else bytes_of_string "#")
    with (element_component cfg 0).
  rewrite path_append_element. simp. reflexivity.
Qed.

Lemma step_comma_element (n : nat) i ws :
  Z.of_nat n < ULONG_MAX dm ->
  step dm cfg (reading ([chr "/"] ++ element_component cfg n) [] false 2 false
                 i true ws) (chr ",")
  = Done (reading ([chr "/"] ++ element_component cfg (S n)) [] false 2 true
            (ULONG_MAX dm) false (ws ++ [Char NL])).
Proof.
  intros Hn. pose proof ULONG_MAX_above_1 as H1.
  pose proof (path_append_element (S n)) as Ha.
  simp. rewrite path_remove_element by lia. simp.
  unfold element_component in *.
  destruct (gen_index cfg); simp.
  - destruct (Z.ltb_spec (Z.of_nat n) (ULONG_MAX dm)); [|lia]. simp.
    replace (Z.of_nat n + 1) with (Z.of_nat (S n)) by lia.
    rewrite Ha. simp. reflexivity.
  - destruct (Z.ltb_spec 1 (ULONG_MAX dm)); [|lia]. simp.
    rewrite Ha. simp. reflexivity.
Qed.

Lemma element_lines_line (n : nat) (x : scalar) (ws0 : list write) :
  scalar_ok cfg x = true ->
  sink_bytes (ws0 ++ record_writes ([chr "/"] ++ element_component cfg n)
                       (scalar_text x) ++ [Char NL])
  = sink_bytes ws0 ++ element_line cfg n x.
Proof.
  intros Hx. rewrite sink_bytes_app, sink_bytes_record by assumption.
  reflexivity.
Qed.

(** The elements of an array from the one numbered [n], and its
    closing bracket. *)
Lemma run_elements (xs : list scalar) : forall n lc i ws,
  xs <> [] ->
  forallb (scalar_ok cfg) xs = true ->
  Z.of_nat (n + length xs) <= ULONG_MAX dm ->
  exists i' ws',
    run dm cfg (reading ([chr "/"] ++ element_component cfg n) [] false 2 lc i
                  false ws)
      (separated (map scalar_text xs) ++ [chr "]"])
    = Done (reading [] [] false 0 false i' false ws') /\
    sink_bytes ws' = sink_bytes ws ++ element_lines cfg n xs.
Proof.
  induction xs as [|x xs IH]; intros n lc i ws Hne Hok Hlen; [contradiction|].
  cbn [forallb] in Hok. apply andb_true_iff in Hok as [Hx Hok].
  cbn [length] in Hlen.
  destruct (element_component_facts n) as (_ & _ & _ & Hh).
  cbn [map separated]. destruct xs as [|y xs].
  - cbn [map]. rewrite run_app, run_scalar by (assumption || reflexivity).
    cbn [bind run].
    rewrite (step_end_scalar (chr "]") (element_component cfg n) 2 i)
      by (assumption || reflexivity || (right; reflexivity)).
    cbn [bind]. eexists _, _. split; [reflexivity|].
    rewrite <- app_assoc, element_lines_line by assumption.
    cbn [element_lines]. rewrite app_nil_r. reflexivity.
  - cbn [map]. rewrite <- !app_assoc, run_app, run_scalar
      by (assumption || reflexivity).
    cbn [bind]. run_head.
    rewrite step_comma_element by (cbn [length] in Hlen; lia).
    cbn [bind].
    destruct (IH (S n) true (ULONG_MAX dm)
                ((ws ++ record_writes ([chr "/"] ++ element_component cfg n)
                          (scalar_text x)) ++ [Char NL]))
      as (i' & ws' & Hrun & Hbytes);
      [discriminate|assumption|cbn [length] in *; lia|].
    cbn [map] in Hrun. rewrite Hrun. exists i', ws'. split; [reflexivity|].
    rewrite Hbytes, <- app_assoc, element_lines_line by assumption.
    cbn [element_lines]. rewrite <- app_assoc. reflexivity.
Qed.

Lemma run_flat_array (xs : list scalar) :
  forallb (scalar_ok cfg) xs = true ->
  Z.of_nat (length xs) <= ULONG_MAX dm ->
  exists s,
    run dm cfg (init dm) (flat_array xs) = Done s /\
    sink_bytes (outp s) = element_lines cfg 0 xs /\
    path s = [] /\ errs s = [].
Proof.
  intros Hok Hlen. unfold flat_array. cbn [app run].
  change (init dm) with (reading [] [] false 0 false (ULONG_MAX dm) false []).
  rewrite step_begin_array. cbn [bind].
  destruct (element_component_facts 0) as (_ & _ & _ & Hh).
  destruct xs as [|x xs].
  - cbn [map separated]. change ([] ++ [chr "]"]) with [chr "]"]. cbn [run].
    simp. rewrite path_remove_root by assumption. simp.
    rewrite path_remove_empty. simp. eexists. split; [reflexivity|].
    cbn. auto.
  - destruct (run_elements (x :: xs) 0 false (ULONG_MAX dm) [])
      as (i' & ws' & Hrun & Hbytes); [discriminate|assumption|assumption|].
    rewrite Hrun. eexists. split; [reflexivity|]. cbn [outp path errs reading].
    auto.
Qed.


End Flat.

Section Transfer.

Variable dm : data_model.
Variable cfg : config.

Lemma slashes_hidden_without (s : list byte) : forall e,
  slashes_hidden (without_slices cfg) s e = slashes_hidden cfg s e.
Proof.
  induction s as [|c s IH]; intros e; cbn [slashes_hidden]; [reflexivity|].
  change (unescape (without_slices cfg)) with (unescape cfg).
  rewrite !IH. reflexivity.
Qed.

Lemma key_ok_without (k : list byte) :
  key_ok (without_slices cfg) k = key_ok cfg k.
Proof.
  unfold key_ok.
  change (rendered_component (without_slices cfg) k)
    with (rendered_component cfg k).
  destruct (rendered_component cfg k); [|reflexivity].
  rewrite slashes_hidden_without. reflexivity.
Qed.

Lemma members_ok_without (ms : list (list byte * scalar)) :
  forallb (fun m => key_ok (without_slices cfg) (fst m)
                    && scalar_ok (without_slices cfg) (snd m)) ms
  = forallb (fun m => key_ok cfg (fst m) && scalar_ok cfg (snd m)) ms.
Proof.
  induction ms as [|m ms IH]; cbn [forallb]; [reflexivity|].
  rewrite IH, key_ok_without. reflexivity.
Qed.

Lemma element_lines_without (xs : list scalar) : forall n,
  element_lines (without_slices cfg) n xs = element_lines cfg n xs.
Proof.
  induction xs as [|x xs IH]; intros n; cbn [element_lines]; [reflexivity|].
  rewrite IH. reflexivity.
Qed.

(** What a run without slices ends with, the run with them ends with
    too, the slice stream apart. *)
Lemma run_with_slices (input : list byte) (s0 : state) :
  run dm (without_slices cfg) (init dm) input = Done s0 ->
  exists s, run dm cfg (init dm) input = Done s /\
            outp s = outp s0 /\ path s = path s0 /\ errs s = errs s0.
Proof.
  intros H. pose proof (strip_run dm cfg input (init dm)) as Hs.
  change (strip_slice (init dm)) with (init dm) in Hs. rewrite H in Hs.
  destruct (run dm cfg (init dm) input) as [s|]; [|discriminate].
  injection Hs as ->. exists s. auto.
Qed.

End Transfer.

(** X21. An object of members with plain keys and scalar values is
    converted to one record per member, in order: the slash, the key
    as [path_append] renders it, [ = ], the value as it is written,
    and a newline. Nothing else is written and the path is empty
    again. *)
Theorem flat_object_records (dm : data_model) (cfg : config)
    (ms : list (list byte * scalar)) :
  forallb (fun m => key_ok cfg (fst m) && scalar_ok cfg (snd m)) ms = true ->
  exists s,
    run dm cfg (init dm) (flat_object ms) = Done s /\
    sink_bytes (outp s) = concat (map (member_line cfg) ms) /\
    path s = [] /\ errs s = [].
Proof.
  intros Hok.
  destruct (run_flat_object dm (without_slices cfg) eq_refl ms)
    as (s0 & Hrun & Hout & Hpath & Herrs).
  { rewrite members_ok_without. exact Hok. }
  destruct (run_with_slices dm cfg _ _ Hrun) as (s & Hs & Ho & Hp & He).
  exists s. rewrite Ho, Hp, He. auto.
Qed.

Lemma flat_object_records_witness :
  exists s,
    run LP64 slice_config (init LP64) (json "{'a':1,'b c':'x y'}") = Done s /\
    sink_bytes (outp s) = json "/a = 1" ++ [NL] ++ json "/b c = 'x y'" ++ [NL].
Proof.
  destruct (flat_object_records LP64 slice_config
              [(bytes_of_string "a", Literal (bytes_of_string "1"));
               (bytes_of_string "b c", Quoted (bytes_of_string "x y"))])
    as (s & Hrun & Hout & _).
  - vm_compute. reflexivity.
  - exists s. split; [exact Hrun|exact Hout].
Defined.

(** X22. An array of scalars is converted to one record per element,
    in order, at the paths [/0], [/1], ... (at [/#] with [-I]), as
    long as the number of elements does not exceed [ULONG_MAX]. *)
Theorem flat_array_records (dm : data_model) (cfg : config)
    (xs : list scalar) :
  forallb (scalar_ok cfg) xs = true ->
  Z.of_nat (length xs) <= ULONG_MAX dm ->
  exists s,
    run dm cfg (init dm) (flat_array xs) = Done s /\
    sink_bytes (outp s) = element_lines cfg 0 xs /\
    path s = [] /\ errs s = [].
Proof.
  intros Hok Hlen.
  destruct (run_flat_array dm (without_slices cfg) eq_refl xs Hok Hlen)
    as (s0 & Hrun & Hout & Hpath & Herrs).
  destruct (run_with_slices dm cfg _ _ Hrun) as (s & Hs & Ho & Hp & He).
  exists s. rewrite Ho, Hp, He, <- (element_lines_without cfg). auto.
Qed.

Lemma flat_array_records_witness :
  exists s,
    run ILP32 unescape_config (init ILP32) (json "[10,'x',true]") = Done s /\
    sink_bytes (outp s)
    = json "/0 = 10" ++ [NL] ++ json "/1 = 'x'" ++ [NL]
        ++ json "/2 = true" ++ [NL].
Proof.
  destruct (flat_array_records ILP32 unescape_config
              [Literal (bytes_of_string "10"); Quoted (bytes_of_string "x");
               Literal (bytes_of_string "true")])
    as (s & Hrun & Hout & _).
  - vm_compute. reflexivity.
  - vm_compute. discriminate.
  - exists s. split; [exact Hrun|exact Hout].
Defined.

(** ** The decoder of code units *)

(** X23. Wherever the fourth digit of an escape is read, the code
    unit is below 0x10000: the branch for code points from 0x10000 and
    the [goto unicode_error] after it are never reached, and what is
    appended is decided by the first four branches alone. *)
Theorem four_byte_branch_unreachable (dm : data_model) (cfg : config)
    (input : list byte) (s : state) (d : Z) :
  run dm cfg (init dm) input = Done s ->
  in_unicode s = 4 -> 0 <= d < 16 ->
  let u := Z.lor (Z.shiftl (unicode s) 4) d in
  0 <= u < 0x10000 /\
  utf8_appends dm u =
    if u <? 128 then Some [u]
    else if u <? 2048 then Some [192 + u / 64; 128 + u mod 64]
    else if surrogate_test dm u then None
    else Some [224 + u / 4096; 128 + u / 4096 mod 64;
               128 + u / 64 mod 64; 128 + u mod 64].
Proof. apply decoded_code_unit. Qed.

Lemma four_byte_branch_unreachable_witness :
  let s := final (run LP64 default_config (init LP64) (json "{'a':'\uFFF")) in
  let u := Z.lor (Z.shiftl (unicode s) 4) 13 in
  0 <= u < 0x10000 /\
  utf8_appends LP64 u =
    if u <? 128 then Some [u]
    else if u <? 2048 then Some [192 + u / 64; 128 + u mod 64]
    else if surrogate_test LP64 u then None
    else Some [224 + u / 4096; 128 + u / 4096 mod 64;
               128 + u / 64 mod 64; 128 + u mod 64].
Proof.
  intros s u.
  apply (four_byte_branch_unreachable LP64 default_config
           (json "{'a':'\uFFF") s 13).
  - vm_compute. reflexivity.
  - vm_compute. reflexivity.
  - lia.
Defined.

(** X24. What an escape appends, by the range of its code unit: below
    0x800 the UTF-8 encoding; for a surrogate nothing, the document is
    abandoned; from 0xE000 the three bytes of the encoding with the
    second byte of the four-byte form put after the first; from 0x800
    to 0xD7FF the same four bytes where [long] has 32 bits and a
    unicode error where it has 64. *)
Theorem escape_bytes_by_range (dm : data_model) (u : Z) :
  0 <= u < 0x10000 ->
  (u < 0x800 -> utf8_appends dm u = Some (utf8_encode u)) /\
  (0xD800 <= u < 0xE000 -> utf8_appends dm u = None) /\
  (0x800 <= u < 0xD800 ->
   utf8_appends LP64 u = None /\
   exists b0 b1 b2,
     utf8_encode u = [b0; b1; b2] /\
     utf8_appends ILP32 u = Some [b0; 128 + u / 4096 mod 64; b1; b2]) /\
  (0xE000 <= u ->
   exists b0 b1 b2,
     utf8_encode u = [b0; b1; b2] /\
     utf8_appends dm u = Some [b0; 128 + u / 4096 mod 64; b1; b2]).
Proof.
  intros Hu. change 0x10000 with 65536 in Hu.
  split; [|split; [|split]].
  - intros H. apply utf8_appends_below_0x800. lia.
  - intros H. change 0xD800 with 55296 in H. change 0xE000 with 57344 in H.
    unfold utf8_appends, surrogate_test.
    destruct (Z.ltb_spec u 128); [lia|].
    destruct (Z.ltb_spec u 2048); [lia|].
    destruct dm.
    + rewrite Z.mod_small by lia.
      destruct (Z.ltb_spec (u - 55296) 2048); [reflexivity|lia].
    + destruct (Z.ltb_spec (u - 55296) 2048); [reflexivity|lia].
  - intros H. change 0x800 with 2048 in H. change 0xD800 with 55296 in H.
    split.
    + apply utf8_appends_lp64_refuses. change 0x800 with 2048.
      change 0xE000 with 57344. lia.
    + rewrite utf8_encode_arith by (change 0x10000 with 65536; lia).
      unfold utf8_appends, surrogate_test.
      destruct (Z.ltb_spec u 128); [lia|].
      destruct (Z.ltb_spec u 2048); [lia|].
      assert (Hm : (u - 55296) mod 2 ^ 32 = u - 55296 + 2 ^ 32).
      { symmetry. apply (Z.mod_unique _ _ (-1)); lia. }
      rewrite Hm.
      destruct (Z.ltb_spec (u - 55296 + 2 ^ 32) 2048); [lia|].
      destruct (Z.ltb_spec u 65536); [|lia].
      do 3 eexists. split; reflexivity.
  - intros H. apply utf8_appends_from_0xE000. change 0x10000 with 65536. lia.
Qed.

Lemma escape_bytes_by_range_witness :
  utf8_appends ILP32 0x20AC = Some [226; 130; 130; 172] /\
  utf8_appends LP64 0x20AC = None.
Proof.
  destruct (escape_bytes_by_range ILP32 0x20AC) as (_ & _ & H & _);
    [vm_compute; split; [discriminate|reflexivity]|].
  destruct H as (Hl & b0 & b1 & b2 & He & Hi);
    [vm_compute; split; [discriminate|reflexivity]|].
  split; [|exact Hl].
  rewrite Hi. vm_compute in He. injection He as <- <- <-. reflexivity.
Defined.

(** ** The output file of a document *)



(** ** Blanks between tokens *)

Lemma step_blank (dm : data_model) (cfg : config) (s : state) (c : byte) :
  in_quotes s = false -> last_comma s = false -> is_blank c = true ->
  step dm cfg s c = Done s.
Proof.
  unfold is_blank. intros Hq Hl Hc. unfold step, outside.
  rewrite Hq, Hc. cbn [bind].
  destruct (Z.eqb_spec c (chr ",")) as [->|_]; [discriminate|].
  destruct s; cbn in *; subst; reflexivity.
Qed.

Lemma run_blanks (dm : data_model) (cfg : config) (bl : list byte) :
  forall s,
    in_quotes s = false -> last_comma s = false ->
    forallb is_blank bl = true ->
    run dm cfg s bl = Done s.
Proof.
  induction bl as [|c bl IH]; intros s Hq Hl Hb; [reflexivity|].
  cbn [forallb] in Hb. apply andb_true_iff in Hb as [Hc Hb].
  cbn [run]. rewrite step_blank by assumption. cbn [bind]. auto.
Qed.

(** X26. Spaces, tabs and carriage returns outside strings change
    nothing of the run when the character before them is not a comma:
    the text with the blanks and the text without them end in the same
    state or are abandoned alike. After a comma they clear
    [last_comma], which decides whether [[] appends the first index. *)
Theorem blanks_between_tokens (dm : data_model) (cfg : config)
    (a bl b : list byte) (s s1 : state) :
  run dm cfg s a = Done s1 ->
  in_quotes s1 = false -> last_comma s1 = false ->
  forallb is_blank bl = true ->
  run dm cfg s (a ++ bl ++ b) = run dm cfg s (a ++ b).
Proof.
  intros Ha Hq Hl Hb.
  rewrite !run_app, Ha. cbn [bind]. rewrite run_app, run_blanks by assumption.
  reflexivity.
Qed.

Lemma blanks_between_tokens_witness :
  run LP64 default_config (init LP64)
    (json "{'a':" ++ bytes_of_string "  " ++ json "1}")
  = run LP64 default_config (init LP64) (json "{'a':" ++ json "1}") /\
  path (final (run LP64 default_config (init LP64) (json "[[1], [2")))
  <> path (final (run LP64 default_config (init LP64) (json "[[1],[2"))).
Proof.
  split; [|vm_compute; discriminate].
  apply (blanks_between_tokens LP64 default_config (json "{'a':")
           (bytes_of_string "  ") (json "1}") (init LP64)
           (final (run LP64 default_config (init LP64) (json "{'a':"))));
    vm_compute; reflexivity.
Defined.

(** ** Escapes in a value *)

Ltac fin :=
  repeat split; try assumption; try reflexivity;
  unfold sink_bytes; cbn [map concat write_bytes app];
  rewrite ?app_nil_r; try reflexivity.

(** X27. A backslash and the byte after it inside a string value are
    copied as the two bytes they are (the escape is not decoded),
    except [\u], and except [\n] under [-n], which is written as a
    newline, or under [-n] with [-p] as the end of the record and the
    beginning of a continuation record of the same path. *)
Theorem escape_in_value (dm : data_model) (cfg : config) (s : state)
    (c : byte) :
  in_quotes s = true -> protect s = false -> in_unicode s = 0 ->
  in_value s <> 0 -> valueout s = true ->
  (c =? chr "u") = false -> (c =? NL) = false ->
  exists s',
    run dm cfg s [chr "\"; c] = Done s' /\
    sink_bytes (outp s') =
      sink_bytes (outp s) ++
      (if multiline cfg && (c =? chr "n") then
         if multiprefix cfg
         then [34; NL] ++ path s ++ bytes_of_string " .= " ++ [34]
         else [NL]
       else [chr "\"; c]) /\
    in_quotes s' = true /\ protect s' = false /\ path s' = path s /\
    valueout s' = true /\ errs s' = errs s.
Proof.
  intros Hq Hp Hu Hv Ho Hcu Hnl. apply Z.eqb_neq in Hv.
  destruct s as [nm p q v lc pr iu u i vo ln ws sfp sf es].
  cbn in Hq, Hp, Hu, Hv, Ho. subst q pr iu vo.
  cbn [run].
  destruct (multiline cfg && (c =? chr "n")) eqn:Hm;
    destruct (multiprefix cfg) eqn:Hmp; destruct sfp;
    repeat (simp; rewrite ?Hv, ?Hcu, ?Hnl, ?Hm, ?Hmp, ?andb_false_r,
              ?andb_true_r);
    eexists; (split; [reflexivity|]); simp;
    rewrite !sink_bytes_app, <- ?app_assoc; fin.
Qed.

Lemma escape_in_value_witness :
  let s := final (run LP64 default_config (init LP64) (json "{'a':'x")) in
  exists s',
    run LP64 default_config s [chr "\"; chr "t"] = Done s' /\
    sink_bytes (outp s') = sink_bytes (outp s) ++ [chr "\"; chr "t"].
Proof.
  intros s.
  destruct (escape_in_value LP64 default_config s (chr "t"))
    as (s' & Hrun & Hout & _).
  - vm_compute. reflexivity.
  - vm_compute. reflexivity.
  - vm_compute. reflexivity.
  - vm_compute. discriminate.
  - vm_compute. reflexivity.
  - vm_compute. reflexivity.
  - vm_compute. reflexivity.
  - exists s'. split; [exact Hrun|exact Hout].
Defined.

(** ** Nested objects *)

Section Nested.

Variable dm : data_model.
Variable cfg : config.
Hypothesis no_slices : slices cfg = [].

Abbreviation U := (ULONG_MAX dm).

Lemma scan_escaped_app (a b : list byte) : forall e,
  scan_escaped cfg (a ++ b) e = scan_escaped cfg b (scan_escaped cfg a e).
Proof.
  induction a as [|c a IH]; intros e; cbn [app scan_escaped]; [reflexivity|].
  repeat case_match; apply IH.
Qed.

Lemma scan_escaped_child (p r : list byte) :
  scan_escaped cfg p false = false -> scan_escaped cfg r false = false ->
  scan_escaped cfg (p ++ [chr "/"] ++ r) false = false.
Proof.
  intros Hp Hr. rewrite !scan_escaped_app, Hp. cbn [scan_escaped].
  change (chr "/" =? chr "{") with false. rewrite andb_false_r. cbn [andb].
  exact Hr.
Qed.

Lemma key_fits_facts (p k : list byte) :
  key_fits cfg p k = true ->
  exists r, rendered_component cfg k = Some r /\ r <> [] /\
            strlen p + strlen r + 2 <= MAXBUF /\
            slashes_hidden cfg r false = true /\
            scan_escaped cfg r false = false /\
            forallb key_byte k = true /\ strlen k <= MAXBUF - 1 /\
            child cfg p k = p ++ [chr "/"] ++ r.
Proof.
  unfold key_fits, child. intros H. apply andb_true_iff in H as [H Hr].
  apply andb_true_iff in H as [Hk Hlen].
  destruct (rendered_component cfg k) as [r|]; [|discriminate].
  apply andb_true_iff in Hr as [Hr Hs]. apply andb_true_iff in Hr as [Hr Hh].
  apply andb_true_iff in Hr as [Hne Hl].
  exists r. apply negb_true_iff, bool_decide_eq_false in Hne.
  apply negb_true_iff in Hs. apply Z.leb_le in Hlen, Hl. auto 10.
Qed.

Lemma path_append_child (p k r : list byte) :
  rendered_component cfg k = Some r -> r <> [] ->
  strlen p + strlen r + 2 <= MAXBUF ->
  path_append cfg k p = Appended (p ++ [chr "/"] ++ r).
Proof.
  intros Hr Hne Hl. rewrite (path_append_rendered cfg k p r Hr).
  destruct (Z.eqb_spec (strlen r) 0) as [E|_];
    [apply strlen_zero in E; contradiction|].
  destruct (Z.ltb_spec MAXBUF (strlen p + strlen r + 2)); [lia|reflexivity].
Qed.

Lemma path_remove_child (p r : list byte) (i : Z) :
  scan_escaped cfg p false = false -> slashes_hidden cfg r false = true ->
  path_remove dm cfg (p ++ [chr "/"] ++ r) false i = (p, i).
Proof.
  intros Hp Hh.
  rewrite (path_remove_untracked dm cfg _ (length p) i)
    by (apply find_last_slash_appended; assumption).
  rewrite take_app_length. reflexivity.
Qed.

Lemma path_remove_own (p r : list byte) :
  scan_escaped cfg p false = false -> slashes_hidden cfg r false = true ->
  index_like dm cfg r = false ->
  path_remove dm cfg (p ++ [chr "/"] ++ r) true U = (p, U).
Proof.
  intros Hp Hh Hi.
  rewrite (path_remove_idx dm cfg _ (length p) U)
    by (apply find_last_slash_appended; assumption).
  cbv zeta. rewrite take_app_length.
  replace (drop (S (length p)) (p ++ [chr "/"] ++ r)) with r.
  2:{ rewrite (app_assoc p [chr "/"]).
      replace (S (length p)) with (length (p ++ [chr "/"]))
        by (rewrite length_app; cbn; lia).
      rewrite drop_app_length. reflexivity. }
  unfold index_like in Hi. destruct (gen_index cfg); rewrite Hi; reflexivity.
Qed.

(** A key and its colon. *)
Lemma run_key_colon (p k r rest : list byte) lc ws :
  key_fits cfg p k = true ->
  rendered_component cfg k = Some r ->
  run dm cfg (reading p [] false 0 lc U false ws)
    ([34] ++ k ++ [34; chr ":"] ++ rest)
  = run dm cfg (reading (p ++ [chr "/"] ++ r) [] false 1 false U false ws)
      rest.
Proof.
  intros Hk Hr.
  destruct (key_fits_facts p k Hk)
    as (r' & Hr' & Hne & Hl & Hh & Hs & Hkb & Hkl & _).
  rewrite Hr in Hr'. injection Hr' as <-.
  run_head. simp. rewrite run_app.
  match goal with
  | |- bind (run _ _ ?s _) _ = _ =>
      change s with (reading p [] true 0 false U false ws)
  end.
  rewrite run_key by (assumption || (change (strlen []) with 0; lia)).
  cbn [bind app run]. simp. rewrite cstring_key by assumption.
  rewrite (path_append_child p k r) by assumption. simp. reflexivity.
Qed.

Lemma sink_bytes_terminal (p : list byte) (ws : list write) :
  sink_bytes (if terminals cfg && negb (strlen p =? 0)
              then ws ++ [Terminal p] else ws)
  = sink_bytes ws ++ container_line cfg p.
Proof.
  unfold container_line.
  destruct (terminals cfg && negb (strlen p =? 0)).
  - rewrite sink_bytes_app. unfold sink_bytes at 2.
    cbn [map concat write_bytes]. rewrite app_nil_r. reflexivity.
  - rewrite app_nil_r. reflexivity.
Qed.

Lemma step_open_object (p : list byte) v lc ws :
  step dm cfg (reading p [] false v lc U false ws) (chr "{")
  = Done (reading p [] false 0 false U false
            (if terminals cfg && negb (strlen p =? 0)
             then ws ++ [Terminal p] else ws)).
Proof.
  simp. destruct (terminals cfg && negb (strlen p =? 0)); simp; reflexivity.
Qed.

Lemma step_open_array (p : list byte) v ws :
  strlen p + 31 <= MAXBUF ->
  step dm cfg (reading p [] false v false U false ws) (chr "[")
  = Done (reading (p ++ [chr "/"] ++ element_component cfg 0) [] false 2 false
            U false
            (if terminals cfg && negb (strlen p =? 0)
             then ws ++ [Terminal p] else ws)).
Proof.
  intros Hl.
  destruct (element_component_facts cfg 0) as (Hr & Hne & Hlen & _).
  assert (Ha : path_append cfg (element_component cfg 0) p
               = Appended (p ++ [chr "/"] ++ element_component cfg 0)).
  { apply path_append_child; [assumption..|].
    pose proof (utoa_length 29 (Z.of_nat 0)).
    unfold element_component, fmt_lu, strlen in *.
    destruct (gen_index cfg); cbn in *; lia. }
  simp.
  change (if gen_index cfg then bytes_of_string "0" else bytes_of_string "#")
    with (element_component cfg 0).
  destruct (terminals cfg && negb (strlen p =? 0)); simp; rewrite Ha; simp;
    reflexivity.
Qed.

Lemma element_fits (p : list byte) (n : nat) :
  strlen p + 31 <= MAXBUF ->
  path_append cfg (element_component cfg n) p
  = Appended (p ++ [chr "/"] ++ element_component cfg n).
Proof.
  intros Hl. destruct (element_component_facts cfg n) as (Hr & Hne & _ & _).
  apply path_append_child; [assumption..|].
  pose proof (utoa_length 29 (Z.of_nat n)).
  unfold element_component, fmt_lu, strlen in *.
  destruct (gen_index cfg); cbn in *; lia.
Qed.

Lemma path_remove_element_at (p : list byte) (n : nat) (i : Z) :
  scan_escaped cfg p false = false ->
  Z.of_nat n <= U ->
  path_remove dm cfg (p ++ [chr "/"] ++ element_component cfg n) true i
  = (p, if gen_index cfg then Z.of_nat n else 1).
Proof.
  intros Hp Hn.
  pose proof (path_remove_index dm cfg p (Z.of_nat n - 1) i Hp) as H.
  unfold index_component in H.
  replace (Z.of_nat n - 1 + 1) with (Z.of_nat n) in H by lia.
  apply H. lia.
Qed.

Lemma step_comma_element_at (p : list byte) (n : nat) i ws :
  scan_escaped cfg p false = false ->
  strlen p + 31 <= MAXBUF ->
  Z.of_nat n < U ->
  step dm cfg (reading (p ++ [chr "/"] ++ element_component cfg n) [] false 2
                 false i true ws) (chr ",")
  = Done (reading (p ++ [chr "/"] ++ element_component cfg (S n)) [] false 2
            true U false (ws ++ [Char NL])).
Proof.
  intros Hp Hl Hn. pose proof (ULONG_MAX_above_1 dm) as H1.
  pose proof (element_fits p (S n) Hl) as Ha.
  simp. rewrite path_remove_element_at by (assumption || lia). simp.
  unfold element_component in *.
  destruct (gen_index cfg); simp.
  - destruct (Z.ltb_spec (Z.of_nat n) U); [|lia]. simp.
    replace (Z.of_nat n + 1) with (Z.of_nat (S n)) by lia.
    rewrite Ha. simp. reflexivity.
  - destruct (Z.ltb_spec 1 U); [|lia]. simp.
    rewrite Ha. simp. reflexivity.
Qed.

(** The closing bracket of an array that is the value of the entry
    rendered [r]: behind an element, or behind the opening bracket. *)
Lemma step_close_array (p r : list byte) (n : nat) i (vo : bool) ws :
  scan_escaped cfg p false = false ->
  slashes_hidden cfg r false = true ->
  scan_escaped cfg r false = false ->
  step dm cfg (reading ((p ++ [chr "/"] ++ r) ++ [chr "/"]
                          ++ element_component cfg n)
                 [] false 2 false i vo ws) (chr "]")
  = Done (reading p [] false 0 false U false
            (if vo then ws ++ [Char NL] else ws)).
Proof.
  intros Hp Hh Hs.
  destruct (element_component_facts cfg n) as (_ & _ & _ & He).
  pose proof (scan_escaped_child p r Hp Hs) as Hq.
  destruct vo; simp;
    rewrite (path_remove_child (p ++ [chr "/"] ++ r)) by assumption; simp;
    rewrite path_remove_child by assumption; simp; reflexivity.
Qed.

Lemma array_lines_line (p : list byte) (n : nat) (x : scalar)
    (ws0 : list write) :
  scalar_ok cfg x = true ->
  sink_bytes (ws0 ++ record_writes (p ++ [chr "/"] ++ element_component cfg n)
                       (scalar_text x) ++ [Char NL])
  = sink_bytes ws0
    ++ record_line (p ++ [chr "/"] ++ element_component cfg n) x.
Proof.
  intros Hx. rewrite sink_bytes_app, (sink_bytes_record cfg) by assumption.
  reflexivity.
Qed.

(** The elements of an array in a entry, and its closing bracket. *)
Lemma run_elements_at (p r : list byte) (xs : list scalar) :
  forall n lc i ws,
    xs <> [] ->
    scan_escaped cfg p false = false ->
    slashes_hidden cfg r false = true ->
    scan_escaped cfg r false = false ->
    strlen (p ++ [chr "/"] ++ r) + 31 <= MAXBUF ->
    forallb (scalar_ok cfg) xs = true ->
    Z.of_nat (n + length xs) <= U ->
    exists ws',
      run dm cfg (reading ((p ++ [chr "/"] ++ r) ++ [chr "/"]
                             ++ element_component cfg n)
                    [] false 2 lc i false ws)
        (separated (map scalar_text xs) ++ [chr "]"])
      = Done (reading p [] false 0 false U false ws') /\
      sink_bytes ws'
      = sink_bytes ws ++ array_lines cfg (p ++ [chr "/"] ++ r) n xs.
Proof.
  induction xs as [|x xs IH]; intros n lc i ws Hne Hp Hh Hs Hl Hok Hlen;
    [contradiction|].
  cbn [forallb] in Hok. apply andb_true_iff in Hok as [Hx Hok].
  cbn [length] in Hlen.
  pose proof (scan_escaped_child p r Hp Hs) as Hq.
  cbn [map separated]. destruct xs as [|y xs].
  - cbn [map]. rewrite run_app, run_scalar by (assumption || reflexivity).
    cbn [bind run]. rewrite step_close_array by assumption.
    cbn [bind]. eexists. split; [reflexivity|].
    rewrite <- app_assoc, array_lines_line by assumption.
    cbn [array_lines]. rewrite app_nil_r. reflexivity.
  - cbn [map]. rewrite <- (app_assoc (scalar_text x)), run_app, run_scalar
      by (assumption || reflexivity).
    cbn [bind]. run_head.
    rewrite step_comma_element_at by (assumption || (cbn [length] in Hlen; lia)).
    cbn [bind].
    destruct (IH (S n) true U
                ((ws ++ record_writes
                          ((p ++ [chr "/"] ++ r) ++ [chr "/"]
                             ++ element_component cfg n)
                          (scalar_text x)) ++ [Char NL]))
      as (ws' & Hrun & Hbytes);
      [discriminate|assumption..|cbn [length] in *; lia|].
    cbn [map] in Hrun. rewrite Hrun. exists ws'. split; [reflexivity|].
    rewrite Hbytes, <- app_assoc, array_lines_line by assumption.
    cbn [array_lines]. rewrite <- app_assoc. reflexivity.
Qed.

(** An array of scalars as the value of a entry. *)
Lemma run_array_at (p r : list byte) (xs : list scalar) ws :
  scan_escaped cfg p false = false ->
  slashes_hidden cfg r false = true ->
  scan_escaped cfg r false = false ->
  tree_ok dm cfg (p ++ [chr "/"] ++ r) (Arr xs) = true ->
  exists ws',
    run dm cfg (reading (p ++ [chr "/"] ++ r) [] false 1 false U false ws)
      (flat_array xs)
    = Done (reading p [] false 0 false U false ws') /\
    sink_bytes ws'
    = sink_bytes ws ++ tree_lines cfg (p ++ [chr "/"] ++ r) (Arr xs).
Proof.
  intros Hp Hh Hs Hok. cbn [tree_ok] in Hok.
  apply andb_true_iff in Hok as [Hok Hn]. apply andb_true_iff in Hok as [Hok Hl].
  apply Z.leb_le in Hn, Hl.
  unfold flat_array. run_head. rewrite step_open_array by assumption.
  cbn [bind tree_lines].
  destruct xs as [|x xs].
  - cbn [map separated]. change ([] ++ [chr "]"]) with [chr "]"]. cbn [run].
    rewrite step_close_array by assumption. cbn [bind]. eexists.
    split; [reflexivity|]. rewrite sink_bytes_terminal. cbn [array_lines].
    rewrite app_nil_r. reflexivity.
  - destruct (run_elements_at p r (x :: xs) 0 false U
                (if terminals cfg && negb (strlen (p ++ [chr "/"] ++ r) =? 0)
                 then ws ++ [Terminal (p ++ [chr "/"] ++ r)] else ws))
      as (ws' & Hrun & Hbytes); [discriminate|assumption..|].
    rewrite Hrun. exists ws'. split; [reflexivity|].
    rewrite Hbytes, sink_bytes_terminal, <- app_assoc. reflexivity.
Qed.


Lemma step_comma_after (t : tree) (p r : list byte) ws :
  scan_escaped cfg p false = false ->
  slashes_hidden cfg r false = true ->
  step dm cfg (after_value dm t p r ws) (chr ",")
  = Done (reading p [] false 0 true U false (ws ++ closing t)).
Proof.
  intros Hp Hh. unfold after_value, closing. destruct (is_leaf t); simp.
  - rewrite path_remove_child by assumption. simp. reflexivity.
  - rewrite Z.ltb_irrefl. simp. rewrite app_nil_r. reflexivity.
Qed.

Lemma step_close_after (t : tree) (p r : list byte) ws :
  scan_escaped cfg p false = false ->
  slashes_hidden cfg r false = true ->
  step dm cfg (after_value dm t p r ws) (chr "}")
  = Done (reading (fst (path_remove dm cfg p true U)) [] false 0 false
            (snd (path_remove dm cfg p true U)) false (ws ++ closing t)).
Proof.
  intros Hp Hh. unfold after_value, closing. destruct (is_leaf t); simp.
  - rewrite path_remove_child by assumption. simp.
    destruct (path_remove dm cfg p true U). reflexivity.
  - destruct (path_remove dm cfg p true U). simp. rewrite app_nil_r.
    reflexivity.
Qed.

Lemma step_close_empty (p r : list byte) ws :
  scan_escaped cfg p false = false ->
  slashes_hidden cfg r false = true ->
  index_like dm cfg r = false ->
  step dm cfg (reading (p ++ [chr "/"] ++ r) [] false 0 false U false ws)
    (chr "}")
  = Done (reading p [] false 0 false U false ws).
Proof.
  intros Hp Hh Hi. simp. rewrite path_remove_own by assumption. simp.
  reflexivity.
Qed.

(** A value in a entry, and the entries of an object up to its
    closing brace. *)
Lemma run_tree_entries :
  (forall t p r ws,
     scan_escaped cfg p false = false ->
     slashes_hidden cfg r false = true ->
     scan_escaped cfg r false = false ->
     (is_object t = true -> index_like dm cfg r = false) ->
     tree_ok dm cfg (p ++ [chr "/"] ++ r) t = true ->
     exists ws',
       run dm cfg (reading (p ++ [chr "/"] ++ r) [] false 1 false U false ws)
         (tree_text t)
       = Done (after_value dm t p r ws') /\
       sink_bytes (ws' ++ closing t)
       = sink_bytes ws ++ tree_lines cfg (p ++ [chr "/"] ++ r) t) /\
  (forall ms p lc ws,
     ms <> no_entry ->
     scan_escaped cfg p false = false ->
     entries_ok dm cfg p ms = true ->
     exists ws',
       run dm cfg (reading p [] false 0 lc U false ws)
         (entries_text ms ++ [chr "}"])
       = Done (reading (fst (path_remove dm cfg p true U)) [] false 0 false
                 (snd (path_remove dm cfg p true U)) false ws') /\
       sink_bytes ws' = sink_bytes ws ++ entries_lines cfg p ms).
Proof.
  apply tree_mutual_ind.
  - intros x p r ws Hp Hh Hs _ Hok. cbn [tree_ok tree_text] in *.
    rewrite run_scalar by (assumption || reflexivity).
    eexists. split; [reflexivity|]. cbn [closing is_leaf tree_lines].
    rewrite <- app_assoc, sink_bytes_app, (sink_bytes_record cfg)
      by assumption.
    reflexivity.
  - intros xs p r ws Hp Hh Hs _ Hok. cbn [tree_text].
    destruct (run_array_at p r xs ws Hp Hh Hs Hok) as (ws' & Hrun & Hbytes).
    exists ws'. split; [exact Hrun|]. cbn [closing is_leaf].
    rewrite app_nil_r. exact Hbytes.
  - intros ms IH p r ws Hp Hh Hs Hi Hok. cbn [tree_ok tree_text] in *.
    specialize (Hi eq_refl).
    pose proof (scan_escaped_child p r Hp Hs) as Hq.
    run_head. rewrite step_open_object. cbn [bind closing is_leaf tree_lines].
    destruct ms as [|k t rest].
    + cbn [entries_text entries_lines]. change ([] ++ [chr "}"]) with [chr "}"].
      cbn [run]. rewrite step_close_empty by assumption. cbn [bind].
      eexists. split; [reflexivity|].
      rewrite !app_nil_r, sink_bytes_terminal. reflexivity.
    + destruct (IH (p ++ [chr "/"] ++ r) false
                  (if terminals cfg
                      && negb (strlen (p ++ [chr "/"] ++ r) =? 0)
                   then ws ++ [Terminal (p ++ [chr "/"] ++ r)] else ws))
        as (ws' & Hrun & Hbytes); [discriminate|assumption..|].
      rewrite path_remove_own in Hrun by assumption. cbn [fst snd] in Hrun.
      rewrite Hrun. exists ws'. split; [reflexivity|].
      rewrite app_nil_r, Hbytes, sink_bytes_terminal, <- app_assoc.
      reflexivity.
  - intros p lc ws Hne. contradiction.
  - intros k t IHt rest IHrest p lc ws _ Hp Hok. cbn [entries_ok] in Hok.
    apply andb_true_iff in Hok as [Hok Hrest].
    apply andb_true_iff in Hok as [Hok Ht].
    apply andb_true_iff in Hok as [Hk Hobj].
    destruct (key_fits_facts p k Hk)
      as (r & Hr & Hne & Hl & Hh & Hs & Hkb & Hkl & Hc).
    rewrite Hc in Ht. rewrite Hr in Hobj. cbn [default] in Hobj.
    assert (Hi : is_object t = true -> index_like dm cfg r = false).
    { intros Ho. rewrite Ho in Hobj. apply negb_true_iff in Hobj. exact Hobj. }
    cbn [entries_text entries_lines]. rewrite Hc.
    rewrite <- !app_assoc, (run_key_colon p k r) by assumption.
    rewrite run_app.
    destruct (IHt p r ws Hp Hh Hs Hi Ht) as (ws1 & Hrun1 & Hbytes1).
    rewrite Hrun1. cbn [bind].
    destruct rest as [|k' t' rest'].
    + change ([] ++ [chr "}"]) with [chr "}"]. cbn [run].
      rewrite step_close_after by assumption. cbn [bind].
      eexists. split; [reflexivity|]. cbn [entries_lines].
      rewrite app_nil_r. exact Hbytes1.
    + run_head. rewrite step_comma_after by assumption. cbn [bind].
      destruct (IHrest p true (ws1 ++ closing t))
        as (ws' & Hrun & Hbytes); [discriminate|assumption..|].
      rewrite Hrun. exists ws'. split; [reflexivity|].
      rewrite Hbytes, Hbytes1, <- app_assoc. reflexivity.
Qed.

(** A document that is an object. *)
Lemma run_document (ms : entries) :
  entries_ok dm cfg [] ms = true ->
  exists s,
    run dm cfg (init dm) (tree_text (Node ms)) = Done s /\
    sink_bytes (outp s) = tree_lines cfg [] (Node ms) /\
    path s = [] /\ errs s = [].
Proof.
  intros Hok. cbn [tree_text tree_lines]. run_head.
  change (init dm) with (reading [] [] false 0 false U false []).
  rewrite step_open_object. cbn [bind].
  change (strlen []) with 0. change (0 =? 0) with true.
  rewrite andb_false_r. unfold container_line. change (strlen []) with 0.
  change (0 =? 0) with true. rewrite andb_false_r. cbn [app].
  destruct ms as [|k t rest].
  - cbn [entries_text entries_lines]. change ([] ++ [chr "}"]) with [chr "}"].
    cbn [run]. simp. rewrite path_remove_empty. simp.
    eexists. split; [reflexivity|]. cbn. auto.
  - destruct (proj2 run_tree_entries (entry k t rest) [] false [])
      as (ws' & Hrun & Hbytes); [discriminate|reflexivity|assumption|].
    rewrite Hrun. eexists. split; [reflexivity|].
    cbn [outp path errs reading fst]. rewrite Hbytes. auto.
Qed.


End Nested.

Section TreeTransfer.

Variable dm : data_model.
Variable cfg : config.

Lemma scan_escaped_without (s : list byte) : forall e,
  scan_escaped (without_slices cfg) s e = scan_escaped cfg s e.
Proof.
  induction s as [|c s IH]; intros e; cbn [scan_escaped]; [reflexivity|].
  change (unescape (without_slices cfg)) with (unescape cfg).
  rewrite !IH. reflexivity.
Qed.

Lemma key_fits_without (p k : list byte) :
  key_fits (without_slices cfg) p k = key_fits cfg p k.
Proof.
  unfold key_fits.
  change (rendered_component (without_slices cfg) k)
    with (rendered_component cfg k).
  destruct (rendered_component cfg k); [|reflexivity].
  rewrite slashes_hidden_without, scan_escaped_without. reflexivity.
Qed.

Lemma array_lines_without (p : list byte) (xs : list scalar) : forall n,
  array_lines (without_slices cfg) p n xs = array_lines cfg p n xs.
Proof.
  induction xs as [|x xs IH]; intros n; cbn [array_lines]; [reflexivity|].
  rewrite IH. reflexivity.
Qed.

Lemma tree_ok_without :
  (forall t p, tree_ok dm (without_slices cfg) p t = tree_ok dm cfg p t) /\
  (forall ms p,
     entries_ok dm (without_slices cfg) p ms = entries_ok dm cfg p ms).
Proof.
  apply tree_mutual_ind; try reflexivity.
  - intros ms IH p. cbn [tree_ok]. apply IH.
  - intros k t IHt rest IHrest p. cbn [entries_ok].
    rewrite key_fits_without, IHt, IHrest. reflexivity.
Qed.

Lemma tree_lines_without :
  (forall t p, tree_lines (without_slices cfg) p t = tree_lines cfg p t) /\
  (forall ms p,
     entries_lines (without_slices cfg) p ms = entries_lines cfg p ms).
Proof.
  apply tree_mutual_ind; try reflexivity.
  - intros xs p. cbn [tree_lines]. rewrite array_lines_without. reflexivity.
  - intros ms IH p. cbn [tree_lines]. rewrite IH. reflexivity.
  - intros k t IHt rest IHrest p. cbn [entries_lines].
    rewrite IHt, IHrest. reflexivity.
Qed.

End TreeTransfer.

(** X28. A document that is an object, nested to any depth, whose
    leaves are scalars and arrays of scalars, is converted record by
    record: a structural line for every container below the root
    (without [-h]), and for every scalar its path, [ = ], the value as
    it is written and a newline, in the order of the document. The
    keys must fit and hold no slash outside braces; the key of a entry
    that is itself an object must not read as an index (a number below
    [ULONG_MAX], or [#] under [-I]). *)
Theorem nested_object_records (dm : data_model) (cfg : config)
    (ms : entries) :
  entries_ok dm cfg [] ms = true ->
  exists s,
    run dm cfg (init dm) (tree_text (Node ms)) = Done s /\
    sink_bytes (outp s) = tree_lines cfg [] (Node ms) /\
    path s = [] /\ errs s = [].
Proof.
  intros Hok.
  destruct (run_document dm (without_slices cfg) eq_refl ms)
    as (s0 & Hrun & Hout & Hpath & Herrs).
  { rewrite (proj2 (tree_ok_without dm cfg)). exact Hok. }
  destruct (run_with_slices dm cfg _ _ Hrun) as (s & Hs & Ho & Hp & He).
  exists s. rewrite Ho, Hp, He, <- (proj1 (tree_lines_without cfg)). auto.
Qed.

Lemma nested_object_records_witness :
  exists s,
    run LP64 slice_config (init LP64)
      (json "{'a':{'b':1,'c':[1,2]},'d':'x'}") = Done s /\
    sink_bytes (outp s)
    = json "/a" ++ [NL] ++ json "/a/b = 1" ++ [NL] ++ json "/a/c" ++ [NL]
      ++ json "/a/c/0 = 1" ++ [NL] ++ json "/a/c/1 = 2" ++ [NL]
      ++ json "/d = 'x'" ++ [NL].
Proof.
  destruct (nested_object_records LP64 slice_config
              (entry (bytes_of_string "a")
                 (Node (entry (bytes_of_string "b")
                          (Leaf (Literal (bytes_of_string "1")))
                          (entry (bytes_of_string "c")
                             (Arr [Literal (bytes_of_string "1");
                                   Literal (bytes_of_string "2")])
                             no_entry)))
                 (entry (bytes_of_string "d")
                    (Leaf (Quoted (bytes_of_string "x"))) no_entry)))
    as (s & Hrun & Hout & _).
  - vm_compute. reflexivity.
  - exists s. split; [exact Hrun|exact Hout].
Defined.
